(** * jsmn2: a shallow embedding of the tokenizer of [src/jsmn2.c]

    The C functions are transcribed statement by statement.  The token pool
    is a list of token records indexed from 0, the input a list of bytes;
    every array access is checked, and an access outside the list ends the
    run in [Crash] (the C program has no defined behaviour there).  The
    compile-time switches of the source ([JSMN_PARENT_LINKS],
    [JSMN_NO_TRAILING_COMMAS], [JSMN_TESTMODE]) are the fields of [config]. *)

From Stdlib Require Import ZArith Bool Lia.
From Stdlib Require Import Ascii String.
From stdpp Require Import base list.

Open Scope Z_scope.

(** ** Data model *)

(** Modelled from the spec: the header [jsmn2.h] is not part of the sources.
    The spec lists the token types as Undefined, Object, Array, String,
    Primitive; [type_val] gives the enumerators their values in that order
    (the source compares them with [<=] and [>] against [JSMN_ARRAY]). *)
Inductive jsmntype_t :=
| JSMN_UNDEFINED
| JSMN_OBJECT
| JSMN_ARRAY
| JSMN_STRING
| JSMN_PRIMITIVE.

Definition type_val (t : jsmntype_t) : Z :=
  match t with
  | JSMN_UNDEFINED => 0
  | JSMN_OBJECT => 1
  | JSMN_ARRAY => 2
  | JSMN_STRING => 3
  | JSMN_PRIMITIVE => 4
  end.

Definition type_eqb (a b : jsmntype_t) : bool := type_val a =? type_val b.

(** Modelled from the spec: the error taxonomy of [enum jsmnerr]; the names
    are the ones the source returns. *)
Inductive jsmnerr :=
| JSMN_SUCCESS
| JSMN_ERROR_NOMEM
| JSMN_ERROR_INVAL
| JSMN_ERROR_UNEXPECTED_CHAR
| JSMN_ERROR_UNEXPECTED_EOF
| JSMN_ERROR_UNCLOSED_STRING
| JSMN_ERROR_BROKEN_NEWLINE
| JSMN_ERROR_UNCLOSED_OBJECT
| JSMN_ERROR_UNCLOSED_ARRAY
| JSMN_ERROR_EXPECTED_EOF
| JSMN_ERROR_TRAILING_COMMA.

(** Modelled from the spec: [jsmntok_t].  Offsets and counters are
    mathematical integers (no input in the claims comes near the range of
    a C [int]); [start = -1] is the spec's "unset", [parent = -1] its
    "none".  The field [parent] only exists under [JSMN_PARENT_LINKS]; with
    the switch off the model never reads or writes it on its own. *)
Record jsmntok_t := mkTok {
  type : jsmntype_t;
  start : Z;
  size : Z;
  unclosed : bool;
  is_key : bool;
  associated : bool;
  parent : Z
}.

(** Modelled from the spec: [jsmn_parser]; [toksuper = -1] is "no current
    container", [last_is_comma] is the source's [__last_is_comma].  With
    [toknext = 0] the index [toknext - 1] of the source is -1 here; were
    [toknext] unsigned it would be the largest unsigned value, outside
    the pool all the same. *)
Record jsmn_parser := mkParser {
  pos : Z;
  toknext : Z;
  toksuper : Z;
  line : Z;
  col : Z;
  last_is_comma : bool;
  tokbuf : jsmntok_t
}.

(** The preprocessor switches of the source. *)
Record config := mkConfig {
  JSMN_PARENT_LINKS : bool;
  JSMN_NO_TRAILING_COMMAS : bool;
  JSMN_TESTMODE : bool
}.

(** Field assignments. *)
Definition set_type (v : jsmntype_t) (t : jsmntok_t) : jsmntok_t :=
  mkTok v (start t) (size t) (unclosed t) (is_key t) (associated t) (parent t).
Definition set_start (v : Z) (t : jsmntok_t) : jsmntok_t :=
  mkTok (type t) v (size t) (unclosed t) (is_key t) (associated t) (parent t).
Definition set_size (v : Z) (t : jsmntok_t) : jsmntok_t :=
  mkTok (type t) (start t) v (unclosed t) (is_key t) (associated t) (parent t).
Definition set_unclosed (v : bool) (t : jsmntok_t) : jsmntok_t :=
  mkTok (type t) (start t) (size t) v (is_key t) (associated t) (parent t).
Definition set_is_key (v : bool) (t : jsmntok_t) : jsmntok_t :=
  mkTok (type t) (start t) (size t) (unclosed t) v (associated t) (parent t).
Definition set_associated (v : bool) (t : jsmntok_t) : jsmntok_t :=
  mkTok (type t) (start t) (size t) (unclosed t) (is_key t) v (parent t).
Definition set_parent (v : Z) (t : jsmntok_t) : jsmntok_t :=
  mkTok (type t) (start t) (size t) (unclosed t) (is_key t) (associated t) v.

Definition set_pos (v : Z) (p : jsmn_parser) : jsmn_parser :=
  mkParser v (toknext p) (toksuper p) (line p) (col p) (last_is_comma p) (tokbuf p).
Definition set_toknext (v : Z) (p : jsmn_parser) : jsmn_parser :=
  mkParser (pos p) v (toksuper p) (line p) (col p) (last_is_comma p) (tokbuf p).
Definition set_toksuper (v : Z) (p : jsmn_parser) : jsmn_parser :=
  mkParser (pos p) (toknext p) v (line p) (col p) (last_is_comma p) (tokbuf p).
Definition set_line (v : Z) (p : jsmn_parser) : jsmn_parser :=
  mkParser (pos p) (toknext p) (toksuper p) v (col p) (last_is_comma p) (tokbuf p).
Definition set_col (v : Z) (p : jsmn_parser) : jsmn_parser :=
  mkParser (pos p) (toknext p) (toksuper p) (line p) v (last_is_comma p) (tokbuf p).
Definition set_last_is_comma (v : bool) (p : jsmn_parser) : jsmn_parser :=
  mkParser (pos p) (toknext p) (toksuper p) (line p) (col p) v (tokbuf p).
Definition set_tokbuf (v : jsmntok_t) (p : jsmn_parser) : jsmn_parser :=
  mkParser (pos p) (toknext p) (toksuper p) (line p) (col p) (last_is_comma p) v.

(** ** Memory and control *)

(** What ends a run without a return value. *)
Inductive fault :=
| BadTokenIndex (i : Z)   (* tokens[i] outside the pool array *)
| BadByteIndex (p : Z)    (* js[p] outside the input buffer *)
| ParentCycle             (* the for(;;) walk over parent links never leaves *)
| OutOfFuel.              (* a bounded loop of the model ran out of steps *)

Inductive outcome (A : Type) :=
| Ok (a : A)
| Crash (f : fault).
Arguments Ok {A} a.
Arguments Crash {A} f.

Definition obind {A B : Type} (m : outcome A) (k : A -> outcome B) : outcome B :=
  match m with
  | Ok a => k a
  | Crash f => Crash f
  end.

Notation "'let*' x ':=' e 'in' k" := (obind e (fun x => k))
  (at level 10, x pattern, e at level 200, k at level 200).

(** The parser together with the caller's pool. *)
Definition state : Type := jsmn_parser * list jsmntok_t.

(** One pass through the body of the driver loop, or a whole call of
    [jsmn_parse], either goes on or returns an error code; the state is the
    one the caller sees at that moment. *)
Inductive flow :=
| Continue (s : state)
| Return (r : jsmnerr) (s : state).

(** [js[p]] *)
Definition rd (js : list Z) (p : Z) : outcome Z :=
  if p <? 0 then Crash (BadByteIndex p)
  else match js !! Z.to_nat p with
       | Some c => Ok c
       | None => Crash (BadByteIndex p)
       end.

(** [tokens[i]] *)
Definition load (tokens : list jsmntok_t) (i : Z) : outcome jsmntok_t :=
  if i <? 0 then Crash (BadTokenIndex i)
  else match tokens !! Z.to_nat i with
       | Some t => Ok t
       | None => Crash (BadTokenIndex i)
       end.

(** [tokens[i] = f(tokens[i])] *)
Definition modify (tokens : list jsmntok_t) (i : Z) (f : jsmntok_t -> jsmntok_t)
  : outcome (list jsmntok_t) :=
  let* t := load tokens i in
  Ok (<[Z.to_nat i := f t]> tokens).

(** A [jsmntok_t *]: a slot of the pool or the parser's scratch token. *)
Inductive tokref :=
| Slot (i : Z)
| Tokbuf.

Definition modify_ref (r : tokref) (f : jsmntok_t -> jsmntok_t) (s : state)
  : outcome state :=
  match r with
  | Slot i => let* tokens := modify (snd s) i f in Ok (fst s, tokens)
  | Tokbuf => Ok (set_tokbuf (f (tokbuf (fst s))) (fst s), snd s)
  end.

(** Character constants. *)
Abbreviation c_nul := 0 (only parsing).
Abbreviation c_tab := 9 (only parsing).
Abbreviation c_lf := 10 (only parsing).
Abbreviation c_vt := 11 (only parsing).
Abbreviation c_ff := 12 (only parsing).
Abbreviation c_cr := 13 (only parsing).
Abbreviation c_space := 32 (only parsing).
Abbreviation c_dquote := 34 (only parsing).
Abbreviation c_comma := 44 (only parsing).
Abbreviation c_minus := 45 (only parsing).
Abbreviation c_slash := 47 (only parsing).
Abbreviation c_colon := 58 (only parsing).
Abbreviation c_lbracket := 91 (only parsing).
Abbreviation c_backslash := 92 (only parsing).
Abbreviation c_rbracket := 93 (only parsing).
Abbreviation c_lbrace := 123 (only parsing).
Abbreviation c_rbrace := 125 (only parsing).

(** ** Token allocation *)

Definition jsmn_init_token (cfg : config) (tok : jsmntok_t) : jsmntok_t :=
  mkTok JSMN_UNDEFINED (-1) 0 false false false
        (if JSMN_PARENT_LINKS cfg then -1 else parent tok).

(** [None] is the C [NULL]. *)
Definition jsmn_alloc_token (cfg : config) (num_tokens : Z) (s : state)
  : outcome (option Z * state) :=
  let '(parser, tokens) := s in
  if toknext parser >=? num_tokens then Ok (None, s)
  else
    let i := toknext parser in
    let parser := set_toknext (i + 1) parser in
    let* tokens := modify tokens i (jsmn_init_token cfg) in
    Ok (Some i, (parser, tokens)).

Definition jsmn_fill_token (ty : jsmntype_t) (st en : Z) (token : jsmntok_t)
  : jsmntok_t :=
  set_size (en - st) (set_start st (set_type ty token)).

(** [c] is the [unsigned] argument; [v1], [v2] are [unsigned short]. *)
Definition ishexdigit (c : Z) : bool :=
  let v1 := (c - 48) mod 65536 in
  let v2 := (Z.lor c 32 - 97) mod 65536 in
  (v1 <=? 9) || (v2 <=? 5).

(** The common tail of both scanners: take a slot or fall back to the
    scratch token. *)
Definition alloc_or_tokbuf (cfg : config) (num_tokens : Z) (s : state)
  : outcome (tokref * jsmnerr * state) :=
  let* (slot, s) := jsmn_alloc_token cfg num_tokens s in
  match slot with
  | Some i => Ok (Slot i, JSMN_SUCCESS, s)
  | None => Ok (Tokbuf, JSMN_ERROR_NOMEM, s)
  end.

(** ** The sub-scanners *)

(** How a scanning loop ends: at offset [p], or with an error code. *)
Inductive scan :=
| Found (p : Z)
| Failed (r : jsmnerr).

(** The [case] labels of the primitive scanner's [switch]. *)
Definition is_terminator (c : Z) : bool :=
  (c =? c_vt) || (c =? c_ff) || (c =? c_tab) || (c =? c_cr) || (c =? c_lf)
  || (c =? c_space) || (c =? c_comma) || (c =? c_rbracket) || (c =? c_rbrace).

(** The two-byte escapes: quote, slash, backslash, b, f, r, n, t. *)
Definition is_simple_escape (c : Z) : bool :=
  (c =? c_dquote) || (c =? c_slash) || (c =? c_backslash) || (c =? 98)
  || (c =? 102) || (c =? 114) || (c =? 110) || (c =? 116).

(** The whitespace bytes other than CR and LF. *)
Definition is_blank (c : Z) : bool :=
  (c =? c_space) || (c =? c_tab) || (c =? c_vt) || (c =? c_ff).

(** What the [switch] of the whitespace loop does with one byte. *)
Inductive ws_case :=
| WsBreak (parser : jsmn_parser) (p : Z)
| WsOut
| WsBroken.

Definition advance (n : Z) (parser : jsmn_parser) : jsmn_parser :=
  set_col (col parser + n) (set_pos (pos parser + n) parser).

Section Tokenizer.

Variable cfg : config.
Variable js : list Z.
Variable len : Z.
Variable num_tokens : Z.

(** [for (; p < q && *p != 0; p++)] of [jsmn_parse_primitive]; [Found p]
    is the jump to [found]. *)
Fixpoint primitive_scan (fuel : nat) (p : Z) : outcome scan :=
  if p <? len then
    let* c := rd js p in
    if c =? c_nul then Ok (Failed JSMN_ERROR_UNEXPECTED_EOF)
    else if is_terminator c then Ok (Found p)
    else match fuel with
         | O => Crash OutOfFuel
         | S fuel => primitive_scan fuel (p + 1)
         end
  else Ok (Failed JSMN_ERROR_UNEXPECTED_EOF).

Definition jsmn_parse_primitive (s : state) : outcome (jsmnerr * state) :=
  let start := pos (fst s) in
  let* sc := primitive_scan (Z.to_nat (len - start)) start in
  match sc with
  | Failed r => Ok (r, (set_pos start (fst s), snd s))
  | Found p =>
      let parser := set_pos p (fst s) in
      let parser := set_col (col parser + (pos parser - start)) parser in
      let* (token, res, s) := alloc_or_tokbuf cfg num_tokens (parser, snd s) in
      let* s := modify_ref token
                  (jsmn_fill_token JSMN_PRIMITIVE start (pos (fst s))) s in
      let* s := if JSMN_PARENT_LINKS cfg
                then modify_ref token (set_parent (toksuper (fst s))) s
                else Ok s in
      Ok (res, s)
  end.

(** [for (int i = 0; i < 4 && *p != '\n'; p++, i++)]; [n] is [4 - i].
    The byte is passed to [ishexdigit] as its value in 0..255: for a
    negative [char] the conversion to [unsigned] adds a multiple of
    65536 apart from 256, and the result of [ishexdigit] is [false]
    either way. *)
Fixpoint hex_digits (n : nat) (p : Z) : outcome scan :=
  match n with
  | O => Ok (Found p)
  | S n =>
      let* c := rd js p in
      if c =? c_lf then Ok (Found p)
      else if negb (ishexdigit c) then Ok (Failed JSMN_ERROR_INVAL)
      else hex_digits n (p + 1)
  end.

(** [switch ( *++p )] at a backslash. *)
Definition string_escape (p : Z) : outcome scan :=
  let p := p + 1 in
  let* c := rd js p in
  if is_simple_escape c then Ok (Found (p + 1))
  else if c =? 117 then hex_digits 4 (p + 1)
  else Ok (Failed JSMN_ERROR_INVAL).

(** One pass of the string loop that does not see the closing quote. *)
Definition string_body (c p : Z) : outcome scan :=
  if (c =? c_backslash) && (p + 1 <? len) then string_escape p
  else Ok (Found (p + 1)).

(** [for (; p < q && *p != 0;)] of [jsmn_parse_string]; [Found p] is the
    closing quote at [p]. *)
Fixpoint string_scan (fuel : nat) (p : Z) : outcome scan :=
  if p <? len then
    let* c := rd js p in
    if c =? c_nul then Ok (Failed JSMN_ERROR_UNCLOSED_STRING)
    else if c =? c_dquote then Ok (Found p)
    else
      let* nxt := string_body c p in
      match nxt with
      | Failed r => Ok (Failed r)
      | Found p' =>
          match fuel with
          | O => Crash OutOfFuel
          | S fuel => string_scan fuel p'
          end
      end
  else Ok (Failed JSMN_ERROR_UNCLOSED_STRING).

Definition jsmn_parse_string (s : state) : outcome (jsmnerr * state) :=
  let start := pos (fst s) in
  let* sc := string_scan (Z.to_nat (len - (start + 1))) (start + 1) in
  match sc with
  | Failed r => Ok (r, s)
  | Found p =>
      let* (token, res, s) := alloc_or_tokbuf cfg num_tokens s in
      let s := (set_pos p (fst s), snd s) in
      let* s := modify_ref token
                  (jsmn_fill_token JSMN_STRING (start + 1) (pos (fst s))) s in
      let s := (set_pos (pos (fst s) + 1) (fst s), snd s) in
      let s := (set_col (col (fst s) + (p - start + 1)) (fst s), snd s) in
      let* s := if JSMN_PARENT_LINKS cfg
                then modify_ref token (set_parent (toksuper (fst s))) s
                else Ok s in
      let* t := load (snd s) (toksuper (fst s)) in
      let* s := if type_eqb (type t) JSMN_OBJECT
                then modify_ref token (set_is_key true) s
                else Ok s in
      Ok (res, s)
  end.

(** The [switch] of [jamn_skip_whitespaces] on the byte at [p]. *)
Definition ws_switch (parser : jsmn_parser) (p : Z) : outcome ws_case :=
  let* c := rd js p in
  if c =? c_cr then
    let* c' := rd js (p + 1) in
    if negb (c' =? c_lf) then Ok WsBroken
    else Ok (WsBreak (set_col 0 (set_line (line parser + 1) parser)) (p + 1))
  else if c =? c_lf then
    Ok (WsBreak (set_col 0 (set_line (line parser + 1) parser)) p)
  else if is_blank c then Ok (WsBreak parser p)
  else Ok WsOut.

(** The [do ... while (p < q && *p != 0)] loop; the result is the
    function's return value with the parser as it leaves it. *)
Fixpoint ws_loop (fuel : nat) (parser : jsmn_parser) (p : Z)
  : outcome (Z * jsmn_parser) :=
  let* sw := ws_switch parser p in
  match sw with
  | WsBroken => Ok (-1, parser)
  | WsOut => Ok (0, set_pos p parser)
  | WsBreak parser p =>
      let p := p + 1 in
      let parser := set_col (col parser + 1) parser in
      if p <? len then
        let* c := rd js p in
        if c =? c_nul then Ok (0, set_pos p parser)
        else match fuel with
             | O => Crash OutOfFuel
             | S fuel => ws_loop fuel parser p
             end
      else Ok (0, set_pos p parser)
  end.

Definition jamn_skip_whitespaces (parser : jsmn_parser)
  : outcome (Z * jsmn_parser) :=
  ws_loop (Z.to_nat (len - pos parser)) parser (pos parser).

End Tokenizer.

(** ** The driver *)

(** The labels of the driver's [switch (c)]. *)
Inductive cclass :=
| COpen       (* '{' '[' *)
| CClose      (* '}' ']' *)
| CQuote      (* the double quote *)
| CSpace      (* CR LF space tab FF VT *)
| CColon
| CComma
| CPrimitive  (* '-' '0'..'9' 't' 'f' 'n' *)
| COther.

Definition classify (c : Z) : cclass :=
  if (c =? c_lbrace) || (c =? c_lbracket) then COpen
  else if (c =? c_rbrace) || (c =? c_rbracket) then CClose
  else if c =? c_dquote then CQuote
  else if (c =? c_cr) || (c =? c_lf) || is_blank c then CSpace
  else if c =? c_colon then CColon
  else if c =? c_comma then CComma
  else if (c =? c_minus) || ((48 <=? c) && (c <=? 57))
          || (c =? 116) || (c =? 102) || (c =? 110) then CPrimitive
  else COther.

(** [token->start != -1 && token->unclosed] *)
Definition is_open (t : jsmntok_t) : bool :=
  negb (start t =? -1) && unclosed t.

(** The test of the comma handler's backward scan. *)
Definition is_open_container (t : jsmntok_t) : bool :=
  (type_eqb (type t) JSMN_ARRAY || type_eqb (type t) JSMN_OBJECT)
  && is_open t.

(** [for (i = n - 1; i >= 0; i--) if (P(tokens[i])) break;] yields the [i]
    it stops at, [-1] when it runs through. *)
Fixpoint find_down (P : jsmntok_t -> bool) (tokens : list jsmntok_t) (n : nat)
  : outcome Z :=
  match n with
  | O => Ok (-1)
  | S n' =>
      let* t := load tokens (Z.of_nat n') in
      if P t then Ok (Z.of_nat n') else find_down P tokens n'
  end.

(** Sequencing of statements that may return from [jsmn_parse]. *)
Definition fbind (m : outcome flow) (k : state -> outcome flow) : outcome flow :=
  let* fl := m in
  match fl with
  | Continue s => k s
  | Return r s => Ok (Return r s)
  end.

Notation "'let+' x ':=' e 'in' k" := (fbind e (fun x => k))
  (at level 10, x pattern, e at level 200, k at level 200).

Definition incr_size (t : jsmntok_t) : jsmntok_t := set_size (size t + 1) t.

Section Driver.

Variable cfg : config.
Variable js : list Z.
Variable len : Z.
Variable num_tokens : Z.

(** [case '{': case '[':] *)
Definition open_container (c : Z) (s : state) : outcome flow :=
  if negb (JSMN_TESTMODE cfg) && (toknext (fst s) =? 0) && negb (c =? c_lbrace)
  then Ok (Return JSMN_ERROR_UNEXPECTED_CHAR s)
  else
    let* (slot, s) := jsmn_alloc_token cfg num_tokens s in
    match slot with
    | None => Ok (Return JSMN_ERROR_NOMEM s)
    | Some token =>
        let+ s :=
          if negb (toksuper (fst s) =? -1) then
            let* t := load (snd s) (toksuper (fst s)) in
            if type_eqb (type t) JSMN_OBJECT then Ok (Return JSMN_ERROR_INVAL s)
            else
              let* tokens := if type_eqb (type t) JSMN_ARRAY
                             then modify (snd s) (toksuper (fst s)) incr_size
                             else Ok (snd s) in
              let* tokens := if JSMN_PARENT_LINKS cfg
                             then modify tokens token (set_parent (toksuper (fst s)))
                             else Ok tokens in
              Ok (Continue (fst s, tokens))
          else if toknext (fst s) >? 1 then Ok (Return JSMN_ERROR_EXPECTED_EOF s)
          else Ok (Continue s) in
        let ty := if c =? c_lbrace then JSMN_OBJECT else JSMN_ARRAY in
        let* tokens := modify (snd s) token
                         (fun t => set_start (pos (fst s))
                                     (set_unclosed true (set_type ty t))) in
        let parser := set_toksuper (toknext (fst s) - 1) (fst s) in
        Ok (Continue (advance 1 parser, tokens))
    end.

(** The [for (;;)] walk of the closing bracket under [JSMN_PARENT_LINKS],
    with [token == &tokens[i]].  A walk of more than [length tokens] hops
    has come back to a slot it already saw with nothing changed, so it
    goes on for ever. *)
Fixpoint close_walk (fuel : nat) (ty : jsmntype_t) (s : state) (i : Z)
  : outcome flow :=
  let* token := load (snd s) i in
  if is_open token then
    if negb (type_eqb (type token) ty)
    then Ok (Return JSMN_ERROR_UNEXPECTED_CHAR s)
    else
      let* tokens := modify (snd s) i (set_unclosed false) in
      Ok (Continue (set_toksuper (parent token) (fst s), tokens))
  else if parent token =? -1 then
    if negb (type_eqb (type token) ty) || (toksuper (fst s) =? -1)
    then Ok (Return JSMN_ERROR_UNEXPECTED_CHAR s)
    else Ok (Continue s)
  else match fuel with
       | O => Crash ParentCycle
       | S fuel => close_walk fuel ty s (parent token)
       end.

(** [case '}': case ']':] with [JSMN_PARENT_LINKS] defined. *)
Definition close_container_links (ty : jsmntype_t) (s : state) : outcome flow :=
  if toknext (fst s) <? 1 then Ok (Return JSMN_ERROR_INVAL s)
  else
    let* token := load (snd s) (toknext (fst s) - 1) in
    if is_key token then Ok (Return JSMN_ERROR_UNEXPECTED_CHAR s)
    else if JSMN_NO_TRAILING_COMMAS cfg && last_is_comma (fst s)
    then Ok (Return JSMN_ERROR_TRAILING_COMMA s)
    else
      let+ s := close_walk (length (snd s)) ty s (toknext (fst s) - 1) in
      Ok (Continue (advance 1 (fst s), snd s)).

(** [case '}': case ']':] without [JSMN_PARENT_LINKS]: two backward
    scans over the pool. *)
Definition close_container_scan (ty : jsmntype_t) (s : state) : outcome flow :=
  let* token := load (snd s) (toknext (fst s) - 1) in
  if is_key token then Ok (Return JSMN_ERROR_UNEXPECTED_CHAR s)
  else
    let* i := find_down is_open (snd s) (Z.to_nat (toknext (fst s))) in
    if i =? -1 then Ok (Return JSMN_ERROR_UNEXPECTED_CHAR s)
    else
      let* token := load (snd s) i in
      if negb (type_eqb (type token) ty)
      then Ok (Return JSMN_ERROR_UNEXPECTED_CHAR s)
      else
        let parser := set_toksuper (-1) (fst s) in
        let* tokens := modify (snd s) i (set_unclosed false) in
        let* j := find_down is_open tokens (Z.to_nat (i + 1)) in
        let parser := if j =? -1 then parser else set_toksuper j parser in
        Ok (Continue (advance 1 parser, tokens)).

Definition close_container (c : Z) (s : state) : outcome flow :=
  let ty := if c =? c_rbrace then JSMN_OBJECT else JSMN_ARRAY in
  if JSMN_PARENT_LINKS cfg then close_container_links ty s
  else close_container_scan ty s.

(** The bookkeeping after a scanner returned, the same text in the string
    case and in the primitive case: [line0], [col0] and [start0] are the
    values saved at the top of the loop body. *)
Definition attach (line0 col0 start0 : Z) (r : jsmnerr) (s : state)
  : outcome flow :=
  let rewind :=
    let parser := set_pos start0 (set_col col0 (set_line line0 (fst s))) in
    let parser := set_tokbuf (set_type JSMN_UNDEFINED (tokbuf parser)) parser in
    Return JSMN_ERROR_UNEXPECTED_CHAR (parser, snd s) in
  match r with
  | JSMN_SUCCESS | JSMN_ERROR_NOMEM =>
      let+ s :=
        if negb (toksuper (fst s) =? -1) then
          let* t := load (snd s) (toksuper (fst s)) in
          match type t with
          | JSMN_OBJECT | JSMN_ARRAY =>
              let* tokens := modify (snd s) (toksuper (fst s)) incr_size in
              Ok (Continue (fst s, tokens))
          | JSMN_STRING =>
              if is_key t && negb (associated t) then
                let* tokens := modify (snd s) (toksuper (fst s))
                                 (set_associated true) in
                Ok (Continue (fst s, tokens))
              else Ok rewind
          | _ => Ok rewind
          end
        else Ok (Continue s) in
      match r with
      | JSMN_SUCCESS => Ok (Continue s)
      | _ => Ok (Return r s)
      end
  | _ => Ok (Return r s)
  end.

(** [case ':':] *)
Definition colon (s : state) : outcome flow :=
  let* t := load (snd s) (toknext (fst s) - 1) in
  if negb (is_key t) then Ok (Return JSMN_ERROR_UNEXPECTED_CHAR s)
  else
    let parser := set_toksuper (toknext (fst s) - 1) (fst s) in
    Ok (Continue (advance 1 parser, snd s)).

(** [case ',':] *)
Definition comma (s : state) : outcome flow :=
  let* t := load (snd s) (toknext (fst s) - 1) in
  if is_key t || last_is_comma (fst s)
  then Ok (Return JSMN_ERROR_UNEXPECTED_CHAR s)
  else if JSMN_NO_TRAILING_COMMAS cfg
          && (type_val (type t) <=? type_val JSMN_ARRAY)
  then Ok (Return JSMN_ERROR_TRAILING_COMMA s)
  else
    let* parser :=
      if negb (toksuper (fst s) =? -1) then
        let* sup := load (snd s) (toksuper (fst s)) in
        if type_val (type sup) >? type_val JSMN_ARRAY then
          if JSMN_PARENT_LINKS cfg then Ok (set_toksuper (parent sup) (fst s))
          else
            let* i := find_down is_open_container (snd s)
                        (Z.to_nat (toknext (fst s))) in
            Ok (if i =? -1 then fst s else set_toksuper i (fst s))
        else Ok (fst s)
      else Ok (fst s) in
    Ok (Continue (advance 1 parser, snd s)).

(** The primitive case up to the call of the scanner. *)
Definition primitive_allowed (s : state) : outcome bool :=
  if negb (toksuper (fst s) =? -1) then
    let* t := load (snd s) (toksuper (fst s)) in
    Ok (negb (type_eqb (type t) JSMN_OBJECT
              || (type_eqb (type t) JSMN_STRING && negb (is_key t))))
  else Ok true.

(** The [switch (c)] of the loop body. *)
Definition dispatch (c : Z) (s : state) : outcome flow :=
  let line0 := line (fst s) in
  let col0 := col (fst s) in
  let start0 := pos (fst s) in
  match classify c with
  | COpen => open_container c s
  | CClose => close_container c s
  | CQuote =>
      let* (r, s) := jsmn_parse_string cfg js len num_tokens s in
      attach line0 col0 start0 r s
  | CSpace =>
      let* (r, parser) := jamn_skip_whitespaces js len (fst s) in
      if negb (r =? 0) then Ok (Return JSMN_ERROR_BROKEN_NEWLINE (parser, snd s))
      else Ok (Continue (parser, snd s))
  | CColon => colon s
  | CComma => comma s
  | CPrimitive =>
      let* ok := primitive_allowed s in
      if negb ok then Ok (Return JSMN_ERROR_INVAL s)
      else
        let* (r, s) := jsmn_parse_primitive cfg js len num_tokens s in
        attach line0 col0 start0 r s
  | COther => Ok (Return JSMN_ERROR_INVAL s)
  end.

(** One pass through the body of the [for] loop of [jsmn_parse]. *)
Definition driver_step (s : state) : outcome flow :=
  let* c := rd js (pos (fst s)) in
  let+ s := dispatch c s in
  Ok (Continue (set_last_is_comma (c =? c_comma) (fst s), snd s)).

(** [for (; parser->pos < len && js[parser->pos] != 0;)]: [Continue s] is
    the state in which the loop condition fails. *)
Fixpoint driver_loop (fuel : nat) (s : state) : outcome flow :=
  if pos (fst s) <? len then
    let* c := rd js (pos (fst s)) in
    if c =? c_nul then Ok (Continue s)
    else match fuel with
         | O => Crash OutOfFuel
         | S fuel => let+ s := driver_step s in driver_loop fuel s
         end
  else Ok (Continue s).

(** The block before the loop: a token staged in the scratch slot by the
    previous call moves into the pool. *)
Definition resume (s : state) : outcome flow :=
  if negb (type_eqb (type (tokbuf (fst s))) JSMN_UNDEFINED) then
    let* (slot, s) := jsmn_alloc_token cfg num_tokens s in
    match slot with
    | None => Ok (Return JSMN_ERROR_NOMEM s)
    | Some token =>
        let* tokens := modify (snd s) token (fun _ => tokbuf (fst s)) in
        let buf := set_is_key false
                     (set_unclosed false
                        (set_type JSMN_UNDEFINED (tokbuf (fst s)))) in
        let parser := set_tokbuf buf (fst s) in
        let parser := if JSMN_NO_TRAILING_COMMAS cfg
                      then set_last_is_comma false parser
                      else parser in
        Ok (Continue (parser, tokens))
    end
  else Ok (Continue s).

(** The block after the loop: the value [jsmn_parse] returns at the end
    of the input. *)
Definition unclosed_check (s : state) : outcome jsmnerr :=
  let* i := find_down is_open (snd s) (Z.to_nat (toknext (fst s))) in
  if i =? -1 then Ok JSMN_SUCCESS
  else
    let* t := load (snd s) i in
    Ok (if type_eqb (type t) JSMN_OBJECT
        then JSMN_ERROR_UNCLOSED_OBJECT
        else JSMN_ERROR_UNCLOSED_ARRAY).

(** The block before the loop, then the loop: [Continue s] is the end of
    the input reached in state [s]. *)
Definition jsmn_parse_loop (parser : jsmn_parser) (tokens : list jsmntok_t)
  : outcome flow :=
  let+ s := resume (parser, tokens) in
  driver_loop (Z.to_nat (len - pos (fst s))) s.

(** [jsmn_parse]: the value returned and the parser and pool the caller
    is left with. *)
Definition jsmn_parse (parser : jsmn_parser) (tokens : list jsmntok_t)
  : outcome (jsmnerr * state) :=
  let* fl := jsmn_parse_loop parser tokens in
  match fl with
  | Return r s => Ok (r, s)
  | Continue s => let* r := unclosed_check s in Ok (r, s)
  end.

End Driver.

(** [jsmn_init]: the scratch token goes through [jsmn_init_token], which
    under [JSMN_PARENT_LINKS] also sets its parent; [tokbuf0] is the scratch
    token as the caller's memory holds it before. *)
Definition jsmn_init (cfg : config) (tokbuf0 : jsmntok_t) : jsmn_parser :=
  mkParser 0 0 (-1) 1 1 false (jsmn_init_token cfg tokbuf0).

(** ** Predicates used by the statements *)

(** An allocated token marked [unclosed] has its start offset set and is a
    container: what [open_container] writes. *)
Definition good_token (t : jsmntok_t) : Prop :=
  unclosed t = true ->
  start t <> -1 /\ (type t = JSMN_OBJECT \/ type t = JSMN_ARRAY).

(** The states the driver works on: the allocated part [0, toknext) lies
    inside the pool array and holds good tokens, and the scratch token is
    not marked [unclosed].  A state left by [jsmn_init] is one of them. *)
Definition pool_ok (s : state) : Prop :=
  0 <= toknext (fst s) <= Z.of_nat (length (snd s))
  /\ unclosed (tokbuf (fst s)) = false
  /\ forall i t, 0 <= i < toknext (fst s) ->
                 snd s !! Z.to_nat i = Some t -> good_token t.

(** The token a scanner is filling is not marked [unclosed]. *)
Definition target_closed (r : tokref) (s : state) : Prop :=
  match r with
  | Slot i => 0 <= i < toknext (fst s)
              /\ exists t, snd s !! Z.to_nat i = Some t /\ unclosed t = false
  | Tokbuf => True
  end.

(** The condition of the driver's [for] loop holds in [s]. *)
Definition more_input (js : list Z) (len : Z) (s : state) : Prop :=
  pos (fst s) < len /\ exists c, rd js (pos (fst s)) = Ok c /\ c <> 0.

(** [driver_reaches s s']: from [s] the driver loop gets to [s'] by passes
    through its body that do not return. *)
Inductive driver_reaches (cfg : config) (js : list Z) (len num_tokens : Z)
  : state -> state -> Prop :=
| reaches_here s : driver_reaches cfg js len num_tokens s s
| reaches_step s s' s'' :
    more_input js len s ->
    driver_step cfg js len num_tokens s = Ok (Continue s') ->
    driver_reaches cfg js len num_tokens s' s'' ->
    driver_reaches cfg js len num_tokens s s''.

(** [string_reaches p k]: the loop of the string scanner, at offset [p],
    gets to offset [k] without meeting the closing quote or an error. *)
Inductive string_reaches (js : list Z) (len : Z) : Z -> Z -> Prop :=
| sreaches_here p : string_reaches js len p p
| sreaches_step p c p' k :
    p < len -> rd js p = Ok c -> c <> 0 -> c <> c_dquote ->
    string_body js len c p = Ok (Found p') ->
    string_reaches js len p' k ->
    string_reaches js len p k.

(** The [j] bytes from offset [p] on are hex digits. *)
Definition hex_run (js : list Z) (p j : Z) : Prop :=
  forall i, 0 <= i < j -> exists h, rd js (p + i) = Ok h /\ ishexdigit h = true.


(** ** Inputs and pools of the scenarios *)

Definition bytes (s : string) : list Z :=
  map (fun a => Z.of_nat (nat_of_ascii a)) (list_ascii_of_string s).
Arguments bytes s%_string.

(** The text [s] between two double quotes. *)
Definition quoted (s : string) : list Z := c_dquote :: bytes s ++ [c_dquote].
Arguments quoted s%_string.

(** A pool as the caller hands it over, every byte zero. *)
Definition zero_token : jsmntok_t :=
  mkTok JSMN_UNDEFINED 0 0 false false false 0.

Definition pool (n : nat) : list jsmntok_t := replicate n zero_token.

Definition result_of (o : outcome (jsmnerr * state)) : option jsmnerr :=
  match o with
  | Ok (r, _) => Some r
  | Crash _ => None
  end.

(** The tokens handed out so far. *)
Definition produced (s : state) : list jsmntok_t :=
  take (Z.to_nat (toknext (fst s))) (snd s).

(** The fields of a token the spec speaks about. *)
Definition view (t : jsmntok_t) : jsmntype_t * Z * Z * bool * bool :=
  (type t, start t, size t, is_key t, associated t).

Definition state_of (o : outcome flow) (d : state) : state :=
  match o with
  | Ok (Continue s) | Ok (Return _ s) => s
  | Crash _ => d
  end.

(** No switch defined: linear scan, trailing commas let through, the root
    must be an object. *)
Definition default_build : config := mkConfig false false false.

(** [JSMN_TESTMODE] defined: any root. *)
Definition testmode (links commas : bool) : config := mkConfig links commas true.

(** Scenario A of the spec. *)
Definition scenario_A : list Z :=
  bytes "{" ++ quoted "a" ++ bytes ":1," ++ quoted "b" ++ bytes ":[true,false]}".

(** Scenarios B and C. *)
Definition scenario_B : list Z := bytes "[1,2,]".

(** Scenario D, and the same text followed by a space. *)
Definition scenario_D : list Z := bytes "{" ++ quoted "a" ++ bytes ":1".
Definition scenario_D_terminated : list Z := scenario_D ++ bytes " ".

(** An object whose only value is an array of three numbers. *)
Definition nested_array : list Z := bytes "{" ++ quoted "a" ++ bytes ":[1,2,3]}".


Definition root_then_primitive : list Z := bytes "[] 1 ".
Definition root_then_array : list Z := bytes "[] []".
Definition root_then_string : list Z := bytes "[] " ++ quoted "a".
Definition object_then_primitive : list Z := bytes "{} 1 ".

(** A string cut by a NUL right after a backslash. *)
Definition backslash_nul : list Z := [c_dquote; c_backslash; c_nul].




(** The state in which the driver leaves its loop on [scenario_D_terminated]. *)
Definition at_end_D : state :=
  Eval vm_compute in
    state_of (jsmn_parse_loop default_build scenario_D_terminated 7 3
                (jsmn_init default_build zero_token) (pool 3))
             (jsmn_init default_build zero_token, []).

(** ** Predicates and inputs of the further properties *)

(** The state a pass through the loop body, or a call, leaves behind. *)
Definition flow_state (fl : flow) : state :=
  match fl with
  | Continue s | Return _ s => s
  end.

(** What the byte range of a token says about the input: a String token
    lies between two double quotes, with the scanner's loop going from the
    first byte of the text to the closing quote; a Primitive token is a
    non-empty run of bytes that are neither NUL nor terminators and is
    followed by a terminator. *)
Definition span_ok (js : list Z) (len : Z) (t : jsmntok_t) : Prop :=
  match type t with
  | JSMN_STRING =>
      1 <= start t /\ 0 <= size t /\ start t + size t < len
      /\ rd js (start t - 1) = Ok c_dquote
      /\ rd js (start t + size t) = Ok c_dquote
      /\ string_reaches js len (start t) (start t + size t)
  | JSMN_PRIMITIVE =>
      0 <= start t /\ 0 < size t /\ start t + size t < len
      /\ (exists c, rd js (start t + size t) = Ok c /\ is_terminator c = true)
      /\ forall i, start t <= i < start t + size t ->
           exists c, rd js i = Ok c /\ c <> 0 /\ is_terminator c = false
  | _ => True
  end.

(** Every allocated token, and the scratch token, has a good byte range. *)
Definition spans_ok (js : list Z) (len : Z) (s : state) : Prop :=
  span_ok js len (tokbuf (fst s))
  /\ forall i t, 0 <= i < toknext (fst s) ->
                 snd s !! Z.to_nat i = Some t -> span_ok js len t.

(** What a piece of the tokenizer may do to the state: it keeps the two
    invariants, hands out slots in order and only below the capacity, and
    leaves the pool array at its length. *)
Definition effect (js : list Z) (len num_tokens : Z) (s s' : state) : Prop :=
  (pool_ok s -> pool_ok s')
  /\ (spans_ok js len s -> spans_ok js len s')
  /\ toknext (fst s) <= toknext (fst s')
  /\ toknext (fst s') <= Z.max (toknext (fst s)) num_tokens
  /\ length (snd s') = length (snd s).

(** The states of one scan: the parser is initialized once and then
    handed to [jsmn_parse] again and again, over the same input, with a
    pool that the caller may have grown at its end. *)
Inductive in_session (cfg : config) (js : list Z) (len : Z) : state -> Prop :=
| session_init tokbuf0 tokens :
    in_session cfg js len (jsmn_init cfg tokbuf0, tokens)
| session_call parser tokens more num_tokens r s' :
    in_session cfg js len (parser, tokens) ->
    jsmn_parse cfg js len num_tokens parser (tokens ++ more) = Ok (r, s') ->
    in_session cfg js len s'.

(** The state left by the first call on [nested_array] with a pool of 4,
    which returns NoMemory. *)
Definition after_nomem : state :=
  Eval vm_compute in
    match jsmn_parse default_build nested_array 13 4
            (jsmn_init default_build zero_token) (pool 4) with
    | Ok (_, s) => s
    | Crash _ => (jsmn_init default_build zero_token, [])
    end.

(** The hex digits, as bytes. *)
Definition is_hex_byte (c : Z) : bool :=
  ((48 <=? c) && (c <=? 57)) || ((65 <=? c) && (c <=? 70))
  || ((97 <=? c) && (c <=? 102)).

(** The bytes of the input from [p] up to the declared length are blanks. *)
Definition blank_from (js : list Z) (len p : Z) : Prop :=
  forall i, p <= i < len -> exists c, rd js i = Ok c /\ is_blank c = true.


(** Line, column and cursor of [p'] against [p]: same line, column and
    cursor moved by the same amount. *)
Definition moved_along (p p' : jsmn_parser) : Prop :=
  line p' = line p /\ col p' - col p = pos p' - pos p.


(** A string cut, with the buffer, after two digits of a unicode escape. *)
Definition cut_escape : list Z := [c_dquote; c_backslash; 117; 49; 50].


(** The state after the opening bracket of an object. *)
Definition after_brace : state :=
  Eval vm_compute in
    state_of (driver_step default_build (bytes "{}") 2 1
                (jsmn_init default_build zero_token, pool 1))
             (jsmn_init default_build zero_token, []).

(** [within T Q o]: the run [o] ends in a value that satisfies [Q] or in
    a fault that satisfies [T]. *)
Definition within {A : Type} (T : fault -> Prop) (Q : A -> Prop)
  (o : outcome A) : Prop :=
  match o with
  | Ok a => Q a
  | Crash e => T e
  end.

(** An access outside the pool array of [L] slots that a call can make:
    [tokens[-1]], or a slot that the capacity [num_tokens] promises and
    the array does not have. *)
Definition pool_fault (num_tokens : Z) (L : nat) (e : fault) : Prop :=
  e = BadTokenIndex (-1)
  \/ exists i, e = BadTokenIndex i /\ Z.of_nat L <= i < num_tokens.

(** A read past the end of the buffer that a call can make: at most three
    bytes beyond offset [len], and beyond [len] only after a hex digit at
    [len]. *)
Definition byte_fault (js : list Z) (len : Z) (e : fault) : Prop :=
  exists p, e = BadByteIndex p /\ Z.of_nat (length js) <= p <= len + 3
            /\ (len < p -> exists h, rd js len = Ok h /\ ishexdigit h = true).

(** The faults the proofs below let through. *)
Definition tolerated (js : list Z) (len num_tokens : Z) (L : nat) (e : fault)
  : Prop :=
  pool_fault num_tokens L e \/ byte_fault js len e \/ e = OutOfFuel.

(** The index fields of the parser and the parent links point below the
    slot they belong to. *)
Definition links_ok (cfg : config) (s : state) : Prop :=
  0 <= pos (fst s)
  /\ -1 <= toksuper (fst s) < toknext (fst s)
  /\ toknext (fst s) <= Z.of_nat (length (snd s))
  /\ (JSMN_PARENT_LINKS cfg = true ->
      -1 <= parent (tokbuf (fst s)) < toknext (fst s)
      /\ forall i t, 0 <= i < toknext (fst s) ->
                     snd s !! Z.to_nat i = Some t -> -1 <= parent t < i).

(** [links_ok] for a pool array of [L] slots. *)
Definition frame_ok (cfg : config) (L : nat) (s : state) : Prop :=
  links_ok cfg s /\ length (snd s) = L.

(** [frame_ok] for the state a pass leaves. *)
Definition flow_ok (cfg : config) (L : nat) (fl : flow) : Prop :=
  frame_ok cfg L (flow_state fl).

(** What a step may change in the parser beside the cursor. *)
Definition same_indices (s s' : state) : Prop :=
  pos (fst s') = pos (fst s) /\ toksuper (fst s') = toksuper (fst s)
  /\ toknext (fst s') = toknext (fst s).


(** A token waits in the scratch slot: what a scanner that found the pool
    full leaves behind. *)
Definition staged (s s' : state) : Prop :=
  (type (tokbuf (fst s')) = JSMN_STRING
   \/ type (tokbuf (fst s')) = JSMN_PRIMITIVE)
  /\ pos (fst s) < pos (fst s').

(** How a pass through the loop body that returns [r] leaves the state
    [s'], against the state [s] it began in: on NoMemory the pool is used
    up and either nothing has changed or a token is staged; on every
    other code the cursor is where it was, and so are line and column
    unless the code is BrokenNewline. *)
Definition return_ok (num_tokens : Z) (s : state) (r : jsmnerr) (s' : state)
  : Prop :=
  (r = JSMN_ERROR_NOMEM /\ num_tokens <= toknext (fst s)
   /\ toknext (fst s') = toknext (fst s) /\ (s' = s \/ staged s s'))
  \/ (r <> JSMN_ERROR_NOMEM /\ pos (fst s') = pos (fst s)
      /\ (r <> JSMN_ERROR_BROKEN_NEWLINE ->
          line (fst s') = line (fst s) /\ col (fst s') = col (fst s))).

(** An object whose value is followed by a second value. *)
Definition stray_value : list Z := bytes "{" ++ quoted "a" ++ bytes ":1 2 ".

(** The state in front of the second value of [stray_value], and the
    state the pass over it returns with. *)
Definition before_stray : state :=
  Eval vm_compute in
    state_of (jsmn_parse_loop default_build stray_value 7 4
                (jsmn_init default_build zero_token) (pool 4))
             (jsmn_init default_build zero_token, []).

Definition after_stray : state :=
  Eval vm_compute in
    state_of (driver_step default_build stray_value 9 4 before_stray)
             (jsmn_init default_build zero_token, []).

(** [i] is the highest index below [n] of a token that satisfies [P]. *)
Definition last_below (P : jsmntok_t -> bool) (tokens : list jsmntok_t)
  (n i : Z) : Prop :=
  0 <= i < n
  /\ (exists t, tokens !! Z.to_nat i = Some t /\ P t = true)
  /\ forall j t, i < j < n -> tokens !! Z.to_nat j = Some t -> P t = false.

(** No token below [n] satisfies [P]. *)
Definition none_below (P : jsmntok_t -> bool) (tokens : list jsmntok_t)
  (n : Z) : Prop :=
  forall j t, 0 <= j < n -> tokens !! Z.to_nat j = Some t -> P t = false.

(** The state after [case '}': case ']':] closed the token at [i] and
    made [k] the superior token. *)
Definition closed_at (i k : Z) (t : jsmntok_t) (s : state) : state :=
  (set_last_is_comma false (advance 1 (set_toksuper k (fst s))),
   <[Z.to_nat i := set_unclosed false t]> (snd s)).

(** The object token of [after_brace]. *)
Definition open_object : jsmntok_t := mkTok JSMN_OBJECT 0 0 true false false 0.

(** Objects and Arrays. *)
Definition is_container (t : jsmntok_t) : bool :=
  type_eqb (type t) JSMN_OBJECT || type_eqb (type t) JSMN_ARRAY.

(** The number of tokens of [l] whose parent link is [i]. *)
Fixpoint children_of (i : Z) (l : list jsmntok_t) : Z :=
  match l with
  | [] => 0
  | t :: l => (if parent t =? i then 1 else 0) + children_of i l
  end.

(** The number of allocated tokens whose parent link is [i]. *)
Definition children (s : state) (i : Z) : Z :=
  children_of i (take (Z.to_nat (toknext (fst s))) (snd s)).

(** One, when a token whose parent link is [i] waits in the scratch slot
    for the next call. *)
Definition staged_for (p : jsmn_parser) (i : Z) : Z :=
  if negb (type_eqb (type (tokbuf p)) JSMN_UNDEFINED) && (parent (tokbuf p) =? i)
  then 1 else 0.

(** The [size] of every allocated container is the number of its
    children, the staged one included; [k] is what the container at [a]
    has counted beyond that in the middle of a pass. *)
Definition sizes_ok (a k : Z) (s : state) : Prop :=
  is_container (tokbuf (fst s)) = false
  /\ forall i t, 0 <= i < toknext (fst s) -> snd s !! Z.to_nat i = Some t ->
       is_container t = true ->
       size t = children s i + staged_for (fst s) i + (if i =? a then k else 0).

(** [s'] differs from [s] in parser fields other than [toknext] and the
    scratch token, and in at most one token, whose type, size and parent
    are the same. *)
Definition quiet (s s' : state) : Prop :=
  toknext (fst s') = toknext (fst s) /\ tokbuf (fst s') = tokbuf (fst s)
  /\ (snd s' = snd s
      \/ exists j t t', snd s !! j = Some t /\ snd s' = <[j := t']> (snd s)
           /\ parent t' = parent t /\ size t' = size t /\ type t' = type t).

(** What a scanner that did not fail leaves: a new child of the superior
    token, in the pool or staged, not yet counted. *)
Definition scanned (s s' : state) : Prop :=
  toksuper (fst s') = toksuper (fst s)
  /\ sizes_ok (toksuper (fst s)) (-1) s'
  /\ (type (tokbuf (fst s')) = JSMN_UNDEFINED
      \/ parent (tokbuf (fst s')) = toksuper (fst s)).

(** The build with parent links. *)
Definition linked_build : config := mkConfig true false false.

(** The state after [nested_array] has been scanned with parent links. *)
Definition after_nested : state :=
  Eval vm_compute in
    match jsmn_parse linked_build nested_array 13 7
            (jsmn_init linked_build zero_token) (pool 7) with
    | Ok (_, s) => s
    | Crash _ => (jsmn_init linked_build zero_token, [])
    end.







(** * Proofs *)

(** ** Reading the definitions backwards *)
(** Inversion of the two binds. *)
Lemma obind_Ok {A B} (m : outcome A) (k : A -> outcome B) b :
  obind m k = Ok b -> exists a, m = Ok a /\ k a = Ok b.
Proof. destruct m; simpl; intros H; [eauto | discriminate]. Qed.

Lemma fbind_Continue m k s' :
  fbind m k = Ok (Continue s') -> exists s, m = Ok (Continue s) /\ k s = Ok (Continue s').
Proof.
  unfold fbind. intros H. apply obind_Ok in H as [fl [Hm Hk]].
  destruct fl; [eauto | discriminate].
Qed.

(** Splits a hypothesis [bind m k = Ok _] into the two runs. *)
Ltac inv_bind H :=
  let a := fresh "x" in
  let Ha := fresh "E" in
  first
    [ apply fbind_Continue in H as [a [Ha H]]
    | apply obind_Ok in H as [a [Ha H]] ].

Lemma rd_Ok js p c : rd js p = Ok c -> 0 <= p /\ js !! Z.to_nat p = Some c.
Proof.
  unfold rd. destruct (Z.ltb_spec p 0); [discriminate|].
  destruct (js !! Z.to_nat p); [|discriminate]. intros [= ->]. auto.
Qed.

Lemma load_Ok tokens i t :
  load tokens i = Ok t -> 0 <= i /\ tokens !! Z.to_nat i = Some t.
Proof.
  unfold load. destruct (Z.ltb_spec i 0); [discriminate|].
  destruct (tokens !! Z.to_nat i); [|discriminate]. intros [= ->]. auto.
Qed.

Lemma modify_Ok tokens i f tokens' :
  modify tokens i f = Ok tokens' ->
  exists t, 0 <= i /\ tokens !! Z.to_nat i = Some t /\ tokens' = <[Z.to_nat i := f t]> tokens.
Proof.
  unfold modify. intros H. inv_bind H. apply load_Ok in E as [? ?].
  injection H as <-. eauto.
Qed.

Section ScannerProgress.
Variable cfg : config.
Variable js : list Z.
Variable len : Z.
Variable num_tokens : Z.

(** The scanning loops only move forward. *)
Lemma primitive_scan_found fuel p p' :
  primitive_scan js len fuel p = Ok (Found p') ->
  p <= p' /\ exists c, rd js p' = Ok c /\ is_terminator c = true.
Proof.
  revert p. induction fuel as [|fuel IH]; intros p; simpl;
    (destruct (p <? len); [|discriminate]);
    (destruct (rd js p) as [c|] eqn:Hc; simpl; [|discriminate]);
    (destruct (c =? 0); [discriminate|]);
    (destruct (is_terminator c) eqn:Ht;
      [intros [= <-]; split; [lia|eauto] |]); [discriminate|].
  intros H. apply IH in H. destruct H as [? ?]. split; [lia|auto].
Qed.

Lemma hex_digits_found n p p' :
  hex_digits js n p = Ok (Found p') -> p <= p'.
Proof.
  revert p. induction n as [|n IH]; intros p; simpl.
  - intros [= <-]. lia.
  - destruct (rd js p) as [c|]; simpl; [|discriminate].
    destruct (c =? 10); [intros [= <-]; lia|].
    destruct (ishexdigit c); simpl; [|discriminate].
    intros H. apply IH in H. lia.
Qed.

Lemma string_body_found c p p' :
  string_body js len c p = Ok (Found p') -> p < p'.
Proof.
  unfold string_body, string_escape.
  destruct ((c =? 92) && (p + 1 <? len)); [|intros [= <-]; lia].
  destruct (rd js (p + 1)) as [e|]; cbn [obind]; [|discriminate].
  destruct (is_simple_escape e); [intros [= <-]; lia|].
  destruct (e =? 117); [|discriminate].
  intros H. apply hex_digits_found in H. lia.
Qed.

Lemma string_scan_found fuel p p' :
  string_scan js len fuel p = Ok (Found p') -> p <= p'.
Proof.
  revert p. induction fuel as [|fuel IH]; intros p; simpl;
    (destruct (p <? len); [|discriminate]);
    (destruct (rd js p) as [c|] eqn:Hc; simpl; [|discriminate]);
    (destruct (c =? 0); [discriminate|]);
    (destruct (c =? 34); [intros [= <-]; lia|]);
    (destruct (string_body js len c p) as [[q|r]|] eqn:Hb; simpl;
      try discriminate).
  intros H. apply IH in H. apply string_body_found in Hb. lia.
Qed.
End ScannerProgress.

(** ** Allocation and the whitespace loop *)
(** What [jsmn_alloc_token] does: nothing when the pool is used up,
    otherwise slot [toknext] is reset and [toknext] goes up by one. *)
Lemma alloc_inv cfg n s slot s' :
  jsmn_alloc_token cfg n s = Ok (slot, s') ->
  (slot = None /\ s' = s /\ n <= toknext (fst s)) \/
  (exists t, slot = Some (toknext (fst s)) /\ 0 <= toknext (fst s) < n
             /\ snd s !! Z.to_nat (toknext (fst s)) = Some t
             /\ s' = (set_toknext (toknext (fst s) + 1) (fst s),
                      <[Z.to_nat (toknext (fst s)) := jsmn_init_token cfg t]> (snd s))).
Proof.
  destruct s as [parser tokens]. unfold jsmn_alloc_token. cbn [fst snd].
  destruct (Z.geb_spec (toknext parser) n) as [Hge|Hlt].
  - intros [= <- <-]. left. auto with lia.
  - intros H. inv_bind H. apply modify_Ok in E as (t & ? & ? & ->).
    injection H as <- <-. right. exists t. auto with lia.
Qed.

Lemma alloc_pos cfg n s slot s' :
  jsmn_alloc_token cfg n s = Ok (slot, s') -> pos (fst s') = pos (fst s).
Proof.
  intros H. apply alloc_inv in H as [(_ & -> & _) | (t & _ & _ & _ & ->)]; reflexivity.
Qed.

Lemma alloc_or_tokbuf_pos cfg n s token res s' :
  alloc_or_tokbuf cfg n s = Ok (token, res, s') -> pos (fst s') = pos (fst s).
Proof.
  unfold alloc_or_tokbuf. intros H. inv_bind H. destruct x as [slot s1].
  apply alloc_pos in E. destruct slot; injection H as <- <- <-; exact E.
Qed.

Lemma modify_ref_pos r f s s' :
  modify_ref r f s = Ok s' -> pos (fst s') = pos (fst s).
Proof.
  destruct r; simpl; intros H.
  - inv_bind H. injection H as <-. reflexivity.
  - injection H as <-. reflexivity.
Qed.

Section WhitespaceProgress.
Variable cfg : config.
Variable js : list Z.
Variable len : Z.
Variable num_tokens : Z.

Lemma ws_switch_break parser p parser' p' :
  ws_switch js parser p = Ok (WsBreak parser' p') -> p <= p'.
Proof.
  unfold ws_switch. intros H. inv_bind H.
  destruct (x =? 13).
  - inv_bind H. destruct (negb (x0 =? 10)); [discriminate|].
    injection H as <- <-. lia.
  - destruct (x =? 10); [injection H as <- <-; lia|].
    destruct (is_blank x); [injection H as <- <-; lia | discriminate].
Qed.

(** On a byte the driver classifies as whitespace the first pass of the
    whitespace loop does not leave through [default]. *)
Lemma ws_switch_space parser p c :
  rd js p = Ok c -> classify c = CSpace ->
  ws_switch js parser p <> Ok WsOut.
Proof.
  intros Hc Hcl. unfold ws_switch. rewrite Hc. cbn [obind].
  unfold classify in Hcl.
  destruct ((c =? 123) || (c =? 91)); [discriminate|].
  destruct ((c =? 125) || (c =? 93)); [discriminate|].
  destruct (c =? 34); [discriminate|].
  destruct (c =? 13) eqn:Hcr.
  - destruct (rd js (p + 1)); cbn [obind]; [|discriminate].
    destruct (negb (a =? 10)); discriminate.
  - destruct (c =? 10) eqn:Hlf; [discriminate|].
    destruct (is_blank c); [discriminate|].
    simpl in Hcl. destruct (c =? 58); [discriminate|].
    destruct (c =? 44); [discriminate|].
    destruct ((c =? 45) || (48 <=? c) && (c <=? 57) || (c =? 116) || (c =? 102) || (c =? 110));
      discriminate.
Qed.

Lemma ws_loop_ge fuel parser p parser' :
  ws_loop js len fuel parser p = Ok (0, parser') -> p <= pos parser'.
Proof.
  revert parser p. induction fuel as [|fuel IH]; intros parser p; simpl;
    (destruct (ws_switch js parser p) as [[parser1 p1| |]|] eqn:Hsw;
     cbn [obind]; try discriminate;
     [apply ws_switch_break in Hsw | intros [= <-]; simpl; lia]);
    (destruct (p1 + 1 <? len); [|intros [= <-]; simpl; lia]);
    (destruct (rd js (p1 + 1)) as [c|]; cbn [obind]; [|discriminate]);
    (destruct (c =? 0); [intros [= <-]; simpl; lia|]); [discriminate|].
  intros H. apply IH in H. lia.
Qed.

Lemma ws_loop_gt fuel parser p c parser' :
  rd js p = Ok c -> classify c = CSpace ->
  ws_loop js len fuel parser p = Ok (0, parser') -> p < pos parser'.
Proof.
  intros Hc Hcl.
  pose proof (ws_switch_space parser p c Hc Hcl) as Hne.
  destruct fuel as [|fuel]; simpl;
    (destruct (ws_switch js parser p) as [[parser1 p1| |]|] eqn:Hsw;
     cbn [obind]; try discriminate; try congruence;
     apply ws_switch_break in Hsw);
    (destruct (p1 + 1 <? len); [|intros [= <-]; simpl; lia]);
    (destruct (rd js (p1 + 1)) as [c1|]; cbn [obind]; [|discriminate]);
    (destruct (c1 =? 0); [intros [= <-]; simpl; lia|]); [discriminate|].
  intros H. apply ws_loop_ge in H. lia.
Qed.

End WhitespaceProgress.

(** ** The pool invariant *)
(** [pool_ok] only looks at [toknext], the scratch token and the pool. *)
Lemma pool_ok_parser p p' toks :
  pool_ok (p, toks) -> toknext p' = toknext p -> tokbuf p' = tokbuf p ->
  pool_ok (p', toks).
Proof. unfold pool_ok. simpl. intros H -> ->. exact H. Qed.

Lemma lookup_insert_Z {A} (l : list A) (i j : Z) x y :
  0 <= i -> 0 <= j ->
  <[Z.to_nat i := x]> l !! Z.to_nat j = Some y ->
  (i = j /\ y = x) \/ (i <> j /\ l !! Z.to_nat j = Some y).
Proof.
  intros Hi Hj H. destruct (Z.eq_dec i j) as [->|Hne].
  - left. split; [reflexivity|].
    assert (Hlt : (Z.to_nat j < length l)%nat).
    { apply lookup_lt_Some in H. rewrite length_insert in H. exact H. }
    rewrite list_lookup_insert_eq in H by exact Hlt. congruence.
  - right. split; [exact Hne|].
    rewrite list_lookup_insert_ne in H by lia. exact H.
Qed.

(** Writes that keep tokens good keep the invariant. *)
Lemma pool_ok_modify p toks i f toks' :
  pool_ok (p, toks) -> (forall t, good_token t -> good_token (f t)) ->
  modify toks i f = Ok toks' -> pool_ok (p, toks').
Proof.
  intros (Hn & Hb & Hg) Hf H. apply modify_Ok in H as (t & ? & Ht & ->).
  simpl in *. split; [|split]; simpl.
  - rewrite length_insert. exact Hn.
  - exact Hb.
  - intros j tj Hj Hl. apply lookup_insert_Z in Hl as [[-> ->] | [_ Hl]]; [| |lia|lia].
    + apply Hf. eapply Hg; eauto.
    + eapply Hg; eauto.
Qed.

Lemma modify_length toks i f toks' :
  modify toks i f = Ok toks' -> length toks' = length toks.
Proof. intros H. apply modify_Ok in H as (t & ? & Ht & ->). apply length_insert. Qed.

Lemma pool_ok_alloc cfg n s slot s' :
  pool_ok s -> jsmn_alloc_token cfg n s = Ok (slot, s') ->
  pool_ok s' /\ toknext (fst s) <= toknext (fst s') /\
  match slot with
  | Some i => i = toknext (fst s) /\ toknext (fst s') = i + 1 /\ target_closed (Slot i) s'
  | None => s' = s
  end.
Proof.
  intros Hok H. pose proof Hok as (Hn & Hb & Hg).
  apply alloc_inv in H as [(-> & -> & _) | (t & -> & Hi & Ht & ->)].
  - split; [exact Hok|split; [lia|reflexivity]].
  - simpl. assert (Hlt : (Z.to_nat (toknext (fst s)) < length (snd s))%nat)
      by (eapply lookup_lt_Some; eauto).
    split; [|split; [lia|split; [reflexivity|split; [reflexivity|]]]].
    + split; [|split]; simpl.
      * rewrite length_insert. lia.
      * exact Hb.
      * intros j tj Hj Hl.
        apply lookup_insert_Z in Hl as [[<- ->] | [Hne Hl]]; [| |lia|lia].
        -- intros Hu. discriminate.
        -- eapply Hg; [|exact Hl]. lia.
    + split; [lia|]. eexists. split; [apply list_lookup_insert_eq; exact Hlt|reflexivity].
Qed.

(** A scanner fills a token that is not unclosed and leaves it so. *)
Lemma pool_ok_modify_ref r f s s' :
  pool_ok s -> target_closed r s -> (forall t, unclosed (f t) = unclosed t) ->
  modify_ref r f s = Ok s' ->
  pool_ok s' /\ target_closed r s' /\ toknext (fst s') = toknext (fst s).
Proof.
  intros (Hn & Hb & Hg) Hr Hf H. destruct r as [i|]; simpl in H.
  - inv_bind H. injection H as <-. apply modify_Ok in E as (t & ? & Ht & ->).
    destruct Hr as (Hi & t0 & Ht0 & Hu). simpl in *.
    assert (t0 = t) as -> by congruence.
    assert (Hlt : (Z.to_nat i < length (snd s))%nat) by (eapply lookup_lt_Some; eauto).
    split; [|split; [|reflexivity]].
    + split; [|split]; simpl.
      * rewrite length_insert. exact Hn.
      * exact Hb.
      * intros j tj Hj Hl.
        apply lookup_insert_Z in Hl as [[<- ->] | [Hne Hl]]; [| |lia|lia].
        -- intros Hu'. rewrite Hf in Hu'. congruence.
        -- eapply Hg; eauto.
    + split; [exact Hi|]. eexists. split; [apply list_lookup_insert_eq; exact Hlt|].
      rewrite Hf. exact Hu.
  - injection H as <-. simpl. split; [|split; [exact I|reflexivity]].
    split; [|split]; simpl; auto. rewrite Hf. exact Hb.
Qed.

Lemma pool_ok_alloc_or_tokbuf cfg n s token res s' :
  pool_ok s -> alloc_or_tokbuf cfg n s = Ok (token, res, s') ->
  pool_ok s' /\ target_closed token s' /\ toknext (fst s) <= toknext (fst s').
Proof.
  intros Hok H. unfold alloc_or_tokbuf in H. inv_bind H. destruct x as [slot s1].
  apply (pool_ok_alloc _ _ _ _ _ Hok) in E as (Hok1 & Hle & Hs).
  destruct slot as [i|]; injection H as <- <- <-.
  - destruct Hs as (_ & _ & Hs). auto.
  - subst s1. split; [exact Hok|split; [exact I|lia]].
Qed.

(** ** The scanners *)
Lemma type_eqb_eq a b : type_eqb a b = true <-> a = b.
Proof. unfold type_eqb. destruct a, b; simpl; split; intros; congruence. Qed.

Section Steps.
Variable cfg : config.
Variable js : list Z.
Variable len : Z.
Variable num_tokens : Z.

(** The error codes the scanning loops can end with. *)
Lemma primitive_scan_failed fuel p r :
  primitive_scan js len fuel p = Ok (Failed r) -> r = JSMN_ERROR_UNEXPECTED_EOF.
Proof.
  revert p. induction fuel as [|fuel IH]; intros p; simpl;
    (destruct (p <? len); [|intros [= <-]; reflexivity]);
    (destruct (rd js p) as [c|]; cbn [obind]; [|discriminate]);
    (destruct (c =? 0); [intros [= <-]; reflexivity|]);
    (destruct (is_terminator c); [discriminate|]); [discriminate|].
  apply IH.
Qed.

Lemma hex_digits_failed n p r :
  hex_digits js n p = Ok (Failed r) -> r = JSMN_ERROR_INVAL.
Proof.
  revert p. induction n as [|n IH]; intros p; simpl; [discriminate|].
  destruct (rd js p) as [c|]; cbn [obind]; [|discriminate].
  destruct (c =? 10); [discriminate|].
  destruct (negb (ishexdigit c)); [intros [= <-]; reflexivity|]. apply IH.
Qed.

Lemma string_body_failed c p r :
  string_body js len c p = Ok (Failed r) -> r = JSMN_ERROR_INVAL.
Proof.
  unfold string_body, string_escape.
  destruct ((c =? 92) && (p + 1 <? len)); [|discriminate].
  destruct (rd js (p + 1)) as [e|]; cbn [obind]; [|discriminate].
  destruct (is_simple_escape e); [discriminate|].
  destruct (e =? 117); [apply hex_digits_failed|intros [= <-]; reflexivity].
Qed.

Lemma string_scan_failed fuel p r :
  string_scan js len fuel p = Ok (Failed r) ->
  r = JSMN_ERROR_INVAL \/ r = JSMN_ERROR_UNCLOSED_STRING.
Proof.
  revert p. induction fuel as [|fuel IH]; intros p; simpl;
    (destruct (p <? len); [|intros [= <-]; auto]);
    (destruct (rd js p) as [c|]; cbn [obind]; [|discriminate]);
    (destruct (c =? 0); [intros [= <-]; auto|]);
    (destruct (c =? 34); [discriminate|]);
    (destruct (string_body js len c p) as [[q|r']|] eqn:Hb; cbn [obind];
      try discriminate;
      try (intros [= <-]; left; eapply string_body_failed; exact Hb)).
  apply IH.
Qed.

(** A byte that starts a primitive is neither NUL nor a terminator. *)
Lemma classify_primitive c :
  classify c = CPrimitive -> (c =? 0) = false /\ is_terminator c = false.
Proof.
  unfold classify, is_terminator, is_blank. intros H.
  destruct (Z.eqb_spec c 123); [discriminate|].
  destruct (Z.eqb_spec c 91); [discriminate|].
  destruct (Z.eqb_spec c 125); [discriminate|].
  destruct (Z.eqb_spec c 93); [discriminate|].
  destruct (Z.eqb_spec c 34); [discriminate|].
  destruct (Z.eqb_spec c 13); [discriminate|].
  destruct (Z.eqb_spec c 10); [discriminate|].
  destruct (Z.eqb_spec c 32); [discriminate|].
  destruct (Z.eqb_spec c 9); [discriminate|].
  destruct (Z.eqb_spec c 11); [discriminate|].
  destruct (Z.eqb_spec c 12); [discriminate|].
  destruct (Z.eqb_spec c 58); [discriminate|].
  destruct (Z.eqb_spec c 44); [discriminate|].
  simpl in *.
  destruct (Z.eqb_spec c 0); [subst; discriminate|]. auto.
Qed.

(** A scanner that took a token, in the pool or in the scratch slot, has
    moved the cursor forward and kept the invariant. *)
Lemma jsmn_parse_primitive_spec s r s' c :
  rd js (pos (fst s)) = Ok c -> classify c = CPrimitive ->
  jsmn_parse_primitive cfg js len num_tokens s = Ok (r, s') ->
  (r = JSMN_ERROR_UNEXPECTED_EOF) \/
  ((r = JSMN_SUCCESS \/ r = JSMN_ERROR_NOMEM) /\ pos (fst s) < pos (fst s')
   /\ (pool_ok s -> pool_ok s')).
Proof.
  intros Hc Hcl H. unfold jsmn_parse_primitive in H. inv_bind H.
  destruct x as [p|r0].
  2:{ injection H as <- <-. left. eapply primitive_scan_failed; eauto. }
  right. inv_bind H. destruct x as [[token res] s1].
  inv_bind H.
  assert (Hp : pos (fst s) < p).
  { apply classify_primitive in Hcl as [Hz Ht].
    destruct (Z.to_nat (len - pos (fst s))) as [|fuel]; simpl in E;
      (destruct (pos (fst s) <? len); [|discriminate]);
      rewrite Hc in E; cbn [obind] in E; rewrite Hz, Ht in E; [discriminate|].
    apply primitive_scan_found in E. lia. }
  assert (Hres : res = JSMN_SUCCESS \/ res = JSMN_ERROR_NOMEM).
  { unfold alloc_or_tokbuf in E0. apply obind_Ok in E0 as [[slot s2] [_ E0]].
    destruct slot; injection E0 as _ <- _; auto. }
  pose proof (alloc_or_tokbuf_pos _ _ _ _ _ _ E0) as Hp1. simpl in Hp1.
  pose proof (modify_ref_pos _ _ _ _ E1) as Hp2.
  assert (Hp3 : pos (fst s') = pos (fst x) /\ r = res
                /\ (pool_ok x -> target_closed token x -> pool_ok s')).
  { destruct (JSMN_PARENT_LINKS cfg).
    - inv_bind H. injection H as <- <-.
      split; [exact (modify_ref_pos _ _ _ _ E2)|split; [reflexivity|]].
      intros Hok Ht.
      pose proof (fun Hf => pool_ok_modify_ref _ _ _ _ Hok Ht Hf E2) as Hm.
      specialize (Hm (fun _ => eq_refl)) as (? & _). assumption.
    - injection H as <- <-. auto. }
  destruct Hp3 as (Hp3 & -> & Hok3).
  split; [exact Hres|split; [lia|]].
  intros Hok.
  assert (Hok0 : pool_ok (set_col (col (set_pos p (fst s)) + (pos (set_pos p (fst s)) - pos (fst s)))
                   (set_pos p (fst s)), snd s)).
  { destruct s as [ps ts]. eapply pool_ok_parser; [exact Hok| |]; reflexivity. }
  apply (pool_ok_alloc_or_tokbuf _ _ _ _ _ _ Hok0) in E0 as (Hok1 & Ht1 & _).
  pose proof (fun Hf => pool_ok_modify_ref _ _ _ _ Hok1 Ht1 Hf E1) as Hm.
  specialize (Hm (fun _ => eq_refl)) as (Hok2 & Ht2 & _). auto.
Qed.

Lemma jsmn_parse_string_spec s r s' :
  jsmn_parse_string cfg js len num_tokens s = Ok (r, s') ->
  (r = JSMN_ERROR_INVAL \/ r = JSMN_ERROR_UNCLOSED_STRING) \/
  ((r = JSMN_SUCCESS \/ r = JSMN_ERROR_NOMEM) /\ pos (fst s) < pos (fst s')
   /\ (pool_ok s -> pool_ok s')).
Proof.
  intros H. unfold jsmn_parse_string in H. inv_bind H.
  destruct x as [p|r0].
  2:{ injection H as <- <-. left. eapply string_scan_failed; eauto. }
  right. apply string_scan_found in E.
  inv_bind H. destruct x as [[token res] s1].
  assert (Hres : res = JSMN_SUCCESS \/ res = JSMN_ERROR_NOMEM).
  { unfold alloc_or_tokbuf in E0. apply obind_Ok in E0 as [[slot s2] [_ E0]].
    destruct slot; injection E0 as _ <- _; auto. }
  inv_bind H. cbn [fst snd] in *.
  set (s3 := (set_col (col (set_pos (pos (fst x) + 1) (fst x)) + (p - pos (fst s) + 1))
                (set_pos (pos (fst x) + 1) (fst x)), snd x)) in *.
  pose proof (modify_ref_pos _ _ _ _ E1) as Hp2. cbn [fst snd set_pos pos] in Hp2.
  assert (Hs3 : pos (fst s3) = p + 1) by (subst s3; simpl; lia).
  assert (Hok3 : pool_ok s -> pool_ok s3 /\ target_closed token s3).
  { intros Hok.
    apply (pool_ok_alloc_or_tokbuf _ _ _ _ _ _ Hok) in E0 as (Hok1 & Ht1 & _).
    assert (Hok1' : pool_ok (set_pos p (fst s1), snd s1)).
    { destruct s1. eapply pool_ok_parser; [exact Hok1| |]; reflexivity. }
    assert (Ht1' : target_closed token (set_pos p (fst s1), snd s1)).
    { destruct token; [exact Ht1|exact I]. }
    pose proof (fun Hf => pool_ok_modify_ref _ _ _ _ Hok1' Ht1' Hf E1) as Hm.
    specialize (Hm (fun _ => eq_refl)) as (Hok2 & Ht2 & _).
    split.
    - subst s3. destruct x. eapply pool_ok_parser; [exact Hok2| |]; reflexivity.
    - subst s3. destruct token; [exact Ht2|exact I]. }
  clearbody s3.
  assert (Hs4 : exists s4, pos (fst s4) = p + 1
                 /\ (pool_ok s -> pool_ok s4 /\ target_closed token s4)
                 /\ (let* t := load (snd s4) (toksuper (fst s4)) in
                     let* s := (if type_eqb (type t) JSMN_OBJECT
                                 then modify_ref token (set_is_key true) s4
                                 else Ok s4) in Ok (res, s)) = Ok (r, s')).
  { destruct (JSMN_PARENT_LINKS cfg).
    - inv_bind H. exists x0. split; [rewrite (modify_ref_pos _ _ _ _ E2); exact Hs3|].
      split; [|exact H]. intros Hok. destruct (Hok3 Hok) as [Hok4 Ht4].
      pose proof (fun Hf => pool_ok_modify_ref _ _ _ _ Hok4 Ht4 Hf E2) as Hm.
      specialize (Hm (fun _ => eq_refl)) as (? & ? & _). auto.
    - exists s3. cbn [obind] in H. auto. }
  destruct Hs4 as (s4 & Hp4 & Hok4 & H4).
  inv_bind H4. inv_bind H4. injection H4 as <- <-.
  split; [exact Hres|].
  destruct (type_eqb (type x0) JSMN_OBJECT).
  - split; [rewrite (modify_ref_pos _ _ _ _ E3); lia|].
    intros Hok. destruct (Hok4 Hok) as [Hok5 Ht5].
    pose proof (fun Hf => pool_ok_modify_ref _ _ _ _ Hok5 Ht5 Hf E3) as Hm.
    specialize (Hm (fun _ => eq_refl)) as (? & ? & _). auto.
  - injection E3 as <-. split; [lia|]. intros Hok. apply Hok4. exact Hok.
Qed.

End Steps.

(** ** The handlers of the driver *)
Lemma good_incr_size t : good_token t -> good_token (incr_size t).
Proof. exact (fun H => H). Qed.

Lemma good_set_associated v t : good_token t -> good_token (set_associated v t).
Proof. exact (fun H => H). Qed.

Lemma good_set_parent v t : good_token t -> good_token (set_parent v t).
Proof. exact (fun H => H). Qed.

Lemma good_close t : good_token t -> good_token (set_unclosed false t).
Proof. intros _ H. discriminate. Qed.

Lemma good_open p c t :
  0 <= p ->
  good_token (set_start p (set_unclosed true
                (set_type (if c =? 123 then JSMN_OBJECT else JSMN_ARRAY) t))).
Proof.
  intros Hp _. simpl. split; [lia|]. destruct (c =? 123); auto.
Qed.

Lemma modify_keeps p toks i f toks' :
  (forall t, good_token t -> good_token (f t)) ->
  modify toks i f = Ok toks' -> pool_ok (p, toks) -> pool_ok (p, toks').
Proof. intros Hf H Hok. eapply pool_ok_modify; eauto. Qed.

Section Handlers.
Variable cfg : config.
Variable js : list Z.
Variable len : Z.
Variable num_tokens : Z.

(** Each handler that lets the loop go on has moved the cursor forward and
    kept the invariant. *)
Lemma attach_spec line0 col0 start0 r s s' :
  attach line0 col0 start0 r s = Ok (Continue s') ->
  r = JSMN_SUCCESS /\ pos (fst s') = pos (fst s) /\ (pool_ok s -> pool_ok s').
Proof.
  unfold attach. intros H.
  destruct r; try discriminate; inv_bind H; [|discriminate].
  injection H as <-. split; [reflexivity|].
  destruct s as [p toks]. cbn [fst snd] in *.
  destruct (negb (toksuper p =? -1)); [|injection E as <-; auto].
  inv_bind E.
  destruct (type x0); try discriminate.
  - inv_bind E. injection E as <-. split; [reflexivity|].
    eapply modify_keeps; eauto using good_incr_size.
  - inv_bind E. injection E as <-. split; [reflexivity|].
    eapply modify_keeps; eauto using good_incr_size.
  - destruct (is_key x0 && negb (associated x0)); [|discriminate].
    inv_bind E. injection E as <-. split; [reflexivity|].
    eapply modify_keeps; eauto using good_set_associated.
Qed.

Lemma open_container_spec c s s' :
  0 <= pos (fst s) ->
  open_container cfg num_tokens c s = Ok (Continue s') ->
  pos (fst s') = pos (fst s) + 1 /\ (pool_ok s -> pool_ok s').
Proof.
  intros Hpos H. unfold open_container in H.
  destruct (negb (JSMN_TESTMODE cfg) && (toknext (fst s) =? 0) && negb (c =? 123));
    [discriminate|].
  inv_bind H. destruct x as [slot s1].
  destruct slot as [token|]; [|discriminate].
  pose proof (alloc_pos _ _ _ _ _ E) as Hp1.
  inv_bind H. inv_bind H. injection H as <-.
  assert (Hx : pos (fst x) = pos (fst s1) /\ (pool_ok s1 -> pool_ok x)).
  { destruct s1 as [p1 toks1]. cbn [fst snd] in *.
    destruct (negb (toksuper p1 =? -1)).
    - inv_bind E0. destruct (type_eqb (type x1) JSMN_OBJECT); [discriminate|].
      inv_bind E0. inv_bind E0. injection E0 as <-. split; [reflexivity|].
      intros Hok.
      assert (Hok2 : pool_ok (p1, x2)).
      { destruct (type_eqb (type x1) JSMN_ARRAY).
        - eapply modify_keeps; eauto using good_incr_size.
        - injection E3 as <-. exact Hok. }
      destruct (JSMN_PARENT_LINKS cfg).
      + eapply modify_keeps; eauto using good_set_parent.
      + injection E4 as <-. exact Hok2.
    - destruct (toknext p1 >? 1); [discriminate|]. injection E0 as <-. auto. }
  destruct Hx as [Hpx Hokx]. split; [simpl; lia|].
  intros Hok. apply (pool_ok_alloc _ _ _ _ _ Hok) in E as (Hok1 & _ & _).
  specialize (Hokx Hok1). destruct x as [px toksx]. cbn [fst snd] in *.
  eapply pool_ok_parser with (p := px); [|reflexivity|reflexivity].
  eapply modify_keeps; [|exact E1|exact Hokx].
  intros t _. apply good_open. lia.
Qed.

Lemma close_walk_spec fuel ty s i s' :
  close_walk fuel ty s i = Ok (Continue s') ->
  pos (fst s') = pos (fst s) /\ (pool_ok s -> pool_ok s').
Proof.
  revert i. induction fuel as [|fuel IH]; intros i H; simpl in H;
    inv_bind H;
    (destruct (is_open x);
     [destruct (negb (type_eqb (type x) ty)); [discriminate|];
      inv_bind H; injection H as <-; split; [reflexivity|];
      intros Hok; destruct s as [p toks];
      eapply pool_ok_parser with (p := p); [|reflexivity|reflexivity];
      eapply modify_keeps; eauto using good_close
     |]);
    (destruct (parent x =? -1);
     [destruct (negb (type_eqb (type x) ty) || (toksuper (fst s) =? -1));
      [discriminate|]; injection H as <-; auto|]);
    [discriminate|].
  eapply IH; eauto.
Qed.

Lemma close_container_spec c s s' :
  close_container cfg c s = Ok (Continue s') ->
  pos (fst s') = pos (fst s) + 1 /\ (pool_ok s -> pool_ok s').
Proof.
  unfold close_container, close_container_links, close_container_scan.
  intros H. destruct (JSMN_PARENT_LINKS cfg).
  - destruct (toknext (fst s) <? 1); [discriminate|].
    inv_bind H. destruct (is_key x); [discriminate|].
    destruct (JSMN_NO_TRAILING_COMMAS cfg && last_is_comma (fst s)); [discriminate|].
    inv_bind H. injection H as <-. apply close_walk_spec in E0 as [Hp Hok].
    split; [simpl; lia|]. intros Hs. specialize (Hok Hs).
    destruct x0 as [p0 toks0]. eapply pool_ok_parser; [exact Hok| |]; reflexivity.
  - inv_bind H. destruct (is_key x); [discriminate|].
    inv_bind H. destruct (x0 =? -1); [discriminate|].
    inv_bind H. destruct (negb (type_eqb (type x1) _)); [discriminate|].
    inv_bind H. inv_bind H. injection H as <-.
    split; [destruct (x3 =? -1); simpl; lia|].
    intros Hs. destruct s as [p toks]. cbn [fst snd] in *.
    eapply pool_ok_parser with (p := p);
      [|destruct (x3 =? -1); reflexivity|destruct (x3 =? -1); reflexivity].
    eapply modify_keeps; eauto using good_close.
Qed.

Lemma colon_spec s s' :
  colon s = Ok (Continue s') ->
  pos (fst s') = pos (fst s) + 1 /\ (pool_ok s -> pool_ok s').
Proof.
  unfold colon. intros H. inv_bind H.
  destruct (negb (is_key x)); [discriminate|]. injection H as <-.
  split; [reflexivity|]. intros Hs. destruct s as [p toks].
  eapply pool_ok_parser; [exact Hs| |]; reflexivity.
Qed.

Lemma comma_spec s s' :
  comma cfg s = Ok (Continue s') ->
  pos (fst s') = pos (fst s) + 1 /\ (pool_ok s -> pool_ok s').
Proof.
  unfold comma. intros H. inv_bind H.
  destruct (is_key x || last_is_comma (fst s)); [discriminate|].
  destruct (JSMN_NO_TRAILING_COMMAS cfg && _); [discriminate|].
  inv_bind H. injection H as <-.
  assert (Hx : pos x0 = pos (fst s) /\ toknext x0 = toknext (fst s)
               /\ tokbuf x0 = tokbuf (fst s)).
  { destruct (negb (toksuper (fst s) =? -1)); [|injection E0 as <-; auto].
    inv_bind E0.
    destruct (type_val (type x1) >? type_val JSMN_ARRAY); [|injection E0 as <-; auto].
    destruct (JSMN_PARENT_LINKS cfg); [injection E0 as <-; auto|].
    inv_bind E0. injection E0 as <-. destruct (x2 =? -1); auto. }
  destruct Hx as (Hp & Hn & Hb).
  split; [simpl; lia|]. intros Hs. destruct s as [p toks].
  eapply pool_ok_parser; [exact Hs|exact Hn|exact Hb].
Qed.

Lemma ws_switch_fields parser p parser' p' :
  ws_switch js parser p = Ok (WsBreak parser' p') ->
  toknext parser' = toknext parser /\ tokbuf parser' = tokbuf parser.
Proof.
  unfold ws_switch. intros H. inv_bind H.
  destruct (x =? 13).
  - inv_bind H. destruct (negb (x0 =? 10)); [discriminate|].
    injection H as <- <-. auto.
  - destruct (x =? 10); [injection H as <- <-; auto|].
    destruct (is_blank x); [injection H as <- <-; auto | discriminate].
Qed.

Lemma ws_loop_fields fuel parser p r parser' :
  ws_loop js len fuel parser p = Ok (r, parser') ->
  toknext parser' = toknext parser /\ tokbuf parser' = tokbuf parser.
Proof.
  revert parser p. induction fuel as [|fuel IH]; intros parser p; simpl;
    (destruct (ws_switch js parser p) as [[parser1 p1| |]|] eqn:Hsw;
     cbn [obind]; try discriminate; try (intros [= <- <-]; auto);
     apply ws_switch_fields in Hsw as [Hn Hb]);
    (destruct (p1 + 1 <? len); [|intros [= <- <-]; auto]);
    (destruct (rd js (p1 + 1)) as [c|]; cbn [obind]; [|discriminate]);
    (destruct (c =? 0); [intros [= <- <-]; auto|]); [discriminate|].
  intros H. apply IH in H as [Hn' Hb']. simpl in *. split; congruence.
Qed.

Lemma dispatch_spec c s s' :
  rd js (pos (fst s)) = Ok c ->
  dispatch cfg js len num_tokens c s = Ok (Continue s') ->
  pos (fst s) < pos (fst s') /\ (pool_ok s -> pool_ok s').
Proof.
  intros Hc H. pose proof (rd_Ok _ _ _ Hc) as [Hpos _].
  unfold dispatch in H. destruct (classify c) eqn:Hcl.
  - apply open_container_spec in H as [? ?]; [|exact Hpos]. split; [lia|auto].
  - apply close_container_spec in H as [? ?]. split; [lia|auto].
  - inv_bind H. destruct x as [r s1]. apply attach_spec in H as (-> & Hp & Hok).
    apply jsmn_parse_string_spec in E as [[?|?] | (_ & Hp1 & Hok1)]; try discriminate.
    split; [lia|auto].
  - inv_bind H. destruct x as [r parser].
    destruct (Z.eqb_spec r 0) as [->|]; [|discriminate]. injection H as <-.
    unfold jamn_skip_whitespaces in E.
    split; [eapply ws_loop_gt; eauto|].
    intros Hs. destruct s as [p toks].
    apply ws_loop_fields in E as [Hn Hb].
    eapply pool_ok_parser; [exact Hs|exact Hn|exact Hb].
  - apply colon_spec in H as [? ?]. split; [lia|auto].
  - apply comma_spec in H as [? ?]. split; [lia|auto].
  - inv_bind H. destruct (negb x); [discriminate|].
    inv_bind H. destruct x0 as [r s1]. apply attach_spec in H as (-> & Hp & Hok).
    eapply jsmn_parse_primitive_spec in E0 as [?| (_ & Hp1 & Hok1)]; eauto;
      try discriminate.
    split; [lia|auto].
  - discriminate.
Qed.

(** One pass through the loop body: the cursor moves forward, the invariant
    is kept, and the flag is the test of line 483. *)
Lemma driver_step_spec c s s' :
  rd js (pos (fst s)) = Ok c ->
  driver_step cfg js len num_tokens s = Ok (Continue s') ->
  pos (fst s) < pos (fst s') /\ (pool_ok s -> pool_ok s')
  /\ last_is_comma (fst s') = (c =? 44).
Proof.
  intros Hc H. unfold driver_step in H. rewrite Hc in H. cbn [obind] in H.
  inv_bind H. injection H as <-.
  apply (dispatch_spec _ _ _ Hc) in E as [Hp Hok].
  split; [exact Hp|split; [|reflexivity]].
  intros Hs. specialize (Hok Hs). destruct x as [p toks].
  eapply pool_ok_parser; [exact Hok| |]; reflexivity.
Qed.
End Handlers.

(** ** The loops *)
Section Loops.
Variable cfg : config.
Variable js : list Z.
Variable len : Z.
Variable num_tokens : Z.

Lemma string_scan_unfold fuel p :
  string_scan js len fuel p =
  if p <? len then
    let* c := rd js p in
    if c =? 0 then Ok (Failed JSMN_ERROR_UNCLOSED_STRING)
    else if c =? 34 then Ok (Found p)
    else
      let* nxt := string_body js len c p in
      match nxt with
      | Failed r => Ok (Failed r)
      | Found p' =>
          match fuel with
          | O => Crash OutOfFuel
          | S fuel => string_scan js len fuel p'
          end
      end
  else Ok (Failed JSMN_ERROR_UNCLOSED_STRING).
Proof. destruct fuel; reflexivity. Qed.

(** Any fuel that covers the rest of the declared length gives the same
    run. *)
Lemma string_scan_fuel fuel1 fuel2 p :
  len - p <= Z.of_nat fuel1 -> len - p <= Z.of_nat fuel2 ->
  string_scan js len fuel1 p = string_scan js len fuel2 p.
Proof.
  revert fuel2 p. induction fuel1 as [|fuel1 IH]; intros fuel2 p H1 H2;
    rewrite (string_scan_unfold _ p), (string_scan_unfold fuel2 p);
    (destruct (Z.ltb_spec p len); [|reflexivity]); [lia|].
  destruct (rd js p) as [c|]; cbn [obind]; [|reflexivity].
  destruct (c =? 0); [reflexivity|]. destruct (c =? 34); [reflexivity|].
  destruct (string_body js len c p) as [[p'|r]|] eqn:Hb; cbn [obind]; try reflexivity.
  apply string_body_found in Hb.
  destruct fuel2 as [|fuel2]; [lia|]. apply IH; lia.
Qed.

Lemma string_scan_reaches p k :
  string_reaches js len p k ->
  string_scan js len (Z.to_nat (len - p)) p = string_scan js len (Z.to_nat (len - k)) k.
Proof.
  induction 1 as [p | p c p' k Hp Hc Hz Hq Hb _ IH]; [reflexivity|].
  rewrite string_scan_unfold.
  destruct (Z.ltb_spec p len); [|lia].
  rewrite Hc. cbn [obind].
  destruct (Z.eqb_spec c 0); [contradiction|].
  destruct (Z.eqb_spec c 34); [contradiction|].
  rewrite Hb. cbn [obind]. pose proof (string_body_found _ _ _ _ _ Hb).
  destruct (Z.to_nat (len - p)) as [|fuel] eqn:Hf; [lia|].
  rewrite <- IH. apply string_scan_fuel; lia.
Qed.

Lemma driver_loop_unfold fuel s :
  driver_loop cfg js len num_tokens fuel s =
  if pos (fst s) <? len then
    let* c := rd js (pos (fst s)) in
    if c =? 0 then Ok (Continue s)
    else match fuel with
         | O => Crash OutOfFuel
         | S fuel =>
             let+ s := driver_step cfg js len num_tokens s in
             driver_loop cfg js len num_tokens fuel s
         end
  else Ok (Continue s).
Proof. destruct fuel; reflexivity. Qed.

Lemma driver_loop_fuel fuel1 fuel2 s :
  len - pos (fst s) <= Z.of_nat fuel1 -> len - pos (fst s) <= Z.of_nat fuel2 ->
  driver_loop cfg js len num_tokens fuel1 s = driver_loop cfg js len num_tokens fuel2 s.
Proof.
  revert fuel2 s. induction fuel1 as [|fuel1 IH]; intros fuel2 s H1 H2;
    rewrite (driver_loop_unfold _ s), (driver_loop_unfold fuel2 s);
    (destruct (Z.ltb_spec (pos (fst s)) len); [|reflexivity]); [lia|].
  destruct (rd js (pos (fst s))) as [c|] eqn:Hc; cbn [obind]; [|reflexivity].
  destruct (c =? 0); [reflexivity|].
  destruct fuel2 as [|fuel2]; [lia|].
  unfold fbind.
  destruct (driver_step cfg js len num_tokens s) as [[s'|r s']|] eqn:Hs;
    cbn [obind]; try reflexivity.
  apply (driver_step_spec _ _ _ _ _ _ _ Hc) in Hs as [Hp _].
  apply IH; lia.
Qed.

Lemma driver_loop_reaches s s' :
  driver_reaches cfg js len num_tokens s s' ->
  driver_loop cfg js len num_tokens (Z.to_nat (len - pos (fst s))) s =
  driver_loop cfg js len num_tokens (Z.to_nat (len - pos (fst s'))) s'.
Proof.
  induction 1 as [s | s s' s'' [Hlt (c & Hc & Hz)] Hs _ IH]; [reflexivity|].
  rewrite driver_loop_unfold.
  destruct (Z.ltb_spec (pos (fst s)) len); [|lia].
  rewrite Hc. cbn [obind]. destruct (Z.eqb_spec c 0); [contradiction|].
  destruct (Z.to_nat (len - pos (fst s))) as [|fuel] eqn:Hf; [lia|].
  rewrite Hs. unfold fbind. cbn [obind].
  apply (driver_step_spec _ _ _ _ _ _ _ Hc) in Hs as [Hp _].
  rewrite <- IH. apply driver_loop_fuel; lia.
Qed.

Lemma driver_loop_returns s r s' :
  more_input js len s ->
  driver_step cfg js len num_tokens s = Ok (Return r s') ->
  driver_loop cfg js len num_tokens (Z.to_nat (len - pos (fst s))) s = Ok (Return r s').
Proof.
  intros [Hlt (c & Hc & Hz)] Hs. rewrite driver_loop_unfold.
  destruct (Z.ltb_spec (pos (fst s)) len); [|lia].
  rewrite Hc. cbn [obind]. destruct (Z.eqb_spec c 0); [contradiction|].
  destruct (Z.to_nat (len - pos (fst s))) as [|fuel] eqn:Hf; [lia|].
  rewrite Hs. reflexivity.
Qed.

(** A [return] in the loop body, in a state the driver reaches, is the
    result of [jsmn_parse]. *)
Lemma jsmn_parse_returns parser tokens s0 s r s' :
  resume cfg num_tokens (parser, tokens) = Ok (Continue s0) ->
  driver_reaches cfg js len num_tokens s0 s ->
  more_input js len s ->
  driver_step cfg js len num_tokens s = Ok (Return r s') ->
  jsmn_parse cfg js len num_tokens parser tokens = Ok (r, s').
Proof.
  intros Hr Hreach Hmore Hs. unfold jsmn_parse, jsmn_parse_loop.
  rewrite Hr. unfold fbind at 1. cbn [obind].
  rewrite (driver_loop_reaches _ _ Hreach), (driver_loop_returns _ _ _ Hmore Hs).
  reflexivity.
Qed.

Lemma driver_loop_pool_ok fuel s s' :
  driver_loop cfg js len num_tokens fuel s = Ok (Continue s') ->
  pool_ok s -> pool_ok s'.
Proof.
  revert s. induction fuel as [|fuel IH]; intros s H Hok;
    rewrite driver_loop_unfold in H;
    (destruct (pos (fst s) <? len); [|injection H as <-; exact Hok]);
    (destruct (rd js (pos (fst s))) as [c|] eqn:Hc; cbn [obind] in H; [|discriminate]);
    (destruct (c =? 0); [injection H as <-; exact Hok|]); [discriminate|].
  inv_bind H. apply (driver_step_spec _ _ _ _ _ _ _ Hc) in E as (_ & Hok1 & _).
  eapply IH; eauto.
Qed.

Lemma resume_pool_ok s s' :
  resume cfg num_tokens s = Ok (Continue s') -> pool_ok s -> pool_ok s'.
Proof.
  unfold resume. intros H Hok.
  destruct (negb (type_eqb (type (tokbuf (fst s))) JSMN_UNDEFINED));
    [|injection H as <-; exact Hok].
  inv_bind H. destruct x as [slot s1]. destruct slot as [token|]; [|discriminate].
  inv_bind H. injection H as <-.
  apply (pool_ok_alloc _ _ _ _ _ Hok) in E as (Hok1 & _ & _).
  destruct s1 as [p1 toks1]. cbn [fst snd] in *.
  assert (Hb : unclosed (tokbuf p1) = false) by apply Hok1.
  assert (Hok2 : pool_ok (p1, x)).
  { eapply modify_keeps; [|exact E0|exact Hok1].
    intros t _ Hu. congruence. }
  destruct Hok2 as (Hn & _ & Hg).
  split; [|split]; cbn [fst snd].
  - destruct (JSMN_NO_TRAILING_COMMAS cfg); exact Hn.
  - destruct (JSMN_NO_TRAILING_COMMAS cfg); reflexivity.
  - destruct (JSMN_NO_TRAILING_COMMAS cfg); exact Hg.
Qed.

End Loops.

(** The backward scan stops at the last slot below [n] that passes the
    test. *)
Lemma find_down_spec P tokens n :
  (n <= length tokens)%nat ->
  exists i, find_down P tokens n = Ok i /\
    ((i = -1 /\ forall j t, 0 <= j < Z.of_nat n -> tokens !! Z.to_nat j = Some t -> P t = false)
     \/ (0 <= i < Z.of_nat n /\ (exists t, tokens !! Z.to_nat i = Some t /\ P t = true)
         /\ forall j t, i < j < Z.of_nat n -> tokens !! Z.to_nat j = Some t -> P t = false)).
Proof.
  induction n as [|n IH]; intros Hn; simpl.
  - exists (-1). split; [reflexivity|]. left. split; [reflexivity|]. intros; lia.
  - unfold load. destruct (Z.ltb_spec (Z.of_nat n) 0); [lia|].
    rewrite Nat2Z.id.
    destruct (tokens !! n) as [t|] eqn:Ht;
      [|apply lookup_ge_None in Ht; lia].
    cbn [obind]. destruct (P t) eqn:HP.
    + exists (Z.of_nat n). split; [reflexivity|]. right.
      split; [lia|split; [rewrite Nat2Z.id; eauto|]]. intros; lia.
    + destruct IH as (i & Hi & Hcase); [lia|]. exists i. split; [exact Hi|].
      destruct Hcase as [(-> & Hall) | (Hr & Ht' & Hall)].
      * left. split; [reflexivity|]. intros j tj Hj Hl.
        destruct (Z.eq_dec j (Z.of_nat n)) as [->|].
        -- rewrite Nat2Z.id in Hl. congruence.
        -- eapply Hall; [|exact Hl]. lia.
      * right. split; [lia|split; [exact Ht'|]]. intros j tj Hj Hl.
        destruct (Z.eq_dec j (Z.of_nat n)) as [->|].
        -- rewrite Nat2Z.id in Hl. congruence.
        -- eapply Hall; [|exact Hl]. lia.
Qed.

(** ** The end of the input and the escape check *)
Lemma good_open_iff t : good_token t -> is_open t = unclosed t.
Proof.
  unfold good_token, is_open. intros H. destruct (unclosed t).
  - destruct H as [Hs _]; [reflexivity|].
    destruct (Z.eqb_spec (start t) (-1)); [contradiction|reflexivity].
  - apply andb_false_r.
Qed.

(** The check after the loop, on a state that satisfies the invariant. *)
Lemma unclosed_check_spec s :
  pool_ok s ->
  exists r, unclosed_check s = Ok r /\
    (r = JSMN_SUCCESS <->
       forall i t, 0 <= i < toknext (fst s) -> snd s !! Z.to_nat i = Some t ->
                   unclosed t = false) /\
    (forall i t, 0 <= i < toknext (fst s) -> snd s !! Z.to_nat i = Some t ->
       unclosed t = true ->
       (forall j t', i < j < toknext (fst s) -> snd s !! Z.to_nat j = Some t' ->
                     unclosed t' = false) ->
       (type t = JSMN_OBJECT /\ r = JSMN_ERROR_UNCLOSED_OBJECT)
       \/ (type t = JSMN_ARRAY /\ r = JSMN_ERROR_UNCLOSED_ARRAY)).
Proof.
  intros (Hn & _ & Hg). unfold unclosed_check.
  destruct (find_down_spec is_open (snd s) (Z.to_nat (toknext (fst s))))
    as (i & Hi & Hcase); [lia|].
  rewrite Hi. cbn [obind]. rewrite Z2Nat.id in Hcase by lia.
  destruct Hcase as [(-> & Hall) | (Hr & (t & Ht & Hopen) & Hall)].
  - exists JSMN_SUCCESS. split; [reflexivity|]. split.
    + split; [|reflexivity]. intros _ j tj Hj Hl.
      rewrite <- (good_open_iff tj) by (eapply Hg; eauto). eapply Hall; eauto.
    + intros j tj Hj Hl Hu _. exfalso.
      rewrite <- (good_open_iff tj) in Hu by (eapply Hg; eauto).
      rewrite (Hall j tj Hj Hl) in Hu. discriminate.
  - destruct (Z.eqb_spec i (-1)); [lia|].
    unfold load. destruct (Z.ltb_spec i 0); [lia|]. rewrite Ht. cbn [obind].
    assert (Hgt : good_token t) by (eapply Hg; eauto).
    assert (Hu : unclosed t = true) by (rewrite <- good_open_iff; assumption).
    destruct (Hgt Hu) as [_ Hty].
    eexists. split; [reflexivity|]. split.
    + split.
      * intros Hs. destruct Hty as [Hty|Hty]; rewrite Hty in Hs; discriminate.
      * intros Hnone. rewrite (Hnone i t Hr Ht) in Hu. discriminate.
    + intros j tj Hj Hl Huj Hafter.
      assert (j = i) as ->.
      { destruct (Z.lt_trichotomy j i) as [Hlt | [Heq | Hgt']]; [|exact Heq|].
        - rewrite (Hafter i t (conj Hlt (proj2 Hr)) Ht) in Hu. discriminate.
        - rewrite <- (good_open_iff tj) in Huj by (eapply Hg; eauto).
          rewrite (Hall j tj (conj Hgt' (proj2 Hj)) Hl) in Huj. discriminate. }
      assert (tj = t) as -> by congruence.
      destruct Hty as [Hty|Hty]; rewrite Hty; simpl; auto.
Qed.

Lemma jsmn_init_pool_ok cfg tokbuf0 tokens : pool_ok (jsmn_init cfg tokbuf0, tokens).
Proof.
  split; [simpl; lia|]. split; [reflexivity|]. simpl. intros; lia.
Qed.

Section Runs.
Variable cfg : config.
Variable js : list Z.
Variable len : Z.
Variable num_tokens : Z.

Lemma jsmn_parse_loop_pool_ok parser tokens s :
  pool_ok (parser, tokens) ->
  jsmn_parse_loop cfg js len num_tokens parser tokens = Ok (Continue s) ->
  pool_ok s.
Proof.
  intros Hok H. unfold jsmn_parse_loop in H. inv_bind H.
  eapply driver_loop_pool_ok; [exact H|].
  eapply resume_pool_ok; eauto.
Qed.

Lemma ishexdigit_lf h : ishexdigit h = true -> (h =? 10) = false.
Proof. destruct (Z.eqb_spec h 10) as [->|]; [discriminate|reflexivity]. Qed.

(** The digit loop goes through a run of hex digits. *)
Lemma hex_digits_run n p j :
  (Z.to_nat j <= n)%nat -> 0 <= j -> hex_run js p j ->
  hex_digits js n p = hex_digits js (n - Z.to_nat j) (p + j).
Proof.
  revert p j. induction n as [|n IH]; intros p j Hj Hj0 Hrun.
  - assert (j = 0) as -> by lia. simpl. rewrite Z.add_0_r. reflexivity.
  - destruct (Z.eq_dec j 0) as [->|Hne].
    + simpl (Z.to_nat 0). rewrite Nat.sub_0_r, Z.add_0_r. reflexivity.
    + destruct (Hrun 0) as (h & Hh & Hx); [lia|]. rewrite Z.add_0_r in Hh.
      simpl. rewrite Hh. cbn [obind]. rewrite (ishexdigit_lf _ Hx), Hx. simpl.
      rewrite (IH (p + 1) (j - 1)); [| lia | lia |].
      * f_equal; [lia|lia].
      * intros i Hi. destruct (Hrun (i + 1)) as (h' & Hh' & Hx'); [lia|].
        exists h'. split; [|exact Hx']. rewrite <- Hh'. f_equal. lia.
Qed.


End Runs.

(** ** The fuel of the loops is enough *)












Section Fuel.
Variable cfg : config.
Variable js : list Z.
Variable len : Z.
Variable num_tokens : Z.















End Fuel.

(** ** The claims *)

(** Pools of at least three, of at least seven slots: the comparisons of
    [jsmn_alloc_token] that the scenarios go through are then decided. *)
Lemma three_or_more (n : Z) :
  3 <= n ->
  n = 3 \/ exists q, n = Z.pos q~0~0 \/ n = Z.pos q~0~1 \/ n = Z.pos q~1~0
    \/ n = Z.pos q~1~1.
Proof.
  intros H. destruct n as [|p|p]; try lia.
  destruct p as [[q|q|]|[q|q|]|]; try lia; eauto 8.
Qed.

Lemma seven_or_more (n : Z) :
  7 <= n ->
  n = 7 \/ exists q, n = Z.pos q~0~0~0 \/ n = Z.pos q~0~0~1 \/ n = Z.pos q~0~1~0
    \/ n = Z.pos q~0~1~1 \/ n = Z.pos q~1~0~0 \/ n = Z.pos q~1~0~1
    \/ n = Z.pos q~1~1~0 \/ n = Z.pos q~1~1~1.
Proof.
  intros H. destruct n as [|p|p]; try lia.
  destruct p as [[[q|q|]|[q|q|]|]|[[q|q|]|[q|q|]|]|]; try lia; eauto 12.
Qed.

(** C1, as the code has it.  In the build with no switch defined,
    [nested_array] parsed with a pool of 4 returns NoMemory with the
    primitive 2 staged in the scratch token and [last_is_comma] still set
    by the comma before it.  The second call, on the same parser state and
    the pool grown to 6, moves the staged token into the pool but leaves
    the flag as it is (it is reset only under [JSMN_NO_TRAILING_COMMAS]),
    so the comma after the 2 is refused with UnexpectedCharacter; a single
    call with a pool of 6 returns Success. *)
Theorem resume_keeps_stale_comma_flag :
  exists p toks,
    jsmn_parse default_build nested_array 13 4
      (jsmn_init default_build zero_token) (pool 4)
    = Ok (JSMN_ERROR_NOMEM, (p, toks))
    /\ last_is_comma p = true
    /\ view (tokbuf p) = (JSMN_PRIMITIVE, 8, 1, false, false)
    /\ result_of (jsmn_parse default_build nested_array 13 6 p (toks ++ pool 2))
       = Some JSMN_ERROR_UNEXPECTED_CHAR
    /\ result_of (jsmn_parse default_build nested_array 13 6
                    (jsmn_init default_build zero_token) (pool 6))
       = Some JSMN_SUCCESS.
Proof.
  do 2 eexists. split; [vm_compute; reflexivity|].
  repeat split; vm_compute; reflexivity.
Qed.

(** C2, as the code has it.  In every build and with every pool of at
    least 7 slots, Scenario A returns Success with the 7 tokens of the
    claim, except that the key b, whose value is the array, is left with
    [associated = false]: [open_container] never sets the flag of the key
    a container is attached to. *)
Theorem scenario_A_key_b_not_associated links commas test tokbuf0 tokens n :
  7 <= n <= Z.of_nat (length tokens) ->
  exists s,
    jsmn_parse (mkConfig links commas test) scenario_A 24 n
      (jsmn_init (mkConfig links commas test) tokbuf0) tokens
    = Ok (JSMN_SUCCESS, s)
    /\ toknext (fst s) = 7
    /\ map view (produced s) =
       [ (JSMN_OBJECT, 0, 2, false, false);
         (JSMN_STRING, 2, 1, true, true);
         (JSMN_PRIMITIVE, 5, 1, false, false);
         (JSMN_STRING, 8, 1, true, false);
         (JSMN_ARRAY, 11, 2, false, false);
         (JSMN_PRIMITIVE, 12, 4, false, false);
         (JSMN_PRIMITIVE, 17, 5, false, false) ].
Proof.
  intros [Hn Hl].
  destruct tokens as [|t0 [|t1 [|t2 [|t3 [|t4 [|t5 [|t6 rest]]]]]]];
    cbn [length] in Hl; try lia.
  destruct links, commas, test;
    destruct (seven_or_more n Hn)
      as [-> | [q [-> | [-> | [-> | [-> | [-> | [-> | [-> | ->]]]]]]]]];
    (eexists; split; [vm_compute; reflexivity | split; vm_compute; reflexivity]).
Qed.

(** Scenario A in the default build with a pool of exactly 7. *)
Lemma scenario_A_witness :
  7 <= 7 <= Z.of_nat (length (pool 7)) /\
  exists s,
    jsmn_parse default_build scenario_A 24 7
      (jsmn_init default_build zero_token) (pool 7)
    = Ok (JSMN_SUCCESS, s)
    /\ (associated <$> produced s !! 3%nat) = Some false.
Proof.
  assert (H : 7 <= 7 <= Z.of_nat (length (pool 7)))
    by (vm_compute; split; discriminate).
  split; [exact H|].
  destruct (scenario_A_key_b_not_associated
              false false false zero_token (pool 7) 7 H) as (s & Hs & Hn & Ht).
  exists s. split; [exact Hs|].
  clear Hs Hn. destruct (produced s) as [|a [|b [|c [|d l]]]]; try discriminate.
  injection Ht as _ _ _ _ _ _ _ _ _ _ _ _ _ _ _ _ _ _ _ Hd _. cbn. congruence.
Defined.




(** C4, as the code has it.  With any root allowed and a pool of 3,
    Scenario B gives the array of size 2 and its two primitives in every
    build; the value returned is TrailingComma only when both
    [JSMN_NO_TRAILING_COMMAS] and [JSMN_PARENT_LINKS] are defined.  With
    [JSMN_NO_TRAILING_COMMAS] alone the linear-scan closing bracket has no
    test of [last_is_comma] and the parse returns Success. *)
Theorem trailing_comma_by_build :
  forall links commas,
  exists s,
    jsmn_parse (testmode links commas) scenario_B 6 3
       (jsmn_init (testmode links commas) zero_token) (pool 3)
    = Ok (if links && commas then JSMN_ERROR_TRAILING_COMMA else JSMN_SUCCESS, s)
    /\ map view (produced s) =
       [ (JSMN_ARRAY, 0, 2, false, false);
         (JSMN_PRIMITIVE, 1, 1, false, false);
         (JSMN_PRIMITIVE, 3, 1, false, false) ].
Proof.
  intros [] [];
    (eexists; split; [vm_compute; reflexivity|vm_compute; reflexivity]).
Qed.

(** C5, as the code has it.  After a closed root array, a second array is
    refused with ExpectedEndOfInput, but a primitive is taken as a second
    root token and the parse returns Success, and a string makes the
    string scanner read [tokens[-1]]; a primitive after a closed root
    object is accepted in the strict builds as well. *)
Theorem second_root_value :
  forall links commas,
  (exists s, jsmn_parse (testmode links commas) root_then_primitive 5 4
               (jsmn_init (testmode links commas) zero_token) (pool 4)
             = Ok (JSMN_SUCCESS, s)
             /\ map view (produced s) =
                [ (JSMN_ARRAY, 0, 0, false, false);
                  (JSMN_PRIMITIVE, 3, 1, false, false) ])
  /\ result_of (jsmn_parse (testmode links commas) root_then_array 5 4
                  (jsmn_init (testmode links commas) zero_token) (pool 4))
     = Some JSMN_ERROR_EXPECTED_EOF
  /\ jsmn_parse (testmode links commas) root_then_string 6 4
       (jsmn_init (testmode links commas) zero_token) (pool 4)
     = Crash (BadTokenIndex (-1))
  /\ result_of (jsmn_parse (mkConfig links commas false) object_then_primitive 5 4
                  (jsmn_init (mkConfig links commas false) zero_token) (pool 4))
     = Some JSMN_SUCCESS.
Proof.
  intros [] [];
    (split; [eexists; split; [vm_compute; reflexivity|vm_compute; reflexivity]|]);
    repeat split; vm_compute; reflexivity.
Qed.

(** C6, as the code has it.  The buffer holds a quote, a backslash and a
    NUL.  With declared length 3 the backslash is followed, inside the
    declared length, by the NUL, which the escape [switch] refuses with
    InvalidCharacter; with declared length 2, the offset of the NUL, the
    backslash is the last byte, it is stepped over and the string is
    UnclosedString.  Neither run touches the parser or the pool. *)
Theorem nul_after_backslash :
  forall cfg tokbuf0 tokens n,
    jsmn_parse cfg backslash_nul 3 n (jsmn_init cfg tokbuf0) tokens
      = Ok (JSMN_ERROR_INVAL, (jsmn_init cfg tokbuf0, tokens))
    /\ jsmn_parse cfg backslash_nul 2 n (jsmn_init cfg tokbuf0) tokens
      = Ok (JSMN_ERROR_UNCLOSED_STRING, (jsmn_init cfg tokbuf0, tokens)).
Proof.
  intros [[] [] []] tokbuf0 tokens n; split; vm_compute; reflexivity.
Qed.

(** C7, the claim as stated fails on its example: Scenario D returns
    UnexpectedEndOfInput, the primitive 1 has no terminator and the driver
    never gets to the end of the input. *)
Lemma scenario_D_unexpected_eof :
  result_of (jsmn_parse default_build scenario_D 6 3
               (jsmn_init default_build zero_token) (pool 3))
    = Some JSMN_ERROR_UNEXPECTED_EOF
  /\ result_of (jsmn_parse default_build scenario_D 6 3
                  (jsmn_init default_build zero_token) (pool 3))
    <> Some JSMN_ERROR_UNCLOSED_OBJECT.
Proof. split; [vm_compute; reflexivity | vm_compute; discriminate]. Qed.

(** C7, amended.  First part: when the driver loop of a call started in a
    state that satisfies [pool_ok] (a freshly initialized one does) gets
    to the end of the input in state [s], [jsmn_parse] returns in [s];
    the value is Success exactly when no allocated token is unclosed, and
    otherwise UnclosedObject or UnclosedArray after the type, Object or
    Array, of the unclosed token allocated last.  Second part: Scenario D
    followed by a space gets to the end of the input and returns
    UnclosedObject, for every build and every pool of at least 3 slots.
    Third part: Scenario D itself returns UnexpectedEndOfInput. *)
Theorem end_of_input_verdict :
  (forall cfg js len num_tokens parser tokens s,
     pool_ok (parser, tokens) ->
     jsmn_parse_loop cfg js len num_tokens parser tokens = Ok (Continue s) ->
     exists r, jsmn_parse cfg js len num_tokens parser tokens = Ok (r, s) /\
       (r = JSMN_SUCCESS <->
          forall i t, 0 <= i < toknext (fst s) ->
                      snd s !! Z.to_nat i = Some t -> unclosed t = false) /\
       (forall i t, 0 <= i < toknext (fst s) ->
          snd s !! Z.to_nat i = Some t -> unclosed t = true ->
          (forall j t', i < j < toknext (fst s) ->
                        snd s !! Z.to_nat j = Some t' -> unclosed t' = false) ->
          (type t = JSMN_OBJECT /\ r = JSMN_ERROR_UNCLOSED_OBJECT)
          \/ (type t = JSMN_ARRAY /\ r = JSMN_ERROR_UNCLOSED_ARRAY)))
  /\ (forall cfg tokbuf0 tokens n,
        3 <= n <= Z.of_nat (length tokens) ->
        (exists s, jsmn_parse_loop cfg scenario_D_terminated 7 n
                     (jsmn_init cfg tokbuf0) tokens = Ok (Continue s))
        /\ result_of (jsmn_parse cfg scenario_D_terminated 7 n
                        (jsmn_init cfg tokbuf0) tokens)
           = Some JSMN_ERROR_UNCLOSED_OBJECT)
  /\ (forall cfg tokbuf0 tokens n,
        3 <= n <= Z.of_nat (length tokens) ->
        result_of (jsmn_parse cfg scenario_D 6 n (jsmn_init cfg tokbuf0) tokens)
        = Some JSMN_ERROR_UNEXPECTED_EOF).
Proof.
  split; [|split].
  - intros cfg js len num_tokens parser tokens s Hok H.
    pose proof (jsmn_parse_loop_pool_ok _ _ _ _ _ _ _ Hok H) as Hs.
    destruct (unclosed_check_spec s Hs) as (r & Hr & Hrest).
    exists r. split; [|exact Hrest].
    unfold jsmn_parse. rewrite H. cbn [obind]. rewrite Hr. reflexivity.
  - intros cfg tokbuf0 tokens n [Hn Hl].
    destruct tokens as [|t0 [|t1 [|t2 rest]]]; cbn [length] in Hl; try lia.
    destruct cfg as [[] [] []];
      destruct (three_or_more n Hn) as [-> | [q [-> | [-> | [-> | ->]]]]];
      (split; [eexists; vm_compute; reflexivity | vm_compute; reflexivity]).
  - intros cfg tokbuf0 tokens n [Hn Hl].
    destruct tokens as [|t0 [|t1 [|t2 rest]]]; cbn [length] in Hl; try lia.
    destruct cfg as [[] [] []];
      destruct (three_or_more n Hn) as [-> | [q [-> | [-> | [-> | ->]]]]];
      vm_compute; reflexivity.
Qed.

(** Scenario D followed by a space, in the default build with a pool of 3:
    the first part of the theorem gives UnclosedObject from the object
    token, the only one left unclosed. *)
Lemma end_of_input_witness :
  pool_ok (jsmn_init default_build zero_token, pool 3)
  /\ jsmn_parse_loop default_build scenario_D_terminated 7 3
       (jsmn_init default_build zero_token) (pool 3) = Ok (Continue at_end_D)
  /\ jsmn_parse default_build scenario_D_terminated 7 3
       (jsmn_init default_build zero_token) (pool 3)
     = Ok (JSMN_ERROR_UNCLOSED_OBJECT, at_end_D).
Proof.
  assert (Hok : pool_ok (jsmn_init default_build zero_token, pool 3))
    by apply jsmn_init_pool_ok.
  assert (Hloop : jsmn_parse_loop default_build scenario_D_terminated 7 3
                    (jsmn_init default_build zero_token) (pool 3)
                  = Ok (Continue at_end_D)) by (vm_compute; reflexivity).
  split; [exact Hok|]. split; [exact Hloop|].
  destruct (proj1 end_of_input_verdict _ _ _ _ _ _ _ Hok Hloop)
    as (r & Hr & _ & Hlast).
  rewrite Hr. f_equal. f_equal.
  assert (Ht : snd at_end_D !! Z.to_nat 0
               = Some (mkTok JSMN_OBJECT 0 1 true false false 0)) by reflexivity.
  assert (Hi : 0 <= 0 < toknext (fst at_end_D)) by (split; reflexivity).
  destruct (Hlast 0 _ Hi Ht eq_refl) as [[_ Hobj] | [Harr _]];
    [|exact Hobj|discriminate Harr].
  intros j t' Hj Hl. change (toknext (fst at_end_D)) with 3 in Hj.
  assert (j = 1 \/ j = 2) as [-> | ->] by lia;
    vm_compute in Hl; injection Hl as <-; reflexivity.
Defined.




(** C9, as the code has it.  On a document that starts with a colon, or
    with a comma, the handler reads [tokens[toknext - 1]] with
    [toknext = 0], whatever the build and the pool; on a document that is
    one string the string scanner reads [tokens[toksuper]] with
    [toksuper = -1].  All three runs end in a read of slot -1. *)
Theorem first_byte_reads_below_pool :
  forall cfg tokbuf0 tokens n,
    jsmn_parse cfg (bytes ":") 1 n (jsmn_init cfg tokbuf0) tokens
      = Crash (BadTokenIndex (-1))
    /\ jsmn_parse cfg (bytes ",") 1 n (jsmn_init cfg tokbuf0) tokens
      = Crash (BadTokenIndex (-1))
    /\ jsmn_parse cfg (quoted "a") 3 4 (jsmn_init cfg tokbuf0) (pool 4)
      = Crash (BadTokenIndex (-1)).
Proof.
  intros [[] [] []] tokbuf0 tokens n; repeat split; vm_compute; reflexivity.
Qed.




(** * Further properties *)

(** ** Invariants of a scan *)

Lemma fbind_Ok m k fl :
  fbind m k = Ok fl ->
  (exists r s, m = Ok (Return r s) /\ fl = Return r s)
  \/ (exists s, m = Ok (Continue s) /\ k s = Ok fl).
Proof.
  unfold fbind. intros H. apply obind_Ok in H as [[s|r s] [Hm Hk]].
  - right. eauto.
  - left. injection Hk as <-. eauto.
Qed.

Section Effects.
Variable js : list Z.
Variable len : Z.
Variable num_tokens : Z.

Lemma effect_refl s : effect js len num_tokens s s.
Proof.
  unfold effect. split; [auto|]. split; [auto|]. lia.
Qed.

Lemma effect_trans s1 s2 s3 :
  effect js len num_tokens s1 s2 -> effect js len num_tokens s2 s3 ->
  effect js len num_tokens s1 s3.
Proof.
  intros (A1 & B1 & C1 & D1 & E1) (A2 & B2 & C2 & D2 & E2).
  unfold effect. split; [auto|]. split; [auto|]. lia.
Qed.

Lemma spans_ok_parser p p' toks :
  spans_ok js len (p, toks) -> toknext p' = toknext p -> tokbuf p' = tokbuf p ->
  spans_ok js len (p', toks).
Proof. unfold spans_ok. simpl. intros H -> ->. exact H. Qed.

Lemma effect_parser p p' toks :
  toknext p' = toknext p -> tokbuf p' = tokbuf p ->
  effect js len num_tokens (p, toks) (p', toks).
Proof.
  intros Hn Hb. unfold effect. cbn [fst snd]. rewrite Hn.
  split; [intros H; eapply pool_ok_parser; eauto|].
  split; [intros H; eapply spans_ok_parser; eauto|]. lia.
Qed.

Lemma effect_modify p toks i f toks' :
  modify toks i f = Ok toks' ->
  (forall t, good_token t -> good_token (f t)) ->
  (forall t, toks !! Z.to_nat i = Some t -> span_ok js len t -> span_ok js len (f t)) ->
  effect js len num_tokens (p, toks) (p, toks').
Proof.
  intros H Hg Hsp. unfold effect. cbn [fst snd].
  split; [intros Hok; eapply modify_keeps; eauto|].
  apply modify_Ok in H as (t & Hi & Ht & ->).
  split; [|rewrite length_insert; lia].
  intros [Hb Hall]. split; [exact Hb|]. cbn [fst snd] in *.
  intros j tj Hj Hl. apply lookup_insert_Z in Hl as [[-> ->] | [_ Hl]]; [| |lia|lia].
  - apply Hsp; [exact Ht|]. eapply Hall; eauto.
  - eapply Hall; eauto.
Qed.

Lemma effect_tokbuf p toks b :
  unclosed b = unclosed (tokbuf p) ->
  (span_ok js len (tokbuf p) -> span_ok js len b) ->
  effect js len num_tokens (p, toks) (set_tokbuf b p, toks).
Proof.
  intros Hu Hs. unfold effect. cbn [fst snd set_tokbuf toknext].
  split; [|split; [|lia]].
  - intros (Hn & Hb & Hg). split; [exact Hn|]. split; [|exact Hg].
    cbn [fst snd tokbuf set_tokbuf] in *. rewrite Hu. exact Hb.
  - intros [Hb Hall]. split; [apply Hs; exact Hb|exact Hall].
Qed.

Lemma effect_alloc cfg s slot s' :
  jsmn_alloc_token cfg num_tokens s = Ok (slot, s') ->
  effect js len num_tokens s s'.
Proof.
  intros H. unfold effect.
  split; [intros Hok; eapply pool_ok_alloc in H as [? _]; eauto|].
  apply alloc_inv in H as [(_ & -> & _) | (t & _ & Hi & Ht & ->)].
  - split; [auto|lia].
  - cbn [fst snd set_toknext toknext]. split; [|rewrite length_insert; lia].
    intros [Hb Hall]. split; [exact Hb|]. cbn [fst snd set_toknext toknext tokbuf] in *.
    intros j tj Hj Hl. apply lookup_insert_Z in Hl as [[<- ->] | [Hne Hl]]; [| |lia|lia].
    + exact I.
    + eapply Hall; [|exact Hl]. lia.
Qed.

Lemma effect_alloc_or_tokbuf cfg s token res s' :
  alloc_or_tokbuf cfg num_tokens s = Ok (token, res, s') ->
  effect js len num_tokens s s'.
Proof.
  unfold alloc_or_tokbuf. intros H. inv_bind H. destruct x as [slot s1].
  apply effect_alloc in E. destruct slot; injection H as _ _ <-; exact E.
Qed.

(** The part of [effect] that does not need to know which token a scanner
    fills. *)
Lemma spans_modify_ref r f s s' :
  modify_ref r f s = Ok s' ->
  (forall t, span_ok js len t -> span_ok js len (f t)) ->
  (spans_ok js len s -> spans_ok js len s')
  /\ toknext (fst s') = toknext (fst s) /\ length (snd s') = length (snd s).
Proof.
  intros H Hf. destruct r as [i|]; simpl in H.
  - inv_bind H. injection H as <-. apply modify_Ok in E as (t & Hi & Ht & ->).
    cbn [fst snd]. split; [|split; [reflexivity|apply length_insert]].
    intros [Hb Hall]. split; [exact Hb|]. cbn [fst snd].
    intros j tj Hj Hl. apply lookup_insert_Z in Hl as [[-> ->] | [_ Hl]]; [| |lia|lia].
    + apply Hf. eapply Hall; eauto.
    + eapply Hall; eauto.
  - injection H as <-. cbn. split; [|split; reflexivity].
    intros [Hb Hall]. split; [apply Hf; exact Hb|exact Hall].
Qed.
End Effects.

Lemma set_pos_same p : set_pos (pos p) p = p.
Proof. destruct p; reflexivity. Qed.

Section ScannerEffects.
Variable cfg : config.
Variable js : list Z.
Variable len : Z.
Variable num_tokens : Z.

Lemma primitive_scan_run fuel p0 p :
  primitive_scan js len fuel p0 = Ok (Found p) ->
  p < len
  /\ forall i, p0 <= i < p ->
       exists c, rd js i = Ok c /\ c <> 0 /\ is_terminator c = false.
Proof.
  revert p0. induction fuel as [|fuel IH]; intros p0; simpl;
    (destruct (Z.ltb_spec p0 len) as [Hlt0|Hge0]; [|discriminate]);
    (destruct (rd js p0) as [c|] eqn:Hc; cbn [obind]; [|discriminate]);
    (destruct (Z.eqb_spec c 0) as [Hz|Hnz]; [discriminate|]);
    (destruct (is_terminator c) eqn:Ht;
      [intros [= <-]; split; [lia|intros; lia] |]); [discriminate|].
  intros H. apply IH in H as [Hlt Hrun]. split; [exact Hlt|].
  intros i Hi. destruct (Z.eq_dec i p0) as [->|]; [eauto|]. apply Hrun. lia.
Qed.

Lemma string_scan_reaches_quote fuel p0 p :
  string_scan js len fuel p0 = Ok (Found p) ->
  p < len /\ rd js p = Ok 34 /\ string_reaches js len p0 p.
Proof.
  revert p0. induction fuel as [|fuel IH]; intros p0; simpl;
    (destruct (Z.ltb_spec p0 len) as [Hlt0|Hge0]; [|discriminate]);
    (destruct (rd js p0) as [c|] eqn:Hc; cbn [obind]; [|discriminate]);
    (destruct (Z.eqb_spec c 0) as [Hz|Hnz]; [discriminate|]);
    (destruct (Z.eqb_spec c 34) as [Hq0|Hnq];
      [intros [= <-]; subst c; split; [lia|split; [exact Hc|apply sreaches_here]]|]);
    (destruct (string_body js len c p0) as [[q|r]|] eqn:Hb; cbn [obind];
      try discriminate).
  intros H. apply IH in H as (Hlt & Hq & Hreach).
  split; [exact Hlt|]. split; [exact Hq|]. eapply sreaches_step; eauto.
Qed.

Lemma span_fill_primitive st p t :
  0 <= st < p -> p < len ->
  (exists c, rd js p = Ok c /\ is_terminator c = true) ->
  (forall i, st <= i < p ->
     exists c, rd js i = Ok c /\ c <> 0 /\ is_terminator c = false) ->
  span_ok js len (jsmn_fill_token JSMN_PRIMITIVE st p t).
Proof.
  intros Hst Hp Hterm Hrun. unfold span_ok. cbn.
  replace (st + (p - st)) with p by lia.
  split; [lia|]. split; [lia|]. split; [lia|]. split; [exact Hterm|exact Hrun].
Qed.

Lemma span_fill_string st p t :
  1 <= st <= p -> p < len ->
  rd js (st - 1) = Ok 34 -> rd js p = Ok 34 -> string_reaches js len st p ->
  span_ok js len (jsmn_fill_token JSMN_STRING st p t).
Proof.
  intros Hst Hp Hq1 Hq2 Hreach. unfold span_ok. cbn.
  replace (st + (p - st)) with p by lia.
  split; [lia|]. split; [lia|]. split; [lia|]. auto.
Qed.

Lemma jsmn_parse_primitive_effect s r s' c :
  rd js (pos (fst s)) = Ok c -> classify c = CPrimitive ->
  jsmn_parse_primitive cfg js len num_tokens s = Ok (r, s') ->
  (r = JSMN_ERROR_UNEXPECTED_EOF /\ s' = s)
  \/ ((r = JSMN_SUCCESS \/ r = JSMN_ERROR_NOMEM)
      /\ effect js len num_tokens s s' /\ pos (fst s) < pos (fst s')).
Proof.
  intros Hc Hcl H.
  pose proof (jsmn_parse_primitive_spec _ _ _ _ _ _ _ _ Hc Hcl H) as Hspec.
  unfold jsmn_parse_primitive in H. inv_bind H.
  destruct x as [p|r0].
  2:{ injection H as <- <-. left. split; [eapply primitive_scan_failed; eauto|].
    destruct s as [ps ts]. cbn [fst snd]. rewrite set_pos_same. reflexivity. }
  right. destruct Hspec as [-> | (Hres & Hp & Hok)].
  { exfalso. inv_bind H. destruct x as [[token res] s1]. inv_bind H.
    assert (res = JSMN_SUCCESS \/ res = JSMN_ERROR_NOMEM) as Hres.
    { unfold alloc_or_tokbuf in E0. apply obind_Ok in E0 as [[slot s2] [_ E0]].
      destruct slot; injection E0 as _ <- _; auto. }
    destruct (JSMN_PARENT_LINKS cfg); [inv_bind H|]; injection H as Hr _;
      rewrite Hr in Hres; destruct Hres; discriminate. }
  split; [exact Hres|]. split; [|exact Hp].
  pose proof (primitive_scan_found _ _ _ _ _ E) as [Hge Hterm].
  pose proof (primitive_scan_run _ _ _ E) as [Hlt Hrun].
  assert (Hst : pos (fst s) < p).
  { destruct (Z.eq_dec (pos (fst s)) p) as [Heq|]; [|lia]. exfalso.
    destruct Hterm as (c' & Hc' & Ht). rewrite <- Heq, Hc in Hc'. injection Hc' as <-.
    apply classify_primitive in Hcl as [_ Hnt]. congruence. }
  pose proof (rd_Ok _ _ _ Hc) as [Hpos _].
  inv_bind H. destruct x as [[token res] s1]. inv_bind H.
  assert (Hs1 : pos (fst s1) = p).
  { erewrite alloc_or_tokbuf_pos by eauto. reflexivity. }
  assert (Ha : effect js len num_tokens s s1).
  { eapply effect_trans; [|eapply effect_alloc_or_tokbuf; eauto].
    destruct s as [ps ts]. apply effect_parser; reflexivity. }
  rewrite Hs1 in E1.
  pose proof (spans_modify_ref js len _ _ _ _ E1
                (fun t _ => span_fill_primitive _ _ t (conj Hpos Hst) Hlt Hterm Hrun))
    as (Hsp1 & Hn1 & Hl1).
  assert (Hx : (spans_ok js len x -> spans_ok js len s')
               /\ toknext (fst s') = toknext (fst x)
               /\ length (snd s') = length (snd x)).
  { destruct (JSMN_PARENT_LINKS cfg).
    - inv_bind H. injection H as _ <-.
      eapply spans_modify_ref; [exact E2|]. intros t Ht. exact Ht.
    - injection H as _ <-. auto. }
  destruct Hx as (Hsp2 & Hn2 & Hl2).
  destruct Ha as (_ & Hspa & Hna1 & Hna2 & Hla).
  unfold effect. split; [exact Hok|]. split; [auto|]. split; [lia|]. split; lia.
Qed.

Lemma jsmn_parse_string_effect s r s' :
  rd js (pos (fst s)) = Ok 34 ->
  jsmn_parse_string cfg js len num_tokens s = Ok (r, s') ->
  ((r = JSMN_ERROR_INVAL \/ r = JSMN_ERROR_UNCLOSED_STRING) /\ s' = s)
  \/ ((r = JSMN_SUCCESS \/ r = JSMN_ERROR_NOMEM)
      /\ effect js len num_tokens s s' /\ pos (fst s) < pos (fst s')).
Proof.
  intros Hc H.
  pose proof (jsmn_parse_string_spec _ _ _ _ _ _ _ H) as Hspec.
  unfold jsmn_parse_string in H. inv_bind H.
  destruct x as [p|r0].
  2:{ injection H as <- <-. left. split; [eapply string_scan_failed; eauto|reflexivity]. }
  right.
  pose proof (string_scan_reaches_quote _ _ _ E) as (Hlt & Hq & Hreach).
  pose proof (string_scan_found _ _ _ _ _ E) as Hge.
  pose proof (rd_Ok _ _ _ Hc) as [Hpos _].
  inv_bind H. destruct x as [[token res] s1].
  assert (Hres : res = JSMN_SUCCESS \/ res = JSMN_ERROR_NOMEM).
  { unfold alloc_or_tokbuf in E0. apply obind_Ok in E0 as [[slot s2] [_ E0]].
    destruct slot; injection E0 as _ <- _; auto. }
  pose proof (effect_alloc_or_tokbuf js len _ _ _ _ _ _ E0) as Ha.
  inv_bind H. cbn [fst snd set_pos pos] in E1. cbn [fst snd] in H.
  assert (Hfill : forall t, span_ok js len t ->
            span_ok js len (jsmn_fill_token JSMN_STRING (pos (fst s) + 1) p t)).
  { intros t _. apply span_fill_string; [lia|exact Hlt| |exact Hq|exact Hreach].
    replace (pos (fst s) + 1 - 1) with (pos (fst s)) by lia. exact Hc. }
  assert (Hs1 : spans_ok js len s1 -> spans_ok js len (set_pos p (fst s1), snd s1)).
  { destruct s1. intros Hs. eapply spans_ok_parser; [exact Hs| |]; reflexivity. }
  pose proof (spans_modify_ref js len _ _ _ _ E1 Hfill) as (Hsp1 & Hn1 & Hl1).
  cbn [fst snd set_pos toknext] in Hn1, Hl1.
  set (s3 := (set_col (col (set_pos (pos (fst x) + 1) (fst x)) + (p - pos (fst s) + 1))
                (set_pos (pos (fst x) + 1) (fst x)), snd x)) in *.
  assert (Hs3 : (spans_ok js len x -> spans_ok js len s3)
                /\ toknext (fst s3) = toknext (fst x) /\ snd s3 = snd x).
  { subst s3. destruct x as [px tx]. cbn [fst snd]. split; [|split; reflexivity].
    intros Hs. eapply spans_ok_parser; [exact Hs| |]; reflexivity. }
  clearbody s3. destruct Hs3 as (Hsp3 & Hn3 & Hl3).
  assert (Hs4 : exists s4,
             (spans_ok js len s3 -> spans_ok js len s4)
             /\ toknext (fst s4) = toknext (fst s3)
             /\ length (snd s4) = length (snd s3)
             /\ (let* t := load (snd s4) (toksuper (fst s4)) in
                 let* s := (if type_eqb (type t) JSMN_OBJECT
                             then modify_ref token (set_is_key true) s4
                             else Ok s4) in Ok (res, s)) = Ok (r, s')).
  { destruct (JSMN_PARENT_LINKS cfg).
    - inv_bind H. exists x0.
      pose proof (spans_modify_ref js len _ _ _ _ E2 (fun t Ht => Ht)) as (A & B & C).
      split; [exact A|]. split; [exact B|]. split; [exact C|exact H].
    - exists s3. cbn [obind] in H. split; [auto|]. split; [reflexivity|].
      split; [reflexivity|exact H]. }
  destruct Hs4 as (s4 & Hsp4 & Hn4 & Hl4 & H4).
  inv_bind H4. inv_bind H4. injection H4 as <- <-.
  assert (Hs5 : (spans_ok js len s4 -> spans_ok js len x1)
                /\ toknext (fst x1) = toknext (fst s4)
                /\ length (snd x1) = length (snd s4)).
  { destruct (type_eqb (type x0) JSMN_OBJECT).
    - eapply spans_modify_ref; [exact E3|]. intros t Ht. exact Ht.
    - injection E3 as <-. auto. }
  destruct Hs5 as (Hsp5 & Hn5 & Hl5).
  destruct Hspec as [[?|?] | (_ & Hp & Hok)];
    [subst; destruct Hres; discriminate|subst; destruct Hres; discriminate|].
  split; [exact Hres|]. split; [|exact Hp].
  destruct Ha as (_ & Hspa & Hna1 & Hna2 & Hla).
  unfold effect. split; [exact Hok|]. split; [auto 8|].
  rewrite Hl3 in Hl4. rewrite Hn5, Hn4, Hn3, Hn1, Hl5, Hl4, Hl1, Hla.
  split; [exact Hna1|]. split; [exact Hna2|reflexivity].
Qed.
End ScannerEffects.

Lemma span_incr_size js len t :
  type t = JSMN_OBJECT \/ type t = JSMN_ARRAY -> span_ok js len (incr_size t).
Proof. unfold span_ok. cbn. intros [-> | ->]; exact I. Qed.

Lemma span_open js len p c t :
  span_ok js len
    (set_start p (set_unclosed true
       (set_type (if c =? 123 then JSMN_OBJECT else JSMN_ARRAY) t))).
Proof. unfold span_ok. cbn. destruct (c =? 123); exact I. Qed.

Lemma span_undefined js len t : span_ok js len (set_type JSMN_UNDEFINED t).
Proof. exact I. Qed.

Section HandlerEffects.
Variable cfg : config.
Variable js : list Z.
Variable len : Z.
Variable num_tokens : Z.

Local Abbreviation eff := (effect js len num_tokens).

Lemma effect_incr_size p toks i t toks' :
  load toks i = Ok t -> type t = JSMN_OBJECT \/ type t = JSMN_ARRAY ->
  modify toks i incr_size = Ok toks' -> eff (p, toks) (p, toks').
Proof.
  intros Hl Hty H. apply load_Ok in Hl as [_ Hl].
  eapply effect_modify; [exact H|apply good_incr_size|].
  intros t' Ht' _. assert (t' = t) as -> by congruence.
  apply span_incr_size. exact Hty.
Qed.

Lemma effect_keep_span p toks i f toks' :
  (forall t, good_token t -> good_token (f t)) ->
  (forall t, span_ok js len t -> span_ok js len (f t)) ->
  modify toks i f = Ok toks' -> eff (p, toks) (p, toks').
Proof.
  intros Hg Hs H. eapply effect_modify; [exact H|exact Hg|]. intros t _. apply Hs.
Qed.

Lemma attach_effect line0 col0 start0 r s fl :
  attach line0 col0 start0 r s = Ok fl ->
  eff s (flow_state fl)
  /\ (pos (fst (flow_state fl)) = pos (fst s)
      \/ pos (fst (flow_state fl)) = start0).
Proof.
  unfold attach. intros H. destruct s as [p toks]. cbn [fst snd] in *.
  assert (Hinner : forall fl1,
    (if negb (toksuper p =? -1)
     then let* t := load toks (toksuper p) in
          match type t with
          | JSMN_OBJECT | JSMN_ARRAY =>
              let* tokens := modify toks (toksuper p) incr_size in
              Ok (Continue (p, tokens))
          | JSMN_STRING =>
              if is_key t && negb (associated t)
              then let* tokens := modify toks (toksuper p) (set_associated true) in
                   Ok (Continue (p, tokens))
              else Ok (Return JSMN_ERROR_UNEXPECTED_CHAR
                         (set_tokbuf (set_type JSMN_UNDEFINED
                            (tokbuf (set_pos start0 (set_col col0 (set_line line0 p)))))
                            (set_pos start0 (set_col col0 (set_line line0 p))), toks))
          | _ => Ok (Return JSMN_ERROR_UNEXPECTED_CHAR
                       (set_tokbuf (set_type JSMN_UNDEFINED
                          (tokbuf (set_pos start0 (set_col col0 (set_line line0 p)))))
                          (set_pos start0 (set_col col0 (set_line line0 p))), toks))
          end
     else Ok (Continue (p, toks))) = Ok fl1 ->
    eff (p, toks) (flow_state fl1)
    /\ (pos (fst (flow_state fl1)) = pos p \/ pos (fst (flow_state fl1)) = start0)).
  { intros fl1 H1.
    assert (Hrew : eff (p, toks)
              (set_tokbuf (set_type JSMN_UNDEFINED
                 (tokbuf (set_pos start0 (set_col col0 (set_line line0 p)))))
                 (set_pos start0 (set_col col0 (set_line line0 p))), toks)).
    { eapply effect_trans; [apply effect_parser with
          (p' := set_pos start0 (set_col col0 (set_line line0 p))); reflexivity|].
      apply effect_tokbuf; [reflexivity|]. intros _. apply span_undefined. }
    destruct (negb (toksuper p =? -1));
      [|injection H1 as <-; split; [apply effect_refl|left; reflexivity]].
    inv_bind H1. destruct (type x) eqn:Hty.
    - injection H1 as <-. split; [exact Hrew|right; reflexivity].
    - inv_bind H1. injection H1 as <-. split; [|left; reflexivity].
      eapply effect_incr_size; eauto.
    - inv_bind H1. injection H1 as <-. split; [|left; reflexivity].
      eapply effect_incr_size; eauto.
    - destruct (is_key x && negb (associated x)).
      + inv_bind H1. injection H1 as <-. split; [|left; reflexivity].
        eapply effect_keep_span; [apply good_set_associated| |exact E0].
        intros t Ht. exact Ht.
      + injection H1 as <-. split; [exact Hrew|right; reflexivity].
    - injection H1 as <-. split; [exact Hrew|right; reflexivity]. }
  destruct r; try (injection H as <-; split; [apply effect_refl|left; reflexivity]).
  - apply fbind_Ok in H as [(r1 & s1 & Hm & ->) | (s1 & Hm & Hk)].
    + apply (Hinner _ Hm).
    + injection Hk as <-. apply (Hinner _ Hm).
  - apply fbind_Ok in H as [(r1 & s1 & Hm & ->) | (s1 & Hm & Hk)].
    + apply (Hinner _ Hm).
    + injection Hk as <-. apply (Hinner _ Hm).
Qed.

Lemma open_container_effect c s fl :
  0 <= pos (fst s) ->
  open_container cfg num_tokens c s = Ok fl ->
  eff s (flow_state fl) /\ pos (fst s) <= pos (fst (flow_state fl)).
Proof.
  intros Hpos H. unfold open_container in H.
  destruct (negb (JSMN_TESTMODE cfg) && (toknext (fst s) =? 0) && negb (c =? 123));
    [injection H as <-; split; [apply effect_refl|cbn; lia]|].
  inv_bind H. destruct x as [slot s1].
  pose proof (alloc_pos _ _ _ _ _ E) as Hp1.
  apply (effect_alloc js len) in E.
  destruct slot as [token|];
    [|injection H as <-; split; [exact E|cbn [flow_state]; lia]].
  destruct s1 as [p1 toks1]. cbn [fst snd] in *.
  assert (Hinner : forall fl1,
    (if negb (toksuper p1 =? -1)
     then let* t := load toks1 (toksuper p1) in
          if type_eqb (type t) JSMN_OBJECT
          then Ok (Return JSMN_ERROR_INVAL (p1, toks1))
          else let* tokens := (if type_eqb (type t) JSMN_ARRAY
                               then modify toks1 (toksuper p1) incr_size
                               else Ok toks1) in
               let* tokens := (if JSMN_PARENT_LINKS cfg
                               then modify tokens token (set_parent (toksuper p1))
                               else Ok tokens) in
               Ok (Continue (p1, tokens))
     else if toknext p1 >? 1
          then Ok (Return JSMN_ERROR_EXPECTED_EOF (p1, toks1))
          else Ok (Continue (p1, toks1))) = Ok fl1 ->
    eff (p1, toks1) (flow_state fl1) /\ fst (flow_state fl1) = p1).
  { intros fl1 H1. destruct (negb (toksuper p1 =? -1)).
    - inv_bind H1. destruct (type_eqb (type x) JSMN_OBJECT);
        [injection H1 as <-; split; [apply effect_refl|reflexivity]|].
      inv_bind H1. inv_bind H1. injection H1 as <-. split; [|reflexivity].
      cbn [flow_state].
      eapply effect_trans with (s2 := (p1, x0)).
      + destruct (type_eqb (type x) JSMN_ARRAY) eqn:Hty.
        * eapply effect_incr_size; [exact E0| |exact E1].
          right. apply type_eqb_eq. exact Hty.
        * injection E1 as <-. apply effect_refl.
      + destruct (JSMN_PARENT_LINKS cfg).
        * eapply effect_keep_span; [apply good_set_parent| |exact E2].
          intros t Ht. exact Ht.
        * injection E2 as <-. apply effect_refl.
    - destruct (toknext p1 >? 1); injection H1 as <-;
        (split; [apply effect_refl|reflexivity]). }
  apply fbind_Ok in H as [(r1 & s2 & Hm & ->) | (s2 & Hm & Hk)].
  - destruct (Hinner _ Hm) as [He Hf]. cbn [flow_state] in *.
    split; [eapply effect_trans; eauto|]. rewrite Hf. lia.
  - destruct (Hinner _ Hm) as [He Hf]. cbn [flow_state] in *.
    inv_bind Hk. injection Hk as <-. cbn [flow_state fst snd].
    split; [|rewrite Hf; cbn; lia].
    eapply effect_trans; [exact E|]. eapply effect_trans; [exact He|].
    destruct s2 as [p2 toks2]. cbn [fst snd] in *.
    eapply effect_trans with (s2 := (p2, x)).
    + eapply effect_modify; [exact E0| |].
      * intros t _. apply good_open. subst p2. lia.
      * intros t _ _. apply span_open.
    + apply effect_parser; reflexivity.
Qed.

Lemma close_walk_effect fuel ty s i fl :
  close_walk fuel ty s i = Ok fl ->
  eff s (flow_state fl) /\ pos (fst (flow_state fl)) = pos (fst s).
Proof.
  revert i. induction fuel as [|fuel IH]; intros i H; simpl in H;
    inv_bind H;
    (destruct (is_open x);
     [destruct (negb (type_eqb (type x) ty));
      [injection H as <-; split; [apply effect_refl|reflexivity]|];
      inv_bind H; injection H as <-; split; [|reflexivity];
      destruct s as [p toks]; cbn [flow_state fst snd] in *;
      eapply effect_trans with (s2 := (p, x0));
      [eapply effect_keep_span; [apply good_close| |exact E0];
       intros t Ht; exact Ht
      |apply effect_parser; reflexivity]
     |]);
    (destruct (parent x =? -1);
     [destruct (negb (type_eqb (type x) ty) || (toksuper (fst s) =? -1));
      injection H as <-; (split; [apply effect_refl|reflexivity])|]);
    [discriminate|].
  eapply IH; eauto.
Qed.

Lemma close_container_effect c s fl :
  close_container cfg c s = Ok fl ->
  eff s (flow_state fl) /\ pos (fst s) <= pos (fst (flow_state fl)).
Proof.
  unfold close_container, close_container_links, close_container_scan.
  intros H. destruct (JSMN_PARENT_LINKS cfg).
  - destruct (toknext (fst s) <? 1);
      [injection H as <-; split; [apply effect_refl|cbn; lia]|].
    inv_bind H. destruct (is_key x);
      [injection H as <-; split; [apply effect_refl|cbn; lia]|].
    destruct (JSMN_NO_TRAILING_COMMAS cfg && last_is_comma (fst s));
      [injection H as <-; split; [apply effect_refl|cbn; lia]|].
    apply fbind_Ok in H as [(r1 & s1 & Hm & ->) | (s1 & Hm & Hk)].
    + apply close_walk_effect in Hm as [He Hp]. split; [exact He|lia].
    + apply close_walk_effect in Hm as [He Hp]. injection Hk as <-.
      cbn [flow_state fst snd] in *. split; [|cbn; lia].
      eapply effect_trans; [exact He|]. destruct s1. apply effect_parser; reflexivity.
  - inv_bind H. destruct (is_key x);
      [injection H as <-; split; [apply effect_refl|cbn; lia]|].
    inv_bind H. destruct (x0 =? -1);
      [injection H as <-; split; [apply effect_refl|cbn; lia]|].
    inv_bind H. destruct (negb (type_eqb (type x1) _));
      [injection H as <-; split; [apply effect_refl|cbn; lia]|].
    inv_bind H. inv_bind H. injection H as <-.
    destruct s as [p toks]. cbn [flow_state fst snd] in *.
    split; [|destruct (x3 =? -1); cbn; lia].
    eapply effect_trans with (s2 := (p, x2)).
    + eapply effect_keep_span; [apply good_close| |exact E2]. intros t Ht. exact Ht.
    + apply effect_parser; destruct (x3 =? -1); reflexivity.
Qed.

Lemma colon_effect s fl :
  colon s = Ok fl ->
  eff s (flow_state fl) /\ pos (fst s) <= pos (fst (flow_state fl)).
Proof.
  unfold colon. intros H. inv_bind H.
  destruct (negb (is_key x)); injection H as <-.
  - split; [apply effect_refl|cbn; lia].
  - destruct s as [p toks]. cbn [flow_state fst snd].
    split; [apply effect_parser; reflexivity|cbn; lia].
Qed.

Lemma comma_effect s fl :
  comma cfg s = Ok fl ->
  eff s (flow_state fl) /\ pos (fst s) <= pos (fst (flow_state fl)).
Proof.
  unfold comma. intros H. inv_bind H.
  destruct (is_key x || last_is_comma (fst s));
    [injection H as <-; split; [apply effect_refl|cbn; lia]|].
  destruct (JSMN_NO_TRAILING_COMMAS cfg && _);
    [injection H as <-; split; [apply effect_refl|cbn; lia]|].
  inv_bind H. injection H as <-.
  assert (Hx : pos x0 = pos (fst s) /\ toknext x0 = toknext (fst s)
               /\ tokbuf x0 = tokbuf (fst s)).
  { destruct (negb (toksuper (fst s) =? -1)); [|injection E0 as <-; auto].
    inv_bind E0.
    destruct (type_val (type x1) >? type_val JSMN_ARRAY); [|injection E0 as <-; auto].
    destruct (JSMN_PARENT_LINKS cfg); [injection E0 as <-; auto|].
    inv_bind E0. injection E0 as <-. destruct (x2 =? -1); auto. }
  destruct Hx as (Hp & Hn & Hb). destruct s as [p toks]. cbn [flow_state fst snd] in *.
  split; [apply effect_parser; [exact Hn|exact Hb]|cbn; lia].
Qed.

Lemma ws_switch_pos parser p parser' p' :
  ws_switch js parser p = Ok (WsBreak parser' p') -> pos parser' = pos parser.
Proof.
  unfold ws_switch. intros H. inv_bind H.
  destruct (x =? 13).
  - inv_bind H. destruct (negb (x0 =? 10)); [discriminate|].
    injection H as <- <-. reflexivity.
  - destruct (x =? 10); [injection H as <- <-; reflexivity|].
    destruct (is_blank x); [injection H as <- <-; reflexivity | discriminate].
Qed.

Lemma ws_loop_pos fuel parser p r parser' :
  pos parser <= p ->
  ws_loop js len fuel parser p = Ok (r, parser') -> pos parser <= pos parser'.
Proof.
  revert parser p. induction fuel as [|fuel IH]; intros parser p Hp; simpl;
    (destruct (ws_switch js parser p) as [[parser1 p1| |]|] eqn:Hsw;
     cbn [obind]; try discriminate; try (intros [= <- <-]; cbn; lia);
     pose proof (ws_switch_break _ _ _ _ _ Hsw) as Hge;
     apply ws_switch_pos in Hsw);
    (destruct (p1 + 1 <? len); [|intros [= <- <-]; cbn; lia]);
    (destruct (rd js (p1 + 1)) as [c|]; cbn [obind]; [|discriminate]);
    (destruct (c =? 0); [intros [= <- <-]; cbn; lia|]); [discriminate|].
  intros H. apply IH in H; [|cbn; lia]. cbn in H. lia.
Qed.

Lemma dispatch_effect c s fl :
  rd js (pos (fst s)) = Ok c ->
  dispatch cfg js len num_tokens c s = Ok fl ->
  eff s (flow_state fl) /\ pos (fst s) <= pos (fst (flow_state fl)).
Proof.
  intros Hc H. pose proof (rd_Ok _ _ _ Hc) as [Hpos _].
  unfold dispatch in H. destruct (classify c) eqn:Hcl.
  - apply (open_container_effect c); assumption.
  - apply (close_container_effect c); assumption.
  - assert (c = 34) as ->.
    { unfold classify in Hcl.
      destruct ((c =? 123) || (c =? 91)); [discriminate|].
      destruct ((c =? 125) || (c =? 93)); [discriminate|].
      destruct (Z.eqb_spec c 34); [assumption|].
      destruct ((c =? 13) || (c =? 10) || is_blank c); [discriminate|].
      destruct (c =? 58); [discriminate|]. destruct (c =? 44); [discriminate|].
      destruct ((c =? 45) || (48 <=? c) && (c <=? 57) || (c =? 116)
                || (c =? 102) || (c =? 110)); discriminate. }
    inv_bind H. destruct x as [r s1].
    apply attach_effect in H as [He Hp].
    apply (jsmn_parse_string_effect _ _ _ _ _ _ _ Hc) in E
      as [(_ & ->) | (_ & He1 & Hp1)].
    + split; [exact He|]. destruct Hp as [-> | ->]; lia.
    + split; [eapply effect_trans; eauto|]. destruct Hp as [-> | ->]; lia.
  - inv_bind H. destruct x as [r parser]. unfold jamn_skip_whitespaces in E.
    pose proof (ws_loop_fields _ _ _ _ _ _ _ E) as [Hn Hb].
    apply ws_loop_pos in E; [|lia].
    destruct s as [p toks]. cbn [fst snd] in *.
    destruct (negb (r =? 0)); injection H as <-; cbn [flow_state fst snd];
      (split; [apply effect_parser; assumption|exact E]).
  - eapply colon_effect; eauto.
  - eapply comma_effect; eauto.
  - inv_bind H. destruct (negb x);
      [injection H as <-; split; [apply effect_refl|cbn; lia]|].
    inv_bind H. destruct x0 as [r s1].
    apply attach_effect in H as [He Hp].
    apply (jsmn_parse_primitive_effect _ _ _ _ _ _ _ _ Hc Hcl) in E0
      as [(_ & ->) | (_ & He1 & Hp1)].
    + split; [exact He|]. destruct Hp as [-> | ->]; lia.
    + split; [eapply effect_trans; eauto|]. destruct Hp as [-> | ->]; lia.
  - injection H as <-. split; [apply effect_refl|cbn; lia].
Qed.

Lemma driver_step_effect s fl :
  driver_step cfg js len num_tokens s = Ok fl ->
  eff s (flow_state fl) /\ pos (fst s) <= pos (fst (flow_state fl)).
Proof.
  unfold driver_step. intros H. inv_bind H.
  apply fbind_Ok in H as [(r1 & s1 & Hm & ->) | (s1 & Hm & Hk)].
  - apply (dispatch_effect _ _ _ E Hm).
  - apply (dispatch_effect _ _ _ E) in Hm as [He Hp]. injection Hk as <-.
    cbn [flow_state fst snd] in *. split; [|cbn; lia].
    eapply effect_trans; [exact He|]. destruct s1. apply effect_parser; reflexivity.
Qed.

Lemma driver_loop_effect fuel s fl :
  driver_loop cfg js len num_tokens fuel s = Ok fl ->
  eff s (flow_state fl) /\ pos (fst s) <= pos (fst (flow_state fl)).
Proof.
  revert s. induction fuel as [|fuel IH]; intros s H;
    rewrite driver_loop_unfold in H;
    (destruct (pos (fst s) <? len);
      [|injection H as <-; split; [apply effect_refl|cbn; lia]]);
    (destruct (rd js (pos (fst s))) as [c|] eqn:Hc; cbn [obind] in H; [|discriminate]);
    (destruct (c =? 0); [injection H as <-; split; [apply effect_refl|cbn; lia]|]);
    [discriminate|].
  apply fbind_Ok in H as [(r1 & s1 & Hm & ->) | (s1 & Hm & Hk)].
  - eapply driver_step_effect; eauto.
  - apply driver_step_effect in Hm as [He Hp]. apply IH in Hk as [He' Hp'].
    cbn [flow_state] in *. split; [eapply effect_trans; eauto|lia].
Qed.

Lemma resume_effect s fl :
  resume cfg num_tokens s = Ok fl ->
  eff s (flow_state fl) /\ pos (fst (flow_state fl)) = pos (fst s).
Proof.
  intros H. pose proof H as H0. unfold resume in H.
  destruct (negb (type_eqb (type (tokbuf (fst s))) JSMN_UNDEFINED));
    [|injection H as <-; split; [apply effect_refl|reflexivity]].
  inv_bind H. destruct x as [slot s1].
  apply alloc_inv in E as [(-> & -> & _) | (t & -> & Hi & Ht & ->)];
    [injection H as <-; split; [apply effect_refl|reflexivity]|].
  inv_bind H. injection H as Hfl. subst fl. cbn [flow_state fst snd] in *.
  split; [|destruct (JSMN_NO_TRAILING_COMMAS cfg); reflexivity].
  apply modify_Ok in E as (t' & _ & Ht' & ->).
  unfold effect. split; [intros Hok; exact (resume_pool_ok _ _ _ _ H0 Hok)|].
  cbn [fst snd]. split.
  - intros [Hb Hall]. split.
    + destruct (JSMN_NO_TRAILING_COMMAS cfg); exact I.
    + assert (Hn : forall q, toknext (if JSMN_NO_TRAILING_COMMAS cfg
                                      then set_last_is_comma false q else q)
                             = toknext q)
        by (intros q; destruct (JSMN_NO_TRAILING_COMMAS cfg); reflexivity).
      cbn [fst snd]. rewrite Hn. cbn [toknext set_tokbuf set_toknext].
      intros j tj Hj Hl.
      apply lookup_insert_Z in Hl as [[<- ->] | [Hne Hl]]; [| |lia|lia].
      * exact Hb.
      * apply lookup_insert_Z in Hl as [[<- ->] | [Hne' Hl]]; [| |lia|lia].
        -- exact I.
        -- eapply Hall; [|exact Hl]. lia.
  - rewrite !length_insert.
    destruct (JSMN_NO_TRAILING_COMMAS cfg); cbn [toknext set_tokbuf set_toknext
      set_last_is_comma]; lia.
Qed.

Lemma jsmn_parse_effect parser tokens r s' :
  jsmn_parse cfg js len num_tokens parser tokens = Ok (r, s') ->
  eff (parser, tokens) s' /\ pos parser <= pos (fst s').
Proof.
  unfold jsmn_parse, jsmn_parse_loop. intros H. inv_bind H.
  assert (Hx : eff (parser, tokens) (flow_state x)
               /\ pos parser <= pos (fst (flow_state x))).
  { apply fbind_Ok in E as [(r1 & s1 & Hm & ->) | (s1 & Hm & Hk)].
    - apply resume_effect in Hm as [He Hp]. split; [exact He|cbn in *; lia].
    - apply resume_effect in Hm as [He Hp]. apply driver_loop_effect in Hk as [He' Hp'].
      cbn [flow_state fst] in *. split; [eapply effect_trans; eauto|lia]. }
  destruct x as [s|r1 s].
  - inv_bind H. injection H as _ <-. exact Hx.
  - injection H as _ <-. exact Hx.
Qed.
End HandlerEffects.

(** ** Token ranges and pool bounds *)

Lemma pool_ok_grow p toks more : pool_ok (p, toks) -> pool_ok (p, toks ++ more).
Proof.
  intros (Hn & Hb & Hg). split; [|split; [exact Hb|]]; cbn [fst snd] in *.
  - rewrite length_app. lia.
  - intros i t Hi Hl. eapply Hg; [exact Hi|].
    rewrite lookup_app_l in Hl by lia. exact Hl.
Qed.

Lemma spans_ok_grow js len p toks more :
  toknext p <= Z.of_nat (length toks) ->
  spans_ok js len (p, toks) -> spans_ok js len (p, toks ++ more).
Proof.
  intros Hn [Hb Hall]. split; [exact Hb|]. cbn [fst snd] in *.
  intros i t Hi Hl. eapply Hall; [exact Hi|].
  rewrite lookup_app_l in Hl by lia. exact Hl.
Qed.

Lemma in_session_ok cfg js len s :
  in_session cfg js len s -> pool_ok s /\ spans_ok js len s.
Proof.
  induction 1 as [tokbuf0 tokens | parser tokens more n r s' _ [Hp Hs] Hcall].
  - split; [apply jsmn_init_pool_ok|]. split; [exact I|]. cbn. intros; lia.
  - apply jsmn_parse_effect in Hcall as [(Hep & Hes & _) _].
    split; [apply Hep, pool_ok_grow, Hp|].
    apply Hes, spans_ok_grow; [apply Hp|exact Hs].
Qed.

(** Every String and Primitive token handed out during a scan covers the
    text it stands for. *)
Theorem produced_spans cfg js len s i t :
  in_session cfg js len s ->
  0 <= i < toknext (fst s) -> snd s !! Z.to_nat i = Some t ->
  span_ok js len t.
Proof.
  intros Hs Hi Hl. apply in_session_ok in Hs as [_ [_ Hall]]. eapply Hall; eauto.
Qed.

Lemma after_nomem_in_session :
  in_session default_build nested_array 13 after_nomem.
Proof.
  eapply (session_call default_build nested_array 13
            (jsmn_init default_build zero_token) (pool 4) [] 4).
  - apply session_init.
  - vm_compute. reflexivity.
Qed.

Lemma produced_spans_witness :
  in_session default_build nested_array 13 after_nomem
  /\ span_ok nested_array 13 (mkTok JSMN_STRING 2 1 false true false 0).
Proof.
  split; [exact after_nomem_in_session|].
  refine (produced_spans default_build nested_array 13 after_nomem 1 _
            after_nomem_in_session _ _).
  - split; [discriminate|reflexivity].
  - reflexivity.
Defined.

(** During a scan the allocated slots lie inside the pool array, the
    scratch token is never marked unclosed, and an allocated token marked
    unclosed is an Object or an Array whose start offset is set. *)
Theorem open_tokens_are_containers cfg js len s :
  in_session cfg js len s ->
  0 <= toknext (fst s) <= Z.of_nat (length (snd s))
  /\ unclosed (tokbuf (fst s)) = false
  /\ forall i t, 0 <= i < toknext (fst s) -> snd s !! Z.to_nat i = Some t ->
       unclosed t = true ->
       start t <> -1 /\ (type t = JSMN_OBJECT \/ type t = JSMN_ARRAY).
Proof.
  intros Hs. apply in_session_ok in Hs as [(Hn & Hb & Hg) _].
  split; [exact Hn|]. split; [exact Hb|]. intros i t Hi Hl Hu. eapply Hg; eauto.
Qed.

Lemma open_tokens_witness :
  in_session default_build nested_array 13 after_nomem
  /\ unclosed (tokbuf (fst after_nomem)) = false.
Proof.
  split; [exact after_nomem_in_session|].
  exact (proj1 (proj2 (open_tokens_are_containers _ _ _ _ after_nomem_in_session))).
Defined.

(** One call: slots are handed out in order and never beyond the capacity
    given to the call, the pool array keeps its length, and the cursor does
    not move back. *)
Theorem jsmn_parse_bounds cfg js len num_tokens parser tokens r s' :
  jsmn_parse cfg js len num_tokens parser tokens = Ok (r, s') ->
  toknext parser <= toknext (fst s')
  /\ toknext (fst s') <= Z.max (toknext parser) num_tokens
  /\ length (snd s') = length tokens
  /\ pos parser <= pos (fst s').
Proof.
  intros H. apply jsmn_parse_effect in H as [(_ & _ & A & B & C) D]. auto.
Qed.

Lemma jsmn_parse_bounds_witness :
  jsmn_parse default_build nested_array 13 4
    (jsmn_init default_build zero_token) (pool 4)
  = Ok (JSMN_ERROR_NOMEM, after_nomem)
  /\ toknext (fst after_nomem) <= 4.
Proof.
  assert (H : jsmn_parse default_build nested_array 13 4
                (jsmn_init default_build zero_token) (pool 4)
              = Ok (JSMN_ERROR_NOMEM, after_nomem)) by (vm_compute; reflexivity).
  split; [exact H|].
  exact (proj1 (proj2 (jsmn_parse_bounds _ _ _ _ _ _ _ _ H))).
Defined.

(** A pass through the body of the driver loop that does not return has
    moved the cursor forward by at least one byte. *)
Theorem driver_step_advances cfg js len num_tokens s s' :
  driver_step cfg js len num_tokens s = Ok (Continue s') ->
  pos (fst s) < pos (fst s').
Proof.
  intros H. pose proof H as H0. unfold driver_step in H. inv_bind H.
  apply (driver_step_spec _ _ _ _ _ _ _ E H0).
Qed.

(** ** Hex digits *)

Lemma ishexdigit_bytes :
  forallb (fun c => Bool.eqb (ishexdigit c) (is_hex_byte c)
                    && negb (ishexdigit (c + 4294967040))) (seqZ 0 256) = true.
Proof. vm_compute. reflexivity. Qed.

(** [ishexdigit] on a byte is the test for 0-9, A-F, a-f, and a byte that a
    signed [char] hands over as a negative value (the byte plus
    2^32 - 256 after the conversion to [unsigned], for bytes from 128 on)
    is no hex digit. *)
Theorem ishexdigit_spec c :
  0 <= c < 256 ->
  ishexdigit c = is_hex_byte c /\ ishexdigit (c + 4294967040) = false.
Proof.
  intros Hc. pose proof ishexdigit_bytes as H.
  rewrite forallb_forall in H. specialize (H c).
  assert (Hin : In c (seqZ 0 256)).
  { apply list_elem_of_In, elem_of_seqZ. lia. }
  apply H in Hin. apply andb_true_iff in Hin as [H1 H2].
  split; [apply Bool.eqb_prop; exact H1|].
  destruct (ishexdigit (c + 4294967040)); [discriminate|reflexivity].
Qed.

Lemma ishexdigit_spec_witness :
  0 <= 70 < 256 /\ ishexdigit 70 = true.
Proof.
  assert (H : 0 <= 70 < 256) by (split; [discriminate|reflexivity]).
  split; [exact H|]. exact (proj1 (ishexdigit_spec 70 H)).
Defined.

(** ** Blank input *)

Lemma is_blank_cases c :
  is_blank c = true -> (c =? 13) = false /\ (c =? 10) = false /\ (c =? 0) = false.
Proof.
  unfold is_blank. intros H.
  destruct (Z.eqb_spec c 32) as [E32|E32]; [subst c; auto|].
  destruct (Z.eqb_spec c 9) as [E9|E9]; [subst c; auto|].
  destruct (Z.eqb_spec c 11) as [E11|E11]; [subst c; auto|].
  destruct (Z.eqb_spec c 12) as [E12|E12]; [subst c; auto|]. discriminate.
Qed.

Lemma classify_blank c : is_blank c = true -> classify c = CSpace.
Proof.
  unfold is_blank. intros H.
  destruct (Z.eqb_spec c 32) as [E32|E32]; [subst c; reflexivity|].
  destruct (Z.eqb_spec c 9) as [E9|E9]; [subst c; reflexivity|].
  destruct (Z.eqb_spec c 11) as [E11|E11]; [subst c; reflexivity|].
  destruct (Z.eqb_spec c 12) as [E12|E12]; [subst c; reflexivity|]. discriminate.
Qed.

Section Whitespace.
Variable js : list Z.
Variable len : Z.

Lemma ws_loop_unfold fuel parser p :
  ws_loop js len fuel parser p =
  let* sw := ws_switch js parser p in
  match sw with
  | WsBroken => Ok (-1, parser)
  | WsOut => Ok (0, set_pos p parser)
  | WsBreak parser p =>
      if p + 1 <? len then
        let* c := rd js (p + 1) in
        if c =? 0 then Ok (0, set_pos (p + 1) (set_col (col parser + 1) parser))
        else match fuel with
             | O => Crash OutOfFuel
             | S fuel => ws_loop js len fuel (set_col (col parser + 1) parser) (p + 1)
             end
      else Ok (0, set_pos (p + 1) (set_col (col parser + 1) parser))
  end.
Proof. destruct fuel; reflexivity. Qed.

Lemma ws_loop_blanks fuel parser p :
  p < len -> len - p - 1 <= Z.of_nat fuel -> blank_from js len p ->
  ws_loop js len fuel parser p
  = Ok (0, set_pos len (set_col (col parser + (len - p)) parser)).
Proof.
  revert parser p. induction fuel as [|fuel IH]; intros parser p Hp Hf Hb;
    rewrite ws_loop_unfold; unfold ws_switch;
    (destruct (Hb p) as (c & Hc & Hbl); [lia|]);
    rewrite Hc; cbn [obind];
    (destruct (is_blank_cases c Hbl) as (-> & -> & _)); rewrite Hbl; cbn [obind];
    (destruct (Z.ltb_spec (p + 1) len) as [Hlt|Hge]).
  - lia.
  - assert (E : len = p + 1) by lia. rewrite E.
    replace (p + 1 - p) with 1 by lia. reflexivity.
  - destruct (Hb (p + 1)) as (c1 & Hc1 & Hbl1); [lia|].
    rewrite Hc1. cbn [obind]. destruct (is_blank_cases c1 Hbl1) as (_ & _ & ->).
    rewrite IH; [|lia|lia|intros i Hi; apply Hb; lia].
    destruct parser as [ps tn ts ln cl lc tb]. unfold set_pos, set_col. cbn.
    replace (cl + 1 + (len - (p + 1))) with (cl + (len - p)) by lia. reflexivity.
  - assert (E : len = p + 1) by lia. rewrite E.
    replace (p + 1 - p) with 1 by lia. reflexivity.
Qed.
End Whitespace.

(** An input of blanks only, the empty input included, is accepted: the
    call returns Success, hands out no token, and leaves the cursor at the
    declared length with the column advanced by as much. *)
Theorem blank_input_succeeds cfg js len num_tokens tokbuf0 tokens :
  0 <= len -> blank_from js len 0 ->
  jsmn_parse cfg js len num_tokens (jsmn_init cfg tokbuf0) tokens
  = Ok (JSMN_SUCCESS, (advance len (jsmn_init cfg tokbuf0), tokens)).
Proof.
  intros Hlen Hb. unfold jsmn_parse, jsmn_parse_loop.
  assert (Hr : resume cfg num_tokens (jsmn_init cfg tokbuf0, tokens)
               = Ok (Continue (jsmn_init cfg tokbuf0, tokens))) by reflexivity.
  rewrite Hr. unfold fbind at 1. cbn [obind fst snd].
  change (pos (jsmn_init cfg tokbuf0)) with 0.
  destruct (Z.eq_dec len 0) as [->|Hne].
  - reflexivity.
  - rewrite driver_loop_unfold. cbn [fst snd].
    change (pos (jsmn_init cfg tokbuf0)) with 0.
    destruct (Z.ltb_spec 0 len) as [_|]; [|lia].
    destruct (Hb 0) as (c & Hc & Hbl); [lia|]. rewrite Hc. cbn [obind].
    destruct (is_blank_cases c Hbl) as (_ & _ & ->).
    destruct (Z.to_nat (len - 0)) as [|fuel] eqn:Hf; [lia|].
    unfold driver_step. cbn [fst snd]. change (pos (jsmn_init cfg tokbuf0)) with 0.
    rewrite Hc. cbn [obind]. unfold dispatch. rewrite (classify_blank c Hbl).
    unfold jamn_skip_whitespaces. cbn [fst snd].
    change (pos (jsmn_init cfg tokbuf0)) with 0.
    rewrite ws_loop_blanks; [|lia|lia|exact Hb].
    cbn [obind]. unfold fbind. cbn [obind negb Z.eqb].
    rewrite driver_loop_unfold. cbn [fst snd set_last_is_comma set_pos pos].
    destruct (Z.ltb_spec len len); [lia|]. cbn [obind].
    assert (Hcomma : (c =? 44) = false).
    { unfold is_blank in Hbl. destruct (Z.eqb_spec c 44) as [->|]; [discriminate|reflexivity]. }
    rewrite Hcomma, Z.sub_0_r. reflexivity.
Qed.

Lemma blank_input_witness :
  0 <= 3 /\ blank_from [c_space; c_tab; c_space] 3 0
  /\ result_of (jsmn_parse default_build [c_space; c_tab; c_space] 3 0
                  (jsmn_init default_build zero_token) [])
     = Some JSMN_SUCCESS.
Proof.
  assert (H0 : 0 <= 3) by discriminate.
  assert (Hb : blank_from [c_space; c_tab; c_space] 3 0).
  { intros i Hi. assert (i = 0 \/ i = 1 \/ i = 2) as [-> | [-> | ->]] by lia;
      eexists; (split; [reflexivity|reflexivity]). }
  split; [exact H0|]. split; [exact Hb|].
  exact (f_equal result_of
           (blank_input_succeeds default_build [c_space; c_tab; c_space] 3 0 zero_token [] H0 Hb)).
Defined.

(** ** Newlines and reads past the buffer *)

Lemma rd_past_end js p :
  0 <= p -> Z.of_nat (length js) <= p -> rd js p = Crash (BadByteIndex p).
Proof.
  intros H0 H. unfold rd. destruct (Z.ltb_spec p 0); [lia|].
  rewrite lookup_ge_None_2 by lia. reflexivity.
Qed.

Section Newlines.
Variable cfg : config.
Variable js : list Z.
Variable len : Z.
Variable num_tokens : Z.





Lemma driver_loop_crashes s f :
  more_input js len s ->
  driver_step cfg js len num_tokens s = Crash f ->
  driver_loop cfg js len num_tokens (Z.to_nat (len - pos (fst s))) s = Crash f.
Proof.
  intros [Hlt (c & Hc & Hz)] Hs. rewrite driver_loop_unfold.
  destruct (Z.ltb_spec (pos (fst s)) len); [|lia].
  rewrite Hc. cbn [obind]. destruct (Z.eqb_spec c 0); [contradiction|].
  destruct (Z.to_nat (len - pos (fst s))) as [|fuel] eqn:Hf; [lia|].
  rewrite Hs. reflexivity.
Qed.

Lemma jsmn_parse_crashes parser tokens s0 s f :
  resume cfg num_tokens (parser, tokens) = Ok (Continue s0) ->
  driver_reaches cfg js len num_tokens s0 s ->
  more_input js len s ->
  driver_step cfg js len num_tokens s = Crash f ->
  jsmn_parse cfg js len num_tokens parser tokens = Crash f.
Proof.
  intros Hr Hreach Hmore Hs. unfold jsmn_parse, jsmn_parse_loop.
  rewrite Hr. unfold fbind at 1. cbn [obind].
  rewrite (driver_loop_reaches _ _ _ _ _ _ Hreach), (driver_loop_crashes _ _ Hmore Hs).
  reflexivity.
Qed.


(** The digits after backslash-u are read without a test of the length: a
    string that ends, with the buffer, after fewer than four hex digits
    makes the call read the byte past the end of the buffer. *)
Theorem unicode_escape_reads_past_buffer parser tokens s0 s k j :
  resume cfg num_tokens (parser, tokens) = Ok (Continue s0) ->
  driver_reaches cfg js len num_tokens s0 s ->
  pos (fst s) < len -> rd js (pos (fst s)) = Ok c_dquote ->
  string_reaches js len (pos (fst s) + 1) k ->
  k + 1 < len -> rd js k = Ok c_backslash -> rd js (k + 1) = Ok 117 ->
  0 <= j < 4 -> hex_run js (k + 2) j ->
  Z.of_nat (length js) = k + 2 + j ->
  jsmn_parse cfg js len num_tokens parser tokens
  = Crash (BadByteIndex (k + 2 + j)).
Proof.
  intros Hres Hreach Hlt Hq Hstr Hk Hbs Hu Hj Hrun Hend.
  assert (Hk0 : 0 <= k) by (apply rd_Ok in Hbs; tauto).
  assert (Hbody : string_body js len 92 k = Crash (BadByteIndex (k + 2 + j))).
  { unfold string_body, string_escape. simpl (92 =? 92).
    destruct (Z.ltb_spec (k + 1) len); [|lia]. cbn [andb].
    rewrite Hu. cbn [obind]. simpl (is_simple_escape 117). simpl (117 =? 117).
    cbv iota. replace (k + 1 + 1) with (k + 2) by lia.
    rewrite (hex_digits_run js 4 (k + 2) j); [|lia|lia|exact Hrun].
    destruct (4 - Z.to_nat j)%nat as [|m] eqn:Hm; [lia|].
    simpl. rewrite rd_past_end by lia. reflexivity. }
  eapply jsmn_parse_crashes; [exact Hres|exact Hreach| |].
  - split; [exact Hlt|]. exists 34. split; [exact Hq|discriminate].
  - unfold driver_step. rewrite Hq. cbn [obind]. unfold dispatch.
    simpl (classify 34). cbv iota. unfold jsmn_parse_string.
    rewrite (string_scan_reaches _ _ _ _ Hstr).
    rewrite string_scan_unfold.
    destruct (Z.ltb_spec k len); [|lia].
    rewrite Hbs. cbn [obind]. simpl (92 =? 0). simpl (92 =? 34). cbv iota.
    rewrite Hbody. reflexivity.
Qed.
End Newlines.

(** ** Line and column *)

Lemma alloc_cursor cfg n s slot s' :
  jsmn_alloc_token cfg n s = Ok (slot, s') ->
  pos (fst s') = pos (fst s) /\ col (fst s') = col (fst s)
  /\ line (fst s') = line (fst s).
Proof.
  intros H. apply alloc_inv in H as [(_ & -> & _) | (t & _ & _ & _ & ->)]; auto.
Qed.

Lemma alloc_or_tokbuf_cursor cfg n s token res s' :
  alloc_or_tokbuf cfg n s = Ok (token, res, s') ->
  pos (fst s') = pos (fst s) /\ col (fst s') = col (fst s)
  /\ line (fst s') = line (fst s).
Proof.
  unfold alloc_or_tokbuf. intros H. inv_bind H. destruct x as [slot s1].
  apply alloc_cursor in E. destruct slot; injection H as _ _ <-; exact E.
Qed.

Lemma modify_ref_cursor r f s s' :
  modify_ref r f s = Ok s' ->
  pos (fst s') = pos (fst s) /\ col (fst s') = col (fst s)
  /\ line (fst s') = line (fst s).
Proof.
  destruct r; simpl; intros H.
  - inv_bind H. injection H as <-. auto.
  - injection H as <-. auto.
Qed.

Section Cursor.
Variable cfg : config.
Variable js : list Z.
Variable len : Z.
Variable num_tokens : Z.

Lemma attach_continue line0 col0 start0 r s s' :
  attach line0 col0 start0 r s = Ok (Continue s') -> fst s' = fst s.
Proof.
  unfold attach. intros H.
  destruct r; try discriminate; inv_bind H; [|discriminate].
  injection H as <-.
  destruct (negb (toksuper (fst s) =? -1)); [|injection E as <-; reflexivity].
  inv_bind E. destruct (type x0); try discriminate.
  - inv_bind E. injection E as <-. reflexivity.
  - inv_bind E. injection E as <-. reflexivity.
  - destruct (is_key x0 && negb (associated x0)); [|discriminate].
    inv_bind E. injection E as <-. reflexivity.
Qed.

Lemma jsmn_parse_string_cursor s r s' :
  jsmn_parse_string cfg js len num_tokens s = Ok (r, s') ->
  r = JSMN_SUCCESS \/ r = JSMN_ERROR_NOMEM ->
  moved_along (fst s) (fst s').
Proof.
  intros H Hr. unfold jsmn_parse_string in H. inv_bind H.
  destruct x as [p|r0].
  2:{ injection H as <- <-. apply string_scan_failed in E.
      destruct E as [-> | ->]; destruct Hr; discriminate. }
  inv_bind H. destruct x as [[token res] s1].
  pose proof (alloc_or_tokbuf_cursor _ _ _ _ _ _ E0) as (Hp1 & Hc1 & Hl1).
  inv_bind H. cbn [fst snd set_pos pos] in E1. cbn [fst snd] in H.
  pose proof (modify_ref_cursor _ _ _ _ E1) as (Hp2 & Hc2 & Hl2).
  cbn in Hp2, Hc2, Hl2.
  set (s3 := (set_col (col (set_pos (pos (fst x) + 1) (fst x)) + (p - pos (fst s) + 1))
                (set_pos (pos (fst x) + 1) (fst x)), snd x)) in *.
  assert (Hs3 : line (fst s3) = line (fst s)
                /\ col (fst s3) = col (fst s) + (p - pos (fst s) + 1)
                /\ pos (fst s3) = p + 1).
  { subst s3. cbn. rewrite Hl2, Hc2, Hp2, Hl1, Hc1. auto. }
  clearbody s3.
  assert (Hs4 : exists s4,
             (line (fst s4) = line (fst s)
              /\ col (fst s4) = col (fst s) + (p - pos (fst s) + 1)
              /\ pos (fst s4) = p + 1)
             /\ (let* t := load (snd s4) (toksuper (fst s4)) in
                 let* s := (if type_eqb (type t) JSMN_OBJECT
                             then modify_ref token (set_is_key true) s4
                             else Ok s4) in Ok (res, s)) = Ok (r, s')).
  { destruct (JSMN_PARENT_LINKS cfg).
    - apply obind_Ok in H as [s4 [Em H]]. exists s4. split; [|exact H].
      apply modify_ref_cursor in Em as (A & B & C). rewrite A, B, C. exact Hs3.
    - exists s3. cbn [obind] in H. auto. }
  destruct Hs4 as (s4 & (Hl4 & Hc4 & Hp4) & H4).
  apply obind_Ok in H4 as [t [_ H4]]. apply obind_Ok in H4 as [s5 [Em H4]].
  injection H4 as _ <-.
  assert (Hx : line (fst s5) = line (fst s4) /\ col (fst s5) = col (fst s4)
               /\ pos (fst s5) = pos (fst s4)).
  { destruct (type_eqb (type t) JSMN_OBJECT).
    - apply modify_ref_cursor in Em as (A & B & C). auto.
    - injection Em as <-. auto. }
  destruct Hx as (A & B & C). unfold moved_along. rewrite A, B, C. split; [exact Hl4|lia].
Qed.

Lemma jsmn_parse_primitive_cursor s r s' :
  jsmn_parse_primitive cfg js len num_tokens s = Ok (r, s') ->
  r = JSMN_SUCCESS \/ r = JSMN_ERROR_NOMEM ->
  moved_along (fst s) (fst s').
Proof.
  intros H Hr. unfold jsmn_parse_primitive in H. inv_bind H.
  destruct x as [p|r0].
  2:{ injection H as <- <-. apply primitive_scan_failed in E. subst r0.
      destruct Hr; discriminate. }
  inv_bind H. destruct x as [[token res] s1]. inv_bind H.
  pose proof (alloc_or_tokbuf_cursor _ _ _ _ _ _ E0) as (Hp1 & Hc1 & Hl1).
  cbn in Hp1, Hc1, Hl1.
  pose proof (modify_ref_cursor _ _ _ _ E1) as (Hp2 & Hc2 & Hl2).
  assert (Hx : line (fst s') = line (fst x) /\ col (fst s') = col (fst x)
               /\ pos (fst s') = pos (fst x)).
  { destruct (JSMN_PARENT_LINKS cfg).
    - apply obind_Ok in H as [s5 [Em H]]. injection H as _ <-.
      apply modify_ref_cursor in Em as (A & B & C). auto.
    - injection H as _ <-. auto. }
  destruct Hx as (A & B & C). unfold moved_along.
  rewrite A, B, C, Hl2, Hc2, Hp2, Hl1, Hc1, Hp1. split; [reflexivity|lia].
Qed.

Lemma close_walk_cursor fuel ty s i s' :
  close_walk fuel ty s i = Ok (Continue s') ->
  pos (fst s') = pos (fst s) /\ col (fst s') = col (fst s)
  /\ line (fst s') = line (fst s).
Proof.
  revert i. induction fuel as [|fuel IH]; intros i H; simpl in H;
    inv_bind H;
    (destruct (is_open x);
     [destruct (negb (type_eqb (type x) ty)); [discriminate|];
      inv_bind H; injection H as <-; auto|]);
    (destruct (parent x =? -1);
     [destruct (negb (type_eqb (type x) ty) || (toksuper (fst s) =? -1));
      [discriminate|]; injection H as <-; auto|]);
    [discriminate|].
  eapply IH; eauto.
Qed.

(** Outside whitespace the column follows the cursor: a pass through the
    loop body on a byte that is no whitespace, if it does not return,
    leaves the line as it is and adds to the column what it adds to the
    cursor. *)
Theorem column_follows_cursor s s' c :
  rd js (pos (fst s)) = Ok c -> classify c <> CSpace ->
  driver_step cfg js len num_tokens s = Ok (Continue s') ->
  line (fst s') = line (fst s)
  /\ col (fst s') - col (fst s) = pos (fst s') - pos (fst s).
Proof.
  intros Hc Hcl H. unfold driver_step in H. rewrite Hc in H. cbn [obind] in H.
  apply fbind_Continue in H as [sd [E H]].
  injection H as <-. cbn [fst snd set_last_is_comma line col pos].
  change (moved_along (fst s) (fst sd)).
  unfold dispatch in E. destruct (classify c) eqn:Hclass; try contradiction.
  - unfold open_container in E.
    destruct (negb (JSMN_TESTMODE cfg) && (toknext (fst s) =? 0) && negb (c =? 123));
      [discriminate|].
    apply obind_Ok in E as [[slot s1] [Ea E]].
    destruct slot as [token|]; [|discriminate].
    apply alloc_cursor in Ea as (Hp1 & Hc1 & Hl1).
    apply fbind_Continue in E as [s2 [Eb E]].
    apply obind_Ok in E as [tk [_ E]]. injection E as <-.
    assert (Hx : fst s2 = fst s1).
    { destruct (negb (toksuper (fst s1) =? -1)).
      - apply obind_Ok in Eb as [t [_ Eb]].
        destruct (type_eqb (type t) JSMN_OBJECT); [discriminate|].
        apply obind_Ok in Eb as [tk1 [_ Eb]]. apply obind_Ok in Eb as [tk2 [_ Eb]].
        injection Eb as <-. reflexivity.
      - destruct (toknext (fst s1) >? 1); [discriminate|]. injection Eb as <-.
        reflexivity. }
    unfold moved_along. cbn. rewrite Hx, Hl1, Hc1, Hp1. split; [reflexivity|lia].
  - unfold close_container, close_container_links, close_container_scan in E.
    destruct (JSMN_PARENT_LINKS cfg).
    + destruct (toknext (fst s) <? 1); [discriminate|].
      apply obind_Ok in E as [t [_ E]]. destruct (is_key t); [discriminate|].
      destruct (JSMN_NO_TRAILING_COMMAS cfg && last_is_comma (fst s)); [discriminate|].
      apply fbind_Continue in E as [s1 [Ew E]]. injection E as <-.
      apply close_walk_cursor in Ew as (A & B & C).
      unfold moved_along. cbn. rewrite A, B, C. split; [reflexivity|lia].
    + apply obind_Ok in E as [t [_ E]]. destruct (is_key t); [discriminate|].
      apply obind_Ok in E as [i [_ E]]. destruct (i =? -1); [discriminate|].
      apply obind_Ok in E as [ti [_ E]].
      destruct (negb (type_eqb (type ti) _)); [discriminate|].
      apply obind_Ok in E as [tk [_ E]]. apply obind_Ok in E as [j [_ E]].
      injection E as <-.
      unfold moved_along. destruct (j =? -1); cbn; (split; [reflexivity|lia]).
  - apply obind_Ok in E as [[r s1] [Es E]].
    pose proof (attach_spec _ _ _ _ _ _ E) as (-> & _ & _).
    apply attach_continue in E as ->.
    eapply jsmn_parse_string_cursor; [exact Es|left; reflexivity].
  - unfold colon in E. apply obind_Ok in E as [t [_ E]].
    destruct (negb (is_key t)); [discriminate|].
    injection E as <-. unfold moved_along. cbn. split; [reflexivity|lia].
  - unfold comma in E. apply obind_Ok in E as [t [_ E]].
    destruct (is_key t || last_is_comma (fst s)); [discriminate|].
    destruct (JSMN_NO_TRAILING_COMMAS cfg && _); [discriminate|].
    apply obind_Ok in E as [p1 [Ep E]]. injection E as <-.
    assert (Hx : pos p1 = pos (fst s) /\ col p1 = col (fst s) /\ line p1 = line (fst s)).
    { destruct (negb (toksuper (fst s) =? -1)); [|injection Ep as <-; auto].
      apply obind_Ok in Ep as [sup [_ Ep]].
      destruct (type_val (type sup) >? type_val JSMN_ARRAY); [|injection Ep as <-; auto].
      destruct (JSMN_PARENT_LINKS cfg); [injection Ep as <-; auto|].
      apply obind_Ok in Ep as [i [_ Ep]]. injection Ep as <-.
      destruct (i =? -1); auto. }
    destruct Hx as (A & B & C). unfold moved_along. cbn. rewrite A, B, C.
    split; [reflexivity|lia].
  - apply obind_Ok in E as [ok [_ E]]. destruct (negb ok); [discriminate|].
    apply obind_Ok in E as [[r s1] [Es E]].
    pose proof (attach_spec _ _ _ _ _ _ E) as (-> & _ & _).
    apply attach_continue in E as ->.
    eapply jsmn_parse_primitive_cursor; [exact Es|left; reflexivity].
  - discriminate.
Qed.

Lemma jsmn_parse_string_failure s r s' :
  r <> JSMN_SUCCESS -> r <> JSMN_ERROR_NOMEM ->
  jsmn_parse_string cfg js len num_tokens s = Ok (r, s') ->
  s' = s /\ (r = JSMN_ERROR_INVAL \/ r = JSMN_ERROR_UNCLOSED_STRING).
Proof.
  intros Hs Hn H.
  pose proof (jsmn_parse_string_spec _ _ _ _ _ _ _ H) as [Hr | ([?|?] & _)];
    [|contradiction|contradiction].
  split; [|exact Hr]. unfold jsmn_parse_string in H. inv_bind H.
  destruct x as [p|r0]; [|injection H as _ <-; reflexivity].
  exfalso. inv_bind H. destruct x as [[token res] s1].
  assert (Hres : res = JSMN_SUCCESS \/ res = JSMN_ERROR_NOMEM).
  { unfold alloc_or_tokbuf in E0. apply obind_Ok in E0 as [[slot s2] [_ E0]].
    destruct slot; injection E0 as _ <- _; auto. }
  inv_bind H. inv_bind H. inv_bind H. inv_bind H. injection H as Hrr _.
  subst r. destruct Hres; contradiction.
Qed.

Lemma jsmn_parse_primitive_failure s r s' :
  r <> JSMN_SUCCESS -> r <> JSMN_ERROR_NOMEM ->
  jsmn_parse_primitive cfg js len num_tokens s = Ok (r, s') ->
  s' = s /\ r = JSMN_ERROR_UNEXPECTED_EOF.
Proof.
  intros Hs Hn H. unfold jsmn_parse_primitive in H. inv_bind H.
  destruct x as [p|r0].
  - exfalso. inv_bind H. destruct x as [[token res] s1].
    assert (Hres : res = JSMN_SUCCESS \/ res = JSMN_ERROR_NOMEM).
    { unfold alloc_or_tokbuf in E0. apply obind_Ok in E0 as [[slot s2] [_ E0]].
      destruct slot; injection E0 as _ <- _; auto. }
    inv_bind H. inv_bind H. injection H as Hrr _.
    subst r. destruct Hres; contradiction.
  - injection H as <- <-. apply primitive_scan_failed in E. split; [|exact E].
    destruct s as [ps ts]. cbn [fst snd]. rewrite set_pos_same. reflexivity.
Qed.

(** A scanner that fails has not touched the parser or the pool, and the
    codes it can fail with are InvalidCharacter and UnclosedString for the
    string scanner, UnexpectedEndOfInput for the primitive scanner. *)
Theorem scanner_failure_leaves_state s r s' :
  r <> JSMN_SUCCESS -> r <> JSMN_ERROR_NOMEM ->
  (jsmn_parse_string cfg js len num_tokens s = Ok (r, s') ->
   s' = s /\ (r = JSMN_ERROR_INVAL \/ r = JSMN_ERROR_UNCLOSED_STRING))
  /\ (jsmn_parse_primitive cfg js len num_tokens s = Ok (r, s') ->
      s' = s /\ r = JSMN_ERROR_UNEXPECTED_EOF).
Proof.
  intros Hs Hn. split.
  - apply jsmn_parse_string_failure; assumption.
  - apply jsmn_parse_primitive_failure; assumption.
Qed.
End Cursor.

(** ** Runs on concrete inputs *)

Lemma driver_step_advances_witness :
  pos (fst (jsmn_init default_build zero_token, pool 1)) < pos (fst after_brace).
Proof.
  apply (driver_step_advances default_build (bytes "{}") 2 1).
  vm_compute. reflexivity.
Defined.



Lemma unicode_escape_over_read_witness :
  jsmn_parse default_build cut_escape 5 1
    (jsmn_init default_build zero_token) (pool 1)
  = Crash (BadByteIndex 5).
Proof.
  refine (unicode_escape_reads_past_buffer default_build cut_escape 5 1
            (jsmn_init default_build zero_token) (pool 1)
            (jsmn_init default_build zero_token, pool 1)
            (jsmn_init default_build zero_token, pool 1) 1 2
            eq_refl _ _ eq_refl _ _ eq_refl eq_refl _ _ eq_refl).
  - apply reaches_here.
  - reflexivity.
  - apply sreaches_here.
  - reflexivity.
  - split; [discriminate|reflexivity].
  - intros i Hi. assert (i = 0 \/ i = 1) as [-> | ->] by lia.
    + exists 49. split; reflexivity.
    + exists 50. split; reflexivity.
Defined.

(** ** Faults of a call *)

Lemma within_bind {A B} T (P : A -> Prop) (Q : B -> Prop) m k :
  within T P m -> (forall a, P a -> within T Q (k a)) ->
  within T Q (obind m k).
Proof. destruct m; simpl; auto. Qed.

Lemma within_fbind T (P Q : flow -> Prop) m k :
  within T P m -> (forall s, P (Continue s) -> within T Q (k s)) ->
  (forall r s, P (Return r s) -> Q (Return r s)) ->
  within T Q (fbind m k).
Proof.
  intros Hm Hk Hr. unfold fbind. eapply within_bind; [exact Hm|].
  intros [s|r s] H; simpl; auto.
Qed.

Lemma within_weaken {A} T (P Q : A -> Prop) o :
  within T P o -> (forall a, P a -> Q a) -> within T Q o.
Proof. destruct o; simpl; auto. Qed.

Lemma within_eq {A} T (P : A -> Prop) o :
  within T P o -> within T (fun a => P a /\ o = Ok a) o.
Proof. destruct o; simpl; auto. Qed.

Section Safety.
Variable cfg : config.
Variable js : list Z.
Variable len : Z.
Variable num_tokens : Z.
Variable L : nat.

Local Abbreviation ok := (within (tolerated js len num_tokens L)).
Local Abbreviation frame := (frame_ok cfg L).

(** *** Bytes *)

Lemma rd_within p :
  0 <= p <= len + 3 ->
  (len < p -> exists h, rd js len = Ok h /\ ishexdigit h = true) ->
  ok (fun c => rd js p = Ok c) (rd js p).
Proof.
  intros Hp Hh. unfold rd. destruct (Z.ltb_spec p 0) as [Hlt|Hge]; [lia|].
  destruct (js !! Z.to_nat p) eqn:E; simpl; [reflexivity|].
  right. left. exists p. split; [reflexivity|]. split; [|exact Hh].
  apply lookup_ge_None in E. lia.
Qed.

Lemma rd_inside p : 0 <= p <= len -> ok (fun c => rd js p = Ok c) (rd js p).
Proof. intros Hp. apply rd_within; lia. Qed.

Lemma hex_digits_within n p :
  0 <= p -> p + Z.of_nat n <= len + 4 ->
  (len < p -> exists h, rd js len = Ok h /\ ishexdigit h = true) ->
  ok (fun _ => True) (hex_digits js n p).
Proof.
  revert p. induction n as [|n IH]; intros p Hp Hn Hh; simpl; [exact I|].
  eapply within_bind; [apply rd_within; [lia|exact Hh]|].
  intros c Hc. destruct (c =? 10); [exact I|].
  destruct (ishexdigit c) eqn:Ehex; simpl; [|exact I].
  apply IH; [lia|lia|]. intros Hlt.
  destruct (Z.eq_dec p len) as [->|Hne]; [eauto|]. apply Hh. lia.
Qed.

Lemma string_body_within c p :
  0 <= p -> ok (fun _ => True) (string_body js len c p).
Proof.
  intros Hp. unfold string_body.
  destruct (c =? 92); cbn [andb]; [|exact I].
  destruct (Z.ltb_spec (p + 1) len) as [Hlt|Hge]; [|exact I].
  unfold string_escape. eapply within_bind; [apply rd_inside; lia|].
  intros c' _. destruct (is_simple_escape c'); [exact I|].
  destruct (c' =? 117); [|exact I].
  apply hex_digits_within; simpl; lia.
Qed.

Lemma string_scan_within fuel p :
  0 <= p -> ok (fun _ => True) (string_scan js len fuel p).
Proof.
  revert p. induction fuel as [|fuel IH]; intros p Hp; simpl;
    (destruct (Z.ltb_spec p len) as [Hlt|Hge]; [|exact I]);
    (eapply within_bind; [apply rd_inside; lia|]);
    intros c _; (destruct (c =? 0); [exact I|]);
    (destruct (c =? 34); [exact I|]);
    (eapply within_bind;
       [apply within_eq, string_body_within; exact Hp|]);
    intros [p'|r] [_ Hb]; try exact I.
  - right. right. reflexivity.
  - apply IH. apply string_body_found in Hb. lia.
Qed.

Lemma primitive_scan_within fuel p :
  0 <= p -> ok (fun _ => True) (primitive_scan js len fuel p).
Proof.
  revert p. induction fuel as [|fuel IH]; intros p Hp; simpl;
    (destruct (Z.ltb_spec p len) as [Hlt|Hge]; [|exact I]);
    (eapply within_bind; [apply rd_inside; lia|]);
    intros c _; (destruct (c =? 0); [exact I|]);
    (destruct (is_terminator c); [exact I|]).
  - right. right. reflexivity.
  - apply IH. lia.
Qed.

(** *** Tokens *)

Lemma load_within tokens i :
  length tokens = L -> -1 <= i < Z.max (Z.of_nat L) num_tokens ->
  ok (fun t => 0 <= i /\ tokens !! Z.to_nat i = Some t) (load tokens i).
Proof.
  intros HL Hi. unfold load. destruct (Z.ltb_spec i 0) as [Hlt|Hge].
  - simpl. left. left. f_equal. lia.
  - destruct (tokens !! Z.to_nat i) eqn:E; simpl; [auto|].
    apply lookup_ge_None in E. left. right. exists i. split; [reflexivity|lia].
Qed.

Lemma modify_within tokens i f :
  length tokens = L -> -1 <= i < Z.max (Z.of_nat L) num_tokens ->
  ok (fun ts => 0 <= i /\ length ts = L
                /\ exists t, tokens !! Z.to_nat i = Some t
                             /\ ts = <[Z.to_nat i := f t]> tokens)
     (modify tokens i f).
Proof.
  intros HL Hi. unfold modify.
  eapply within_bind; [apply load_within; [exact HL|exact Hi]|].
  intros t [H0 Ht]. simpl. split; [exact H0|].
  split; [rewrite length_insert; exact HL|eauto].
Qed.

Lemma find_down_within P tokens n :
  (n <= length tokens)%nat ->
  ok (fun i => -1 <= i < Z.of_nat n) (find_down P tokens n).
Proof.
  intros Hn. destruct (find_down_spec P tokens n Hn) as (i & -> & Hi). simpl.
  destruct Hi as [[-> _] | [Hi _]]; lia.
Qed.

End Safety.

Section Frames.
Variable cfg : config.
Variable js : list Z.
Variable len : Z.
Variable num_tokens : Z.
Variable L : nat.

Local Abbreviation ok := (within (tolerated js len num_tokens L)).
Local Abbreviation frame := (frame_ok cfg L).

Lemma frame_parser p p' tokens :
  frame (p, tokens) -> 0 <= pos p' -> toknext p' = toknext p ->
  -1 <= toksuper p' < toknext p ->
  (JSMN_PARENT_LINKS cfg = true -> -1 <= parent (tokbuf p') < toknext p) ->
  frame (p', tokens).
Proof.
  intros [(Hpos & Hsup & Hn & Hl) HL] Hpos' Hn' Hsup' Hbuf.
  cbn [fst snd] in *. split; [|exact HL]. unfold links_ok. cbn [fst snd].
  rewrite Hn'. split; [exact Hpos'|]. split; [exact Hsup'|]. split; [exact Hn|].
  intros Hlinks. split; [auto|]. apply (Hl Hlinks).
Qed.

Lemma frame_modify p tokens i t t' :
  frame (p, tokens) -> 0 <= i -> tokens !! Z.to_nat i = Some t ->
  (JSMN_PARENT_LINKS cfg = true -> i < toknext p -> -1 <= parent t' < i) ->
  frame (p, <[Z.to_nat i := t']> tokens).
Proof.
  intros [(Hpos & Hsup & Hn & Hl) HL] Hi Ht Hp.
  cbn [fst snd] in *. split; [|cbn [snd]; rewrite length_insert; exact HL].
  unfold links_ok. cbn [fst snd]. rewrite length_insert.
  split; [exact Hpos|]. split; [exact Hsup|]. split; [exact Hn|].
  intros Hlinks. destruct (Hl Hlinks) as [Hbuf Hall]. split; [exact Hbuf|].
  intros j tj Hj Hlook.
  apply lookup_insert_Z in Hlook as [[-> ->] | [_ Hlook]]; [|  |lia|lia].
  - apply Hp; [exact Hlinks|lia].
  - eapply Hall; eauto.
Qed.

Lemma frame_modify_same p tokens i t t' :
  frame (p, tokens) -> 0 <= i -> tokens !! Z.to_nat i = Some t ->
  parent t' = parent t ->
  frame (p, <[Z.to_nat i := t']> tokens).
Proof.
  intros Hf Hi Ht Hp. eapply frame_modify; eauto.
  intros Hlinks Hlt. rewrite Hp.
  destruct Hf as [(_ & _ & _ & Hl) _]. destruct (Hl Hlinks) as [_ Hall].
  eapply Hall; eauto.
Qed.

Lemma frame_pos s : frame s -> 0 <= pos (fst s).
Proof. intros [(H & _) _]. exact H. Qed.

Lemma frame_toksuper s : frame s -> -1 <= toksuper (fst s) < toknext (fst s).
Proof. intros [(_ & H & _) _]. exact H. Qed.

Lemma frame_toknext s : frame s -> 0 <= toknext (fst s) <= Z.of_nat L.
Proof. intros [(_ & H & Hn & _) HL]. rewrite <- HL. lia. Qed.

Lemma frame_length s : frame s -> length (snd s) = L.
Proof. intros [_ H]. exact H. Qed.

Lemma frame_alloc p tokens t t' :
  frame (p, tokens) -> tokens !! Z.to_nat (toknext p) = Some t ->
  (JSMN_PARENT_LINKS cfg = true -> -1 <= parent t' < toknext p) ->
  frame (set_toknext (toknext p + 1) p, <[Z.to_nat (toknext p) := t']> tokens).
Proof.
  intros [(Hpos & Hsup & Hn & Hl) HL] Ht Hp. cbn [fst snd] in *.
  assert (Hlen : toknext p < Z.of_nat (length tokens)).
  { apply lookup_lt_Some in Ht. lia. }
  split; [|cbn [snd]; rewrite length_insert; exact HL].
  unfold links_ok. cbn [fst snd set_toknext pos toksuper toknext tokbuf].
  rewrite length_insert.
  split; [exact Hpos|]. split; [lia|]. split; [lia|].
  intros Hlinks. destruct (Hl Hlinks) as [Hbuf Hall]. split; [lia|].
  intros j tj Hj Hlook.
  apply lookup_insert_Z in Hlook as [[<- ->] | [Hne Hlook]]; [| |lia|lia].
  - apply Hp. exact Hlinks.
  - eapply Hall; [|exact Hlook]. lia.
Qed.

Lemma alloc_within s :
  frame s ->
  ok (fun r => frame (snd r) /\ pos (fst (snd r)) = pos (fst s)
               /\ toksuper (fst (snd r)) = toksuper (fst s)
               /\ tokbuf (fst (snd r)) = tokbuf (fst s)
               /\ match fst r with
                  | None => snd r = s
                  | Some i => i = toknext (fst s)
                              /\ toknext (fst (snd r)) = i + 1
                  end)
     (jsmn_alloc_token cfg num_tokens s).
Proof.
  intros Hf. pose proof (frame_toknext _ Hf) as Hn.
  pose proof (frame_length _ Hf) as HL.
  destruct s as [p tokens]. cbn [fst snd] in *. unfold jsmn_alloc_token.
  destruct (toknext p >=? num_tokens) eqn:Ege; [simpl; auto|].
  assert (Hlt : toknext p < num_tokens) by lia.
  eapply within_bind; [apply modify_within; [exact HL|lia]|].
  intros ts (_ & HLt & t & Ht & ->). simpl.
  split; [|split; [reflexivity|split; [reflexivity|split; [reflexivity|split; reflexivity]]]].
  apply (frame_alloc _ _ t); [exact Hf|exact Ht|].
  intros Hlinks. unfold jsmn_init_token. rewrite Hlinks. simpl. lia.
Qed.

Lemma modify_ref_within r f s :
  frame s ->
  match r with Slot i => 0 <= i < toknext (fst s) | Tokbuf => True end ->
  (JSMN_PARENT_LINKS cfg = true ->
   forall t, parent (f t) = parent t
             \/ -1 <= parent (f t) < match r with
                                     | Slot i => i
                                     | Tokbuf => toknext (fst s)
                                     end) ->
  ok (fun s' => frame s' /\ same_indices s s') (modify_ref r f s).
Proof.
  intros Hf Hr Hp. pose proof (frame_toknext _ Hf) as Hn.
  pose proof (frame_toksuper _ Hf) as Hsup.
  pose proof (frame_pos _ Hf) as Hpos.
  pose proof (frame_length _ Hf) as HL.
  destruct s as [p tokens]. cbn [fst snd] in *.
  destruct r as [i|]; simpl.
  - eapply within_bind; [apply modify_within; [exact HL|lia]|].
    intros ts (_ & _ & t & Ht & ->). simpl.
    split; [|repeat split].
    eapply frame_modify; [exact Hf|lia|exact Ht|].
    intros Hlinks _. destruct (Hp Hlinks t) as [E|E]; [|exact E].
    rewrite E. destruct Hf as [(_ & _ & _ & Hl) _].
    destruct (Hl Hlinks) as [_ Hall]. eapply Hall; eauto.
  - split; [|repeat split].
    eapply frame_parser; [exact Hf|exact Hpos|reflexivity|exact Hsup|].
    intros Hlinks. cbn [tokbuf set_tokbuf].
    destruct (Hp Hlinks (tokbuf p)) as [E|E]; [|exact E].
    rewrite E. destruct Hf as [(_ & _ & _ & Hl) _].
    destruct (Hl Hlinks) as [Hbuf _]. exact Hbuf.
Qed.

Lemma alloc_or_tokbuf_within s :
  frame s ->
  ok (fun r => frame (snd r) /\ pos (fst (snd r)) = pos (fst s)
               /\ toksuper (fst (snd r)) = toksuper (fst s)
               /\ match fst (fst r) with
                  | Slot i => i = toknext (fst s)
                              /\ toknext (fst (snd r)) = i + 1
                  | Tokbuf => snd r = s
                  end)
     (alloc_or_tokbuf cfg num_tokens s).
Proof.
  intros Hf. unfold alloc_or_tokbuf.
  eapply within_bind; [apply alloc_within; exact Hf|].
  intros [slot s1] (Hf1 & Hp & Hs & _ & Hslot). cbn [fst snd] in *.
  destruct slot; simpl; auto.
Qed.

End Frames.

Section Handlers.
Variable cfg : config.
Variable js : list Z.
Variable len : Z.
Variable num_tokens : Z.
Variable L : nat.

Local Abbreviation ok := (within (tolerated js len num_tokens L)).
Local Abbreviation frame := (frame_ok cfg L).
Local Abbreviation flows := (flow_ok cfg L).

Lemma frame_cursor p p' tokens :
  frame (p, tokens) -> 0 <= pos p' -> toknext p' = toknext p ->
  toksuper p' = toksuper p -> tokbuf p' = tokbuf p ->
  frame (p', tokens).
Proof.
  intros Hf Hpos Hn Hs Hb. pose proof (frame_toksuper _ _ _ Hf) as Hsup.
  eapply frame_parser; [exact Hf|exact Hpos|exact Hn| |].
  - rewrite Hs. exact Hsup.
  - intros Hlinks. rewrite Hb. destruct Hf as [(_ & _ & _ & Hl) _].
    exact (proj1 (Hl Hlinks)).
Qed.

Lemma jsmn_parse_primitive_within s :
  frame s -> ok (fun r => frame (snd r)) (jsmn_parse_primitive cfg js len num_tokens s).
Proof.
  intros Hf. pose proof (frame_pos _ _ _ Hf) as Hpos.
  pose proof (frame_toksuper _ _ _ Hf) as Hsup.
  pose proof (frame_toknext _ _ _ Hf) as Hn.
  destruct s as [p0 tokens]. cbn [fst snd] in *.
  unfold jsmn_parse_primitive. cbn [fst snd].
  eapply within_bind; [apply within_eq, primitive_scan_within; exact Hpos|].
  intros [p|r] [_ Hsc].
  2:{ simpl. eapply frame_cursor; [exact Hf|exact Hpos|reflexivity..]. }
  apply primitive_scan_found in Hsc as [Hge _].
  eapply within_bind.
  { apply alloc_or_tokbuf_within.
    eapply frame_cursor; [exact Hf|cbn; lia|reflexivity..]. }
  intros [[token res] s1] (Hf1 & Hp1 & Hs1 & Htok). cbn [fst snd] in *.
  cbn [toksuper toknext set_col set_pos] in Hs1, Htok.
  eapply within_bind.
  { apply modify_ref_within; [exact Hf1| |intros _ t; left; reflexivity].
    destruct token; cbv iota in Htok; [lia|exact I]. }
  intros s2 (Hf2 & Hp2 & Hs2 & Hn2).
  destruct (JSMN_PARENT_LINKS cfg) eqn:Hlinks; [|simpl; exact Hf2].
  eapply within_bind.
  { apply modify_ref_within; [exact Hf2| |].
    - destruct token; cbv iota in Htok; [lia|exact I].
    - intros _ t. right. simpl parent. rewrite Hs2, Hs1.
      destruct token as [i|]; cbv iota in Htok; [lia|].
      rewrite Hn2, Htok. cbn. lia. }
  intros s3 [Hf3 _]. simpl. exact Hf3.
Qed.

Lemma jsmn_parse_string_within s :
  frame s -> ok (fun r => frame (snd r)) (jsmn_parse_string cfg js len num_tokens s).
Proof.
  intros Hf. pose proof (frame_pos _ _ _ Hf) as Hpos.
  pose proof (frame_toksuper _ _ _ Hf) as Hsup.
  pose proof (frame_toknext _ _ _ Hf) as Hn.
  unfold jsmn_parse_string.
  eapply within_bind; [apply within_eq, string_scan_within; lia|].
  intros [p|r] [_ Hsc]; [|simpl; exact Hf].
  apply string_scan_found in Hsc.
  eapply within_bind; [apply alloc_or_tokbuf_within; exact Hf|].
  intros [[token res] s1] (Hf1 & Hp1 & Hs1 & Htok). cbn [fst snd] in *.
  assert (Hf1' : frame (set_pos p (fst s1), snd s1)).
  { destruct s1 as [p1 t1]. eapply frame_cursor; [exact Hf1|cbn; lia|reflexivity..]. }
  assert (Hn1 : toksuper (fst s1) < match token with
                                    | Slot i => i
                                    | Tokbuf => toknext (fst s1)
                                    end
                /\ match token with
                   | Slot i => 0 <= i < toknext (fst s1)
                   | Tokbuf => True
                   end).
  { destruct token as [i|]; cbv iota in Htok; [lia|]. rewrite Htok. lia. }
  destruct Hn1 as [Hb1 Hr1].
  eapply within_bind.
  { apply modify_ref_within; [exact Hf1'| |intros _ t; left; reflexivity].
    destruct token; [exact Hr1|exact I]. }
  intros s2 (Hf2 & Hp2 & Hs2 & Hn2). cbn [fst snd set_pos pos toksuper toknext] in *.
  set (s3 := (set_col _ _, snd s2)).
  assert (Hf3 : frame s3 /\ toksuper (fst s3) = toksuper (fst s2)
                /\ toknext (fst s3) = toknext (fst s2)).
  { subst s3. split; [|split; reflexivity]. destruct s2 as [p2 t2].
    cbn [fst snd] in *.
    eapply frame_cursor; [exact Hf2|cbn; lia|reflexivity..]. }
  clearbody s3. destruct Hf3 as (Hf3 & Hs3 & Hn3).
  assert (Hrest : forall s4, frame s4 -> toknext (fst s4) = toknext (fst s1) ->
            ok (fun r => frame (snd r))
               (let* t := load (snd s4) (toksuper (fst s4)) in
                let* s := (if type_eqb (type t) JSMN_OBJECT
                            then modify_ref token (set_is_key true) s4
                            else Ok s4) in Ok (res, s))).
  { intros s4 Hf4 Hn4. pose proof (frame_toksuper _ _ _ Hf4) as Hsup4.
    pose proof (frame_toknext _ _ _ Hf4) as Hnx4.
    eapply within_bind;
      [apply load_within; [apply (frame_length _ _ _ Hf4)|lia]|].
    intros t _. destruct (type_eqb (type t) JSMN_OBJECT); [|simpl; exact Hf4].
    eapply within_bind.
    { apply modify_ref_within; [exact Hf4| |intros _ t'; left; reflexivity].
      destruct token; cbv iota in Htok; [lia|exact I]. }
    intros s5 [Hf5 _]. simpl. exact Hf5. }
  destruct (JSMN_PARENT_LINKS cfg) eqn:Hlinks.
  - eapply within_bind.
    { apply modify_ref_within; [exact Hf3| |].
      - destruct token; cbv iota in Htok; [lia|exact I].
      - intros _ t. right. simpl parent. rewrite ?Hs3, ?Hs2.
        destruct token as [i|]; cbv iota in Hb1; [lia|].
        rewrite Hn3, Hn2. lia. }
    intros s4 (Hf4 & _ & _ & Hn4). apply Hrest; [exact Hf4|]. lia.
  - cbn [obind]. apply Hrest; [exact Hf3|]. lia.
Qed.

Lemma ws_switch_within parser p :
  0 <= p < len ->
  ok (fun sw => match sw with
                | WsBreak parser' p' =>
                    p <= p' <= p + 1 /\ pos parser' = pos parser
                    /\ toknext parser' = toknext parser
                    /\ toksuper parser' = toksuper parser
                    /\ tokbuf parser' = tokbuf parser
                | _ => True
                end) (ws_switch js parser p).
Proof.
  intros Hp. unfold ws_switch.
  eapply within_bind; [apply rd_inside; lia|]. intros c _.
  destruct (c =? 13).
  - eapply within_bind; [apply rd_inside; lia|]. intros c' _.
    destruct (negb (c' =? 10)); simpl; [exact I|]. repeat split; lia.
  - destruct (c =? 10); [simpl; repeat split; lia|].
    destruct (is_blank c); simpl; [repeat split; lia|exact I].
Qed.

Lemma ws_loop_within fuel parser p :
  0 <= p < len ->
  ok (fun r => (pos (snd r) = pos parser \/ 0 <= pos (snd r))
               /\ toknext (snd r) = toknext parser
               /\ toksuper (snd r) = toksuper parser
               /\ tokbuf (snd r) = tokbuf parser)
     (ws_loop js len fuel parser p).
Proof.
  revert parser p. induction fuel as [|fuel IH]; intros parser p Hp;
    rewrite ws_loop_unfold;
    (eapply within_bind; [apply ws_switch_within; exact Hp|]);
    (intros [parser' p'| |] Hsw; [|simpl; repeat split; right; lia|simpl; auto]);
    destruct Hsw as (Hp' & Hpos & Hn & Hs & Hb);
    (destruct (Z.ltb_spec (p' + 1) len) as [Hlt|Hge];
     [|simpl; repeat split; auto; right; lia]);
    (eapply within_bind; [apply rd_inside; lia|]); intros c _;
    (destruct (c =? 0); [simpl; repeat split; auto; right; lia|]).
  - right. right. reflexivity.
  - eapply within_weaken; [apply IH; lia|].
    intros [r parser''] (Hpos'' & Hn'' & Hs'' & Hb''). cbn [fst snd] in *.
    cbn in Hpos'', Hn'', Hs'', Hb''.
    rewrite Hn'', Hs'', Hb'', Hn, Hs, Hb. split; [|auto].
    destruct Hpos'' as [E|E]; [left; lia|right; exact E].
Qed.

Lemma attach_within line0 col0 start0 r s :
  frame s -> 0 <= start0 -> ok flows (attach line0 col0 start0 r s).
Proof.
  intros Hf Hstart. pose proof (frame_toksuper _ _ _ Hf) as Hsup.
  pose proof (frame_toknext _ _ _ Hf) as Hn.
  pose proof (frame_length _ _ _ Hf) as HL.
  assert (Hinner :
    ok flows
       (if negb (toksuper (fst s) =? -1) then
          let* t := load (snd s) (toksuper (fst s)) in
          match type t with
          | JSMN_OBJECT | JSMN_ARRAY =>
              let* tokens := modify (snd s) (toksuper (fst s)) incr_size in
              Ok (Continue (fst s, tokens))
          | JSMN_STRING =>
              if is_key t && negb (associated t) then
                let* tokens := modify (snd s) (toksuper (fst s))
                                 (set_associated true) in
                Ok (Continue (fst s, tokens))
              else Ok (Return JSMN_ERROR_UNEXPECTED_CHAR
                         (set_tokbuf
                            (set_type JSMN_UNDEFINED
                               (tokbuf (set_pos start0
                                          (set_col col0 (set_line line0 (fst s))))))
                            (set_pos start0 (set_col col0 (set_line line0 (fst s)))),
                          snd s))
          | _ => Ok (Return JSMN_ERROR_UNEXPECTED_CHAR
                       (set_tokbuf
                          (set_type JSMN_UNDEFINED
                             (tokbuf (set_pos start0
                                        (set_col col0 (set_line line0 (fst s))))))
                          (set_pos start0 (set_col col0 (set_line line0 (fst s)))),
                        snd s))
          end
        else Ok (Continue s))).
  { assert (Hrew : frame (set_tokbuf
                            (set_type JSMN_UNDEFINED
                               (tokbuf (set_pos start0
                                          (set_col col0 (set_line line0 (fst s))))))
                            (set_pos start0 (set_col col0 (set_line line0 (fst s)))),
                          snd s)).
    { destruct s as [p0 t0]. cbn [fst snd] in *.
      eapply frame_parser; [exact Hf|exact Hstart|reflexivity|exact Hsup|].
      intros Hlinks. cbn. destruct Hf as [(_ & _ & _ & Hl) _].
      exact (proj1 (Hl Hlinks)). }
    assert (Hmod : forall f, (forall t, parent (f t) = parent t) ->
              ok flows (let* tokens := modify (snd s) (toksuper (fst s)) f in
                        Ok (Continue (fst s, tokens)))).
    { intros f Hfp. eapply within_bind; [apply modify_within; [exact HL|lia]|].
      intros ts (H0 & _ & t & Ht & ->). simpl. unfold flow_ok. cbn [flow_state].
      destruct s as [p0 t0]. cbn [fst snd] in *.
      eapply frame_modify_same; [exact Hf|exact H0|exact Ht|apply Hfp]. }
    destruct (negb (toksuper (fst s) =? -1)); [|simpl; exact Hf].
    eapply within_bind; [apply load_within; [exact HL|lia]|].
    intros t _. destruct (type t); try exact Hrew;
      try (apply Hmod; intros; reflexivity).
    destruct (is_key t && negb (associated t)); [|exact Hrew].
    apply Hmod. intros; reflexivity. }
  unfold attach.
  destruct r; try (simpl; exact Hf);
    (eapply within_fbind; [exact Hinner| |intros r0 s0 H; exact H]);
    intros s1 H1; simpl; exact H1.
Qed.

Lemma advance_frame n p tokens :
  frame (p, tokens) -> 0 <= n -> frame (advance n p, tokens).
Proof.
  intros Hf Hn. pose proof (frame_pos _ _ _ Hf) as Hpos. cbn [fst] in Hpos.
  eapply frame_cursor; [exact Hf|cbn; lia|reflexivity..].
Qed.

Lemma open_container_within c s :
  frame s -> ok flows (open_container cfg num_tokens c s).
Proof.
  intros Hf. pose proof (frame_toksuper _ _ _ Hf) as Hsup.
  pose proof (frame_toknext _ _ _ Hf) as Hn.
  unfold open_container.
  destruct (negb (JSMN_TESTMODE cfg) && (toknext (fst s) =? 0) && negb (c =? 123));
    [simpl; exact Hf|].
  eapply within_bind; [apply alloc_within; exact Hf|].
  intros [slot s1] (Hf1 & Hp1 & Hs1 & Hb1 & Hslot). cbn [fst snd] in *.
  destruct slot as [token|]; [|simpl; exact Hf1].
  destruct Hslot as [Htok Hn1].
  pose proof (frame_length _ _ _ Hf1) as HL1.
  pose proof (frame_toknext _ _ _ Hf1) as Hnx1.
  eapply within_fbind
    with (P := fun fl => flows fl /\ forall s2, fl = Continue s2 -> fst s2 = fst s1).
  - destruct (negb (toksuper (fst s1) =? -1)).
    + eapply within_bind; [apply load_within; [exact HL1|lia]|].
      intros t _. destruct (type_eqb (type t) JSMN_OBJECT).
      { simpl. split; [exact Hf1|discriminate]. }
      eapply within_bind
        with (P := fun ts => frame (fst s1, ts)).
      { destruct (type_eqb (type t) JSMN_ARRAY).
        - eapply within_weaken; [apply modify_within; [exact HL1|lia]|].
          intros ts (H0 & _ & t' & Ht' & ->).
          destruct s1 as [p1 t1]. cbn [fst snd] in *.
          eapply frame_modify_same; [exact Hf1|exact H0|exact Ht'|reflexivity].
        - simpl. destruct s1. exact Hf1. }
      intros ts Hts.
      eapply within_bind
        with (P := fun ts => frame (fst s1, ts)).
      { destruct (JSMN_PARENT_LINKS cfg) eqn:Hlinks; [|simpl; exact Hts].
        pose proof (frame_length _ _ _ Hts) as HLt. cbn [snd] in HLt.
        eapply within_weaken; [apply modify_within; [exact HLt|lia]|].
        intros ts2 (H0 & _ & t' & Ht' & ->).
        eapply frame_modify; [exact Hts|exact H0|exact Ht'|].
        intros _ _. simpl parent. lia. }
      intros ts' Hts'. simpl. split; [exact Hts'|]. intros s2 [= <-]. reflexivity.
    + destruct (toknext (fst s1) >? 1); simpl;
        (split; [exact Hf1|]); [discriminate|]. intros s2 [= <-]. reflexivity.
  - intros s2 [Hf2 Hfst]. specialize (Hfst s2 eq_refl).
    unfold flow_ok in Hf2. cbn [flow_state] in Hf2.
    pose proof (frame_length _ _ _ Hf2) as HL2.
    eapply within_bind; [apply modify_within; [exact HL2|rewrite Htok; lia]|].
    intros ts (H0 & _ & t & Ht & ->). simpl. unfold flow_ok. cbn [flow_state].
    rewrite Hfst. destruct s2 as [p2 t2]. cbn [fst snd] in *. subst p2.
    assert (Hfm : frame (fst s1, <[Z.to_nat token :=
                    set_start (pos (fst s1))
                      (set_unclosed true
                         (set_type (if c =? 123 then JSMN_OBJECT else JSMN_ARRAY) t))]> t2)).
    { eapply frame_modify_same; [exact Hf2|exact H0|exact Ht|reflexivity]. }
    apply advance_frame; [|lia].
    eapply frame_parser; [exact Hfm|cbn; apply (frame_pos _ _ _ Hf1)|reflexivity| |].
    + cbn. lia.
    + intros Hlinks. cbn. destruct Hf1 as [(_ & _ & _ & Hl) _].
      exact (proj1 (Hl Hlinks)).
  - intros r s2 [H _]. exact H.
Qed.

End Handlers.

Section DriverFaults.
Variable cfg : config.
Variable js : list Z.
Variable len : Z.
Variable num_tokens : Z.
Variable L : nat.

Local Abbreviation ok := (within (tolerated js len num_tokens L)).
Local Abbreviation frame := (frame_ok cfg L).
Local Abbreviation flows := (flow_ok cfg L).

Lemma frame_parent s i t :
  frame s -> JSMN_PARENT_LINKS cfg = true -> 0 <= i < toknext (fst s) ->
  snd s !! Z.to_nat i = Some t -> -1 <= parent t < i.
Proof.
  intros [(_ & _ & _ & Hl) _] Hlinks Hi Ht.
  destruct (Hl Hlinks) as [_ Hall]. eapply Hall; eauto.
Qed.

Lemma frame_toksuper_set k p tokens :
  frame (p, tokens) -> -1 <= k < toknext p -> frame (set_toksuper k p, tokens).
Proof.
  intros Hf Hk. eapply frame_parser; [exact Hf| |reflexivity|exact Hk|].
  - apply (frame_pos _ _ _ Hf).
  - intros Hlinks. destruct Hf as [(_ & _ & _ & Hl) _]. exact (proj1 (Hl Hlinks)).
Qed.

Lemma close_walk_within fuel ty s i :
  frame s -> JSMN_PARENT_LINKS cfg = true ->
  0 <= i < toknext (fst s) -> i <= Z.of_nat fuel ->
  ok flows (close_walk fuel ty s i).
Proof.
  intros Hf Hlinks. pose proof (frame_toknext _ _ _ Hf) as Hn.
  pose proof (frame_length _ _ _ Hf) as HL.
  revert i. induction fuel as [|fuel IH]; intros i Hi Hfuel; simpl;
    (eapply within_bind; [apply load_within; [exact HL|lia]|]);
    intros t [_ Ht]; pose proof (frame_parent _ _ _ Hf Hlinks Hi Ht) as Hp;
    (destruct (is_open t);
     [destruct (negb (type_eqb (type t) ty)); [simpl; exact Hf|];
      (eapply within_bind; [apply modify_within; [exact HL|lia]|]);
      intros ts (H0 & _ & t' & Ht' & ->); simpl; unfold flow_ok; cbn [flow_state];
      destruct s as [p0 t0]; cbn [fst snd] in *;
      apply frame_toksuper_set; [|lia];
      eapply frame_modify_same; [exact Hf|exact H0|exact Ht'|reflexivity]|]);
    (destruct (Z.eqb_spec (parent t) (-1)) as [Em|Em];
     [destruct (negb (type_eqb (type t) ty) || (toksuper (fst s) =? -1));
      simpl; exact Hf|]).
  - lia.
  - apply IH; lia.
Qed.

Lemma close_container_links_within ty s :
  frame s -> JSMN_PARENT_LINKS cfg = true ->
  ok flows (close_container_links cfg ty s).
Proof.
  intros Hf Hlinks. pose proof (frame_toknext _ _ _ Hf) as Hn.
  pose proof (frame_length _ _ _ Hf) as HL.
  unfold close_container_links.
  destruct (Z.ltb_spec (toknext (fst s)) 1) as [Hlt|Hge]; [simpl; exact Hf|].
  eapply within_bind; [apply load_within; [exact HL|lia]|].
  intros t _. destruct (is_key t); [simpl; exact Hf|].
  destruct (JSMN_NO_TRAILING_COMMAS cfg && last_is_comma (fst s));
    [simpl; exact Hf|].
  eapply within_fbind with (P := flows).
  - apply close_walk_within; [exact Hf|exact Hlinks|lia|rewrite HL; lia].
  - intros s1 Hf1. simpl. unfold flow_ok in *. cbn [flow_state] in *.
    destruct s1 as [p1 t1]. apply advance_frame; [exact Hf1|lia].
  - intros r s1 H. exact H.
Qed.

Lemma close_container_scan_within ty s :
  frame s -> ok flows (close_container_scan ty s).
Proof.
  intros Hf. pose proof (frame_toknext _ _ _ Hf) as Hn.
  pose proof (frame_length _ _ _ Hf) as HL.
  unfold close_container_scan.
  eapply within_bind; [apply load_within; [exact HL|lia]|].
  intros t _. destruct (is_key t); [simpl; exact Hf|].
  eapply within_bind; [apply find_down_within; lia|].
  intros i Hi. cbv beta in Hi. destruct (Z.eqb_spec i (-1)) as [Ei|Ei]; [simpl; exact Hf|].
  eapply within_bind; [apply load_within; [exact HL|lia]|].
  intros ti _. destruct (negb (type_eqb (type ti) ty)); [simpl; exact Hf|].
  eapply within_bind; [apply modify_within; [exact HL|lia]|].
  intros ts (H0 & HLt & t' & Ht' & ->).
  eapply within_bind; [apply find_down_within; lia|].
  intros j Hj. cbv beta in Hj. simpl. unfold flow_ok. cbn [flow_state].
  destruct s as [p0 t0]. cbn [fst snd] in *.
  assert (Hfm : frame (p0, <[Z.to_nat i := set_unclosed false t']> t0)).
  { eapply frame_modify_same; [exact Hf|exact H0|exact Ht'|reflexivity]. }
  apply advance_frame; [|lia].
  destruct (j =? -1).
  - apply frame_toksuper_set; [exact Hfm|lia].
  - pose proof (frame_toksuper_set j _ _
                  (frame_toksuper_set (-1) _ _ Hfm ltac:(lia))) as H.
    apply H. cbn. lia.
Qed.

Lemma colon_within s : frame s -> ok flows (colon s).
Proof.
  intros Hf. pose proof (frame_toknext _ _ _ Hf) as Hn.
  pose proof (frame_length _ _ _ Hf) as HL.
  unfold colon.
  eapply within_bind; [apply load_within; [exact HL|lia]|].
  intros t [H0 _]. destruct (negb (is_key t)); simpl; [exact Hf|].
  unfold flow_ok. cbn [flow_state]. destruct s as [p0 t0]. cbn [fst snd] in *.
  apply advance_frame; [|lia]. apply frame_toksuper_set; [exact Hf|lia].
Qed.

Lemma comma_within s : frame s -> ok flows (comma cfg s).
Proof.
  intros Hf. pose proof (frame_toknext _ _ _ Hf) as Hn.
  pose proof (frame_toksuper _ _ _ Hf) as Hsup.
  pose proof (frame_length _ _ _ Hf) as HL.
  unfold comma.
  eapply within_bind; [apply load_within; [exact HL|lia]|].
  intros t _. destruct (is_key t || last_is_comma (fst s)); [simpl; exact Hf|].
  destruct (JSMN_NO_TRAILING_COMMAS cfg && _); [simpl; exact Hf|].
  destruct s as [p0 t0]. cbn [fst snd] in *.
  eapply within_bind with (P := fun p1 => frame (p1, t0)).
  - destruct (negb (toksuper p0 =? -1)) eqn:Esup; [|simpl; exact Hf].
    eapply within_bind; [apply load_within; [exact HL|lia]|].
    intros sup [H0 Hsup']. destruct (type_val (type sup) >? type_val JSMN_ARRAY);
      [|simpl; exact Hf].
    destruct (JSMN_PARENT_LINKS cfg) eqn:Hlinks.
    + simpl. apply frame_toksuper_set; [exact Hf|].
      assert (Hr : 0 <= toksuper p0 < toknext (fst (p0, t0))) by (cbn; lia).
      pose proof (frame_parent (p0, t0) _ _ Hf Hlinks Hr Hsup'). lia.
    + eapply within_bind; [apply find_down_within; lia|].
      intros i Hi. cbv beta in Hi. simpl. destruct (i =? -1); [exact Hf|].
      apply frame_toksuper_set; [exact Hf|lia].
  - intros p1 Hf1. simpl. apply advance_frame; [exact Hf1|lia].
Qed.

Lemma primitive_allowed_within s :
  frame s -> ok (fun _ => True) (primitive_allowed s).
Proof.
  intros Hf. pose proof (frame_toknext _ _ _ Hf) as Hn.
  pose proof (frame_toksuper _ _ _ Hf) as Hsup.
  pose proof (frame_length _ _ _ Hf) as HL.
  unfold primitive_allowed.
  destruct (negb (toksuper (fst s) =? -1)); [|exact I].
  eapply within_bind; [apply load_within; [exact HL|lia]|].
  intros t _. exact I.
Qed.

Lemma dispatch_within c s :
  frame s -> pos (fst s) < len -> ok flows (dispatch cfg js len num_tokens c s).
Proof.
  intros Hf Hlt. pose proof (frame_pos _ _ _ Hf) as Hpos.
  unfold dispatch. destruct (classify c).
  - apply open_container_within. exact Hf.
  - unfold close_container. destruct (JSMN_PARENT_LINKS cfg) eqn:Hlinks.
    + apply close_container_links_within; [exact Hf|exact Hlinks].
    + apply close_container_scan_within. exact Hf.
  - eapply within_bind; [apply jsmn_parse_string_within; exact Hf|].
    intros [r s1] Hf1. apply attach_within; [exact Hf1|exact Hpos].
  - unfold jamn_skip_whitespaces.
    eapply within_bind; [apply ws_loop_within; lia|].
    intros [r parser] (Hp & Hn & Hs & Hb). cbn [fst snd] in *.
    assert (Hfp : frame (parser, snd s)).
    { destruct s as [p0 t0]. cbn [fst snd] in *.
      eapply frame_cursor; [exact Hf|lia|exact Hn|exact Hs|exact Hb]. }
    destruct (negb (r =? 0)); simpl; exact Hfp.
  - apply colon_within. exact Hf.
  - apply comma_within. exact Hf.
  - eapply within_bind; [apply primitive_allowed_within; exact Hf|].
    intros okp _. destruct (negb okp); [simpl; exact Hf|].
    eapply within_bind; [apply jsmn_parse_primitive_within; exact Hf|].
    intros [r s1] Hf1. apply attach_within; [exact Hf1|exact Hpos].
  - simpl. exact Hf.
Qed.

Lemma driver_step_within s :
  frame s -> pos (fst s) < len -> ok flows (driver_step cfg js len num_tokens s).
Proof.
  intros Hf Hlt. pose proof (frame_pos _ _ _ Hf) as Hpos.
  unfold driver_step.
  eapply within_bind; [apply rd_inside; lia|]. intros c _.
  eapply within_fbind with (P := flows).
  - apply dispatch_within; [exact Hf|exact Hlt].
  - intros s1 Hf1. simpl. unfold flow_ok in *. cbn [flow_state] in *.
    destruct s1 as [p1 t1]. cbn [fst snd].
    eapply frame_cursor; [exact Hf1| |reflexivity..].
    apply (frame_pos _ _ _ Hf1).
  - intros r s1 H. exact H.
Qed.

Lemma driver_loop_within fuel s :
  frame s -> ok flows (driver_loop cfg js len num_tokens fuel s).
Proof.
  revert s. induction fuel as [|fuel IH]; intros s Hf; simpl;
    pose proof (frame_pos _ _ _ Hf) as Hpos;
    (destruct (Z.ltb_spec (pos (fst s)) len) as [Hlt|Hge]; [|exact Hf]);
    (eapply within_bind; [apply rd_inside; lia|]); intros c _;
    (destruct (c =? 0); [exact Hf|]).
  - right. right. reflexivity.
  - eapply within_fbind with (P := flows).
    + apply driver_step_within; [exact Hf|exact Hlt].
    + intros s1 Hf1. apply IH. exact Hf1.
    + intros r s1 H. exact H.
Qed.

Lemma resume_within s : frame s -> ok flows (resume cfg num_tokens s).
Proof.
  intros Hf. pose proof (frame_toknext _ _ _ Hf) as Hn.
  unfold resume.
  destruct (negb (type_eqb (type (tokbuf (fst s))) JSMN_UNDEFINED));
    [|simpl; exact Hf].
  eapply within_bind; [apply alloc_within; exact Hf|].
  intros [slot s1] (Hf1 & Hp1 & Hs1 & Hb1 & Hslot). cbn [fst snd] in *.
  destruct slot as [token|]; [|simpl; exact Hf1].
  destruct Hslot as [Htok Hn1].
  pose proof (frame_length _ _ _ Hf1) as HL1.
  pose proof (frame_toknext _ _ _ Hf1) as Hnx1.
  eapply within_bind; [apply modify_within; [exact HL1|lia]|].
  intros ts (H0 & _ & t & Ht & ->). simpl. unfold flow_ok. cbn [flow_state].
  destruct s1 as [p1 t1]. cbn [fst snd] in *.
  assert (Hfm : frame (p1, <[Z.to_nat token := tokbuf p1]> t1)).
  { eapply frame_modify; [exact Hf1|exact H0|exact Ht|].
    intros Hlinks _. rewrite Hb1. destruct Hf as [(_ & _ & _ & Hl) _].
    pose proof (proj1 (Hl Hlinks)). lia. }
  assert (Hfb : frame (set_tokbuf
                         (set_is_key false
                            (set_unclosed false
                               (set_type JSMN_UNDEFINED (tokbuf p1)))) p1,
                       <[Z.to_nat token := tokbuf p1]> t1)).
  { eapply frame_parser; [exact Hfm| |reflexivity| |].
    - apply (frame_pos _ _ _ Hf1).
    - apply (frame_toksuper _ _ _ Hf1).
    - intros Hlinks. cbn. destruct Hf1 as [(_ & _ & _ & Hl) _].
      exact (proj1 (Hl Hlinks)). }
  destruct (JSMN_NO_TRAILING_COMMAS cfg); [|exact Hfb].
  eapply frame_cursor; [exact Hfb| |reflexivity..].
  apply (frame_pos _ _ _ Hfb).
Qed.

Lemma unclosed_check_within s : frame s -> ok (fun _ => True) (unclosed_check s).
Proof.
  intros Hf. pose proof (frame_toknext _ _ _ Hf) as Hn.
  pose proof (frame_length _ _ _ Hf) as HL.
  unfold unclosed_check.
  eapply within_bind; [apply find_down_within; lia|].
  intros i Hi. cbv beta in Hi. destruct (i =? -1); [exact I|].
  eapply within_bind; [apply load_within; [exact HL|lia]|].
  intros t _. exact I.
Qed.

Lemma jsmn_parse_within parser tokens :
  frame (parser, tokens) ->
  ok (fun r => frame (snd r)) (jsmn_parse cfg js len num_tokens parser tokens).
Proof.
  intros Hf. unfold jsmn_parse, jsmn_parse_loop.
  eapply within_bind with (P := flows).
  - eapply within_fbind with (P := flows).
    + apply resume_within. exact Hf.
    + intros s Hs. apply driver_loop_within. exact Hs.
    + intros r s H. exact H.
  - intros [s|r s] Hs; [|exact Hs].
    eapply within_bind; [apply unclosed_check_within; exact Hs|].
    intros r _. exact Hs.
Qed.

End DriverFaults.

Lemma links_ok_init cfg tokbuf0 tokens :
  links_ok cfg (jsmn_init cfg tokbuf0, tokens).
Proof.
  unfold links_ok, jsmn_init. cbn.
  split; [lia|]. split; [lia|]. split; [lia|].
  intros Hlinks. unfold jsmn_init_token. rewrite Hlinks. cbn.
  split; [lia|]. intros i t Hi. lia.
Qed.

Lemma links_ok_grow cfg p tokens more :
  links_ok cfg (p, tokens) -> links_ok cfg (p, tokens ++ more).
Proof.
  intros (Hpos & Hsup & Hn & Hl). cbn [fst snd] in *.
  unfold links_ok. cbn [fst snd]. rewrite length_app.
  split; [exact Hpos|]. split; [exact Hsup|]. split; [lia|].
  intros Hlinks. destruct (Hl Hlinks) as [Hbuf Hall]. split; [exact Hbuf|].
  intros i t Hi Ht. rewrite lookup_app_l in Ht by lia. eapply Hall; eauto.
Qed.

Lemma in_session_links cfg js len s : in_session cfg js len s -> links_ok cfg s.
Proof.
  induction 1 as [tokbuf0 tokens|parser tokens more num_tokens r s' _ IH Hcall].
  - apply links_ok_init.
  - pose proof (jsmn_parse_within cfg js len num_tokens (length (tokens ++ more))
                  parser (tokens ++ more)) as Hw.
    rewrite Hcall in Hw. simpl in Hw. apply Hw.
    split; [apply links_ok_grow; exact IH|reflexivity].
Qed.






Lemma column_follows_cursor_witness :
  line (fst after_brace) = line (jsmn_init default_build zero_token)
  /\ col (fst after_brace) - col (jsmn_init default_build zero_token)
     = pos (fst after_brace) - pos (jsmn_init default_build zero_token).
Proof.
  refine (column_follows_cursor default_build (bytes "{}") 2 1
            (jsmn_init default_build zero_token, pool 1) after_brace c_lbrace
            eq_refl _ _).
  - discriminate.
  - vm_compute. reflexivity.
Defined.

Lemma scanner_failure_witness :
  jsmn_parse_string default_build [c_dquote; 97; 98] 3 1
    (jsmn_init default_build zero_token, pool 1)
  = Ok (JSMN_ERROR_UNCLOSED_STRING, (jsmn_init default_build zero_token, pool 1))
  /\ (JSMN_ERROR_UNCLOSED_STRING = JSMN_ERROR_INVAL
      \/ JSMN_ERROR_UNCLOSED_STRING = JSMN_ERROR_UNCLOSED_STRING).
Proof.
  assert (H : jsmn_parse_string default_build [c_dquote; 97; 98] 3 1
                (jsmn_init default_build zero_token, pool 1)
              = Ok (JSMN_ERROR_UNCLOSED_STRING,
                    (jsmn_init default_build zero_token, pool 1)))
    by (vm_compute; reflexivity).
  split; [exact H|].
  refine (proj2 (proj1 (scanner_failure_leaves_state default_build
                          [c_dquote; 97; 98] 3 1
                          (jsmn_init default_build zero_token, pool 1)
                          JSMN_ERROR_UNCLOSED_STRING
                          (jsmn_init default_build zero_token, pool 1) _ _) H));
    discriminate.
Defined.

(** ** Passes that return *)

Lemma jsmnerr_eq_nomem (r : jsmnerr) :
  r = JSMN_ERROR_NOMEM \/ r <> JSMN_ERROR_NOMEM.
Proof. destruct r; (left; reflexivity) || (right; discriminate). Qed.

Section Returns.
Variable cfg : config.
Variable js : list Z.
Variable len : Z.
Variable num_tokens : Z.

Lemma return_same s r : r <> JSMN_ERROR_NOMEM -> return_ok num_tokens s r s.
Proof. intros Hr. right. auto. Qed.

Lemma alloc_or_tokbuf_inv s token res s1 :
  alloc_or_tokbuf cfg num_tokens s = Ok (token, res, s1) ->
  (token = Tokbuf /\ res = JSMN_ERROR_NOMEM /\ s1 = s
   /\ num_tokens <= toknext (fst s))
  \/ (exists i, token = Slot i /\ res = JSMN_SUCCESS).
Proof.
  unfold alloc_or_tokbuf. intros H. apply obind_Ok in H as [[slot s2] [Ea H]].
  apply alloc_inv in Ea as [(-> & -> & Hn) | (t & -> & _)].
  - injection H as <- <- <-. left. auto.
  - injection H as <- <- _. right. eauto.
Qed.

Lemma jsmn_parse_string_nomem s s1 :
  jsmn_parse_string cfg js len num_tokens s = Ok (JSMN_ERROR_NOMEM, s1) ->
  num_tokens <= toknext (fst s) /\ toknext (fst s1) = toknext (fst s)
  /\ type (tokbuf (fst s1)) = JSMN_STRING /\ pos (fst s) < pos (fst s1).
Proof.
  intros H. unfold jsmn_parse_string in H.
  apply obind_Ok in H as [[p|r0] [Esc H]].
  2:{ injection H as Hr _. apply string_scan_failed in Esc.
      destruct Esc; congruence. }
  apply string_scan_found in Esc.
  apply obind_Ok in H as [[[token res] s2] [Ea H]].
  apply alloc_or_tokbuf_inv in Ea as [(-> & -> & -> & Hn) | (i & -> & ->)].
  2:{ apply obind_Ok in H as [? [_ H]]. apply obind_Ok in H as [? [_ H]].
      apply obind_Ok in H as [? [_ H]]. apply obind_Ok in H as [? [_ H]].
      discriminate. }
  split; [exact Hn|]. cbn [modify_ref obind fst snd] in H.
  destruct (JSMN_PARENT_LINKS cfg); cbn [modify_ref obind fst snd] in H;
    apply obind_Ok in H as [t [_ H]];
    (destruct (type_eqb (type t) JSMN_OBJECT); cbn [modify_ref obind] in H;
     injection H as <-; cbn; (split; [reflexivity|split; [reflexivity|lia]])).
Qed.

Lemma jsmn_parse_primitive_nomem s s1 c :
  rd js (pos (fst s)) = Ok c -> classify c = CPrimitive ->
  jsmn_parse_primitive cfg js len num_tokens s = Ok (JSMN_ERROR_NOMEM, s1) ->
  num_tokens <= toknext (fst s) /\ toknext (fst s1) = toknext (fst s)
  /\ type (tokbuf (fst s1)) = JSMN_PRIMITIVE /\ pos (fst s) < pos (fst s1).
Proof.
  intros Hc Hcl H.
  pose proof (jsmn_parse_primitive_spec _ _ _ _ _ _ _ _ Hc Hcl H)
    as [Hr | (_ & Hlt & _)]; [discriminate|].
  unfold jsmn_parse_primitive in H.
  apply obind_Ok in H as [[p|r0] [Esc H]].
  2:{ injection H as Hr _. apply primitive_scan_failed in Esc. congruence. }
  apply obind_Ok in H as [[[token res] s2] [Ea H]].
  apply alloc_or_tokbuf_inv in Ea as [(-> & -> & -> & Hn) | (i & -> & ->)].
  2:{ apply obind_Ok in H as [? [_ H]]. apply obind_Ok in H as [? [_ H]].
      discriminate. }
  cbn [fst snd toknext set_col set_pos] in Hn.
  split; [exact Hn|]. split; [|split; [|exact Hlt]];
    cbn [modify_ref obind fst snd] in H;
    (destruct (JSMN_PARENT_LINKS cfg); cbn [modify_ref obind fst snd] in H;
     injection H as <-; reflexivity).
Qed.

Lemma attach_inner_inv (s1 : state) (rew fl : flow) :
  (if negb (toksuper (fst s1) =? -1) then
     let* t := load (snd s1) (toksuper (fst s1)) in
     match type t with
     | JSMN_OBJECT | JSMN_ARRAY =>
         let* tokens := modify (snd s1) (toksuper (fst s1)) incr_size in
         Ok (Continue (fst s1, tokens))
     | JSMN_STRING =>
         if is_key t && negb (associated t) then
           let* tokens := modify (snd s1) (toksuper (fst s1))
                            (set_associated true) in
           Ok (Continue (fst s1, tokens))
         else Ok rew
     | _ => Ok rew
     end
   else Ok (Continue s1)) = Ok fl ->
  fl = rew \/ exists s2, fl = Continue s2 /\ fst s2 = fst s1.
Proof.
  intros H. destruct (negb (toksuper (fst s1) =? -1)).
  2:{ injection H as <-. right. eauto. }
  apply obind_Ok in H as [t [_ H]]. destruct (type t).
  - injection H as <-. auto.
  - apply obind_Ok in H as [ts [_ H]]. injection H as <-. right. eauto.
  - apply obind_Ok in H as [ts [_ H]]. injection H as <-. right. eauto.
  - destruct (is_key t && negb (associated t)).
    + apply obind_Ok in H as [ts [_ H]]. injection H as <-. right. eauto.
    + injection H as <-. auto.
  - injection H as <-. auto.
Qed.

Lemma attach_return line0 col0 start0 r1 s1 r s' :
  attach line0 col0 start0 r1 s1 = Ok (Return r s') ->
  (r = r1 /\ r1 <> JSMN_SUCCESS /\ fst s' = fst s1
   /\ (r1 <> JSMN_ERROR_NOMEM -> s' = s1))
  \/ (r = JSMN_ERROR_UNEXPECTED_CHAR
      /\ (r1 = JSMN_SUCCESS \/ r1 = JSMN_ERROR_NOMEM)
      /\ pos (fst s') = start0 /\ line (fst s') = line0 /\ col (fst s') = col0).
Proof.
  unfold attach. cbv zeta. intros H.
  destruct r1;
    try (injection H as <- <-; left;
         split; [reflexivity|split; [discriminate|split; [reflexivity|auto]]]).
  - apply fbind_Ok in H as [(r0 & s0 & Hin & Hfl) | (s2 & Hin & Hk)];
      [|discriminate].
    injection Hfl as <- <-.
    apply attach_inner_inv in Hin as [Hrew | (s3 & Heq & _)]; [|discriminate].
    injection Hrew as -> ->. right. cbn. auto.
  - apply fbind_Ok in H as [(r0 & s0 & Hin & Hfl) | (s2 & Hin & Hk)].
    + injection Hfl as <- <-.
      apply attach_inner_inv in Hin as [Hrew | (s3 & Heq & _)]; [|discriminate].
      injection Hrew as -> ->. right. cbn. auto.
    + injection Hk as <- <-.
      apply attach_inner_inv in Hin as [Hrew | (s3 & Heq & Hfst)]; [discriminate|].
      injection Heq as <-. left. split; [reflexivity|]. split; [discriminate|].
      split; [exact Hfst|]. intros Hn. contradiction.
Qed.

Lemma close_walk_return fuel ty s i r s' :
  close_walk fuel ty s i = Ok (Return r s') ->
  r = JSMN_ERROR_UNEXPECTED_CHAR /\ s' = s.
Proof.
  revert i. induction fuel as [|fuel IH]; intros i H; simpl in H;
    apply obind_Ok in H as [t [_ H]];
    (destruct (is_open t);
     [destruct (negb (type_eqb (type t) ty));
      [injection H as <- <-; auto
      |apply obind_Ok in H as [ts [_ H]]; discriminate]|]);
    (destruct (parent t =? -1);
     [destruct (negb (type_eqb (type t) ty) || (toksuper (fst s) =? -1));
      [injection H as <- <-; auto|discriminate]|]);
    [discriminate|].
  eapply IH; eauto.
Qed.

Lemma ws_loop_broken fuel parser p r parser' :
  ws_loop js len fuel parser p = Ok (r, parser') -> r <> 0 ->
  pos parser' = pos parser.
Proof.
  revert parser p. induction fuel as [|fuel IH]; intros parser p H Hr;
    rewrite ws_loop_unfold in H; apply obind_Ok in H as [sw [Hsw H]];
    (destruct sw as [parser1 p1| |];
     [|injection H as <- _; contradiction|injection H as _ <-; reflexivity]);
    (assert (Hp1 : pos parser1 = pos parser);
     [unfold ws_switch in Hsw; apply obind_Ok in Hsw as [c [_ Hsw]];
      destruct (c =? 13);
      [apply obind_Ok in Hsw as [c' [_ Hsw]];
       destruct (negb (c' =? 10)); [discriminate|];
       injection Hsw as <- _; reflexivity|];
      destruct (c =? 10); [injection Hsw as <- _; reflexivity|];
      destruct (is_blank c); [injection Hsw as <- _; reflexivity|discriminate]|]);
    (destruct (p1 + 1 <? len);
     [|injection H as <- _; contradiction]);
    apply obind_Ok in H as [c [_ H]];
    (destruct (c =? 0); [injection H as <- _; contradiction|]).
  - discriminate.
  - apply IH in H; [|exact Hr]. rewrite H. exact Hp1.
Qed.

Lemma dispatch_return c s r s' :
  rd js (pos (fst s)) = Ok c ->
  dispatch cfg js len num_tokens c s = Ok (Return r s') ->
  return_ok num_tokens s r s'.
Proof.
  intros Hc H. unfold dispatch in H. destruct (classify c) eqn:Hcl.
  - unfold open_container in H.
    destruct (negb (JSMN_TESTMODE cfg) && (toknext (fst s) =? 0) && negb (c =? 123));
      [injection H as <- <-; apply return_same; discriminate|].
    apply obind_Ok in H as [[slot s1] [Ea H]].
    pose proof (alloc_cursor _ _ _ _ _ Ea) as (Hp1 & Hc1 & Hl1).
    apply alloc_inv in Ea as [(-> & -> & Hn) | (t & -> & _ & _ & Hs1)].
    { injection H as <- <-. left. auto. }
    apply fbind_Ok in H as [(r0 & s0 & Hin & Hfl) | (s2 & _ & Hk)].
    2:{ apply obind_Ok in Hk as [ts [_ Hk]]. discriminate. }
    injection Hfl as <- <-.
    assert (Hr : r <> JSMN_ERROR_NOMEM /\ r <> JSMN_ERROR_BROKEN_NEWLINE
                 /\ s' = s1).
    { destruct (negb (toksuper (fst s1) =? -1)).
      - apply obind_Ok in Hin as [t' [_ Hin]].
        destruct (type_eqb (type t') JSMN_OBJECT).
        + injection Hin as <- <-. repeat split; discriminate.
        + apply obind_Ok in Hin as [ts [_ Hin]].
          apply obind_Ok in Hin as [ts' [_ Hin]]. discriminate.
      - destruct (toknext (fst s1) >? 1); [|discriminate].
        injection Hin as <- <-. repeat split; discriminate. }
    destruct Hr as (Hr1 & _ & ->). right. split; [exact Hr1|]. auto.
  - unfold close_container, close_container_links, close_container_scan in H.
    destruct (JSMN_PARENT_LINKS cfg).
    + destruct (toknext (fst s) <? 1);
        [injection H as <- <-; apply return_same; discriminate|].
      apply obind_Ok in H as [t [_ H]].
      destruct (is_key t); [injection H as <- <-; apply return_same; discriminate|].
      destruct (JSMN_NO_TRAILING_COMMAS cfg && last_is_comma (fst s));
        [injection H as <- <-; apply return_same; discriminate|].
      apply fbind_Ok in H as [(r0 & s0 & Hin & Hfl) | (s2 & _ & Hk)];
        [|discriminate].
      injection Hfl as <- <-. apply close_walk_return in Hin as [-> ->].
      apply return_same. discriminate.
    + apply obind_Ok in H as [t [_ H]].
      destruct (is_key t); [injection H as <- <-; apply return_same; discriminate|].
      apply obind_Ok in H as [i [_ H]].
      destruct (i =? -1); [injection H as <- <-; apply return_same; discriminate|].
      apply obind_Ok in H as [ti [_ H]].
      destruct (negb (type_eqb (type ti) _));
        [injection H as <- <-; apply return_same; discriminate|].
      apply obind_Ok in H as [ts [_ H]]. apply obind_Ok in H as [j [_ H]].
      discriminate.
  - apply obind_Ok in H as [[r1 s1] [Es H]].
    apply attach_return in H
      as [(-> & Hr1 & Hfst & Hs1) | (-> & Hr1 & Hp & Hl & Hcol)].
    + destruct (jsmnerr_eq_nomem r1) as [->|Hn].
      * apply jsmn_parse_string_nomem in Es as (Hn & Ht & Hty & Hp).
        left. rewrite Hfst. split; [reflexivity|]. split; [exact Hn|].
        split; [exact Ht|]. right. split; [|rewrite Hfst; exact Hp].
        left. rewrite Hfst. exact Hty.
      * rewrite (Hs1 Hn).
        apply jsmn_parse_string_failure in Es as [-> _]; [|exact Hr1|exact Hn].
        apply return_same. exact Hn.
    + right. split; [discriminate|]. auto.
  - apply obind_Ok in H as [[r1 parser] [Ew H]].
    destruct (Z.eqb_spec r1 0) as [E0|E0]; cbn [negb] in H; [discriminate|].
    injection H as <- <-. right. split; [discriminate|].
    split; [|intros Hb; contradiction].
    eapply ws_loop_broken; [exact Ew|exact E0].
  - unfold colon in H. apply obind_Ok in H as [t [_ H]].
    destruct (negb (is_key t)); [|discriminate].
    injection H as <- <-. apply return_same. discriminate.
  - unfold comma in H. apply obind_Ok in H as [t [_ H]].
    destruct (is_key t || last_is_comma (fst s));
      [injection H as <- <-; apply return_same; discriminate|].
    destruct (JSMN_NO_TRAILING_COMMAS cfg && _);
      [injection H as <- <-; apply return_same; discriminate|].
    apply obind_Ok in H as [p1 [_ H]]. discriminate.
  - apply obind_Ok in H as [okp [_ H]].
    destruct (negb okp); [injection H as <- <-; apply return_same; discriminate|].
    apply obind_Ok in H as [[r1 s1] [Es H]].
    apply attach_return in H
      as [(-> & Hr1 & Hfst & Hs1) | (-> & Hr1 & Hp & Hl & Hcol)].
    + destruct (jsmnerr_eq_nomem r1) as [->|Hn].
      * apply (jsmn_parse_primitive_nomem _ _ _ Hc Hcl) in Es
          as (Hn & Ht & Hty & Hp).
        left. rewrite Hfst. split; [reflexivity|]. split; [exact Hn|].
        split; [exact Ht|]. right. split; [|rewrite Hfst; exact Hp].
        right. rewrite Hfst. exact Hty.
      * rewrite (Hs1 Hn).
        apply jsmn_parse_primitive_failure in Es as [-> _]; [|exact Hr1|exact Hn].
        apply return_same. exact Hn.
    + right. split; [discriminate|]. auto.
  - injection H as <- <-. apply return_same. discriminate.
Qed.

End Returns.

Section ReturnTheorems.
Variable cfg : config.
Variable js : list Z.
Variable len : Z.
Variable num_tokens : Z.

Lemma driver_step_return s r s' :
  driver_step cfg js len num_tokens s = Ok (Return r s') ->
  return_ok num_tokens s r s'.
Proof.
  intros H. unfold driver_step in H. apply obind_Ok in H as [c [Hc H]].
  apply fbind_Ok in H as [(r0 & s0 & Hd & Hfl) | (s1 & _ & Hk)]; [|discriminate].
  injection Hfl as <- <-. eapply dispatch_return; eauto.
Qed.

Lemma driver_loop_return fuel s r s' :
  driver_loop cfg js len num_tokens fuel s = Ok (Return r s') ->
  exists s1, driver_step cfg js len num_tokens s1 = Ok (Return r s').
Proof.
  revert s. induction fuel as [|fuel IH]; intros s H; simpl in H;
    (destruct (pos (fst s) <? len); [|discriminate]);
    apply obind_Ok in H as [c [_ H]];
    (destruct (c =? 0); [discriminate|]); [discriminate|].
  apply fbind_Ok in H as [(r0 & s0 & Hd & Hfl) | (s1 & _ & Hk)].
  - injection Hfl as <- <-. eauto.
  - eapply IH; eauto.
Qed.

Lemma resume_return s r s' :
  resume cfg num_tokens s = Ok (Return r s') ->
  r = JSMN_ERROR_NOMEM /\ s' = s /\ num_tokens <= toknext (fst s).
Proof.
  unfold resume. intros H.
  destruct (negb (type_eqb (type (tokbuf (fst s))) JSMN_UNDEFINED));
    [|discriminate].
  apply obind_Ok in H as [[slot s1] [Ea H]].
  apply alloc_inv in Ea as [(-> & -> & Hn) | (t & -> & _)].
  - injection H as <- <-. auto.
  - apply obind_Ok in H as [ts [_ H]]. discriminate.
Qed.

Lemma unclosed_check_codes s r :
  unclosed_check s = Ok r ->
  r = JSMN_SUCCESS \/ r = JSMN_ERROR_UNCLOSED_OBJECT
  \/ r = JSMN_ERROR_UNCLOSED_ARRAY.
Proof.
  unfold unclosed_check. intros H. apply obind_Ok in H as [i [_ H]].
  destruct (i =? -1); [injection H as <-; auto|].
  apply obind_Ok in H as [t [_ H]]. injection H as <-.
  destruct (type_eqb (type t) JSMN_OBJECT); auto.
Qed.

(** Where an error leaves the cursor: a pass through the loop body that
    returns a code other than NoMemory leaves [pos] at the byte the pass
    began with, and, unless the code is BrokenNewline, [line] and [col]
    as they were. *)
Theorem error_leaves_cursor s r s' :
  driver_step cfg js len num_tokens s = Ok (Return r s') ->
  r <> JSMN_ERROR_NOMEM ->
  pos (fst s') = pos (fst s)
  /\ (r <> JSMN_ERROR_BROKEN_NEWLINE ->
      line (fst s') = line (fst s) /\ col (fst s') = col (fst s)).
Proof.
  intros H Hr. apply driver_step_return in H as [(-> & _) | (_ & Hp & Hlc)];
    [contradiction|auto].
Qed.

(** NoMemory is only returned with the capacity used up: on return
    [toknext] has reached [num_tokens]. *)
Theorem nomem_means_full parser tokens s' :
  jsmn_parse cfg js len num_tokens parser tokens = Ok (JSMN_ERROR_NOMEM, s') ->
  num_tokens <= toknext (fst s').
Proof.
  unfold jsmn_parse, jsmn_parse_loop. intros H.
  apply obind_Ok in H as [fl [Hl H]]. destruct fl as [s|r s].
  - apply obind_Ok in H as [r [Hu H]]. injection H as -> _.
    apply unclosed_check_codes in Hu as [?|[?|?]]; discriminate.
  - injection H as -> ->.
    apply fbind_Ok in Hl as [(r0 & s0 & Hres & Hfl) | (s1 & _ & Hloop)].
    + injection Hfl as <- <-. apply resume_return in Hres as (_ & -> & Hn).
      exact Hn.
    + apply driver_loop_return in Hloop as [s2 Hstep].
      apply driver_step_return in Hstep as [(_ & Hn & Ht & _) | (Hne & _)];
        [lia|contradiction].
Qed.

End ReturnTheorems.

Lemma error_leaves_cursor_witness :
  pos (fst after_stray) = pos (fst before_stray)
  /\ line (fst after_stray) = line (fst before_stray)
  /\ col (fst after_stray) = col (fst before_stray).
Proof.
  assert (H : driver_step default_build stray_value 9 4 before_stray
              = Ok (Return JSMN_ERROR_UNEXPECTED_CHAR after_stray))
    by (vm_compute; reflexivity).
  assert (Hn : JSMN_ERROR_UNEXPECTED_CHAR <> JSMN_ERROR_NOMEM) by discriminate.
  assert (Hb : JSMN_ERROR_UNEXPECTED_CHAR <> JSMN_ERROR_BROKEN_NEWLINE)
    by discriminate.
  split.
  - exact (proj1 (error_leaves_cursor default_build stray_value 9 4
                    before_stray _ after_stray H Hn)).
  - exact (proj2 (error_leaves_cursor default_build stray_value 9 4
                    before_stray _ after_stray H Hn) Hb).
Defined.

Lemma nomem_means_full_witness : 4 <= toknext (fst after_nomem).
Proof.
  apply (nomem_means_full default_build nested_array 13 4
           (jsmn_init default_build zero_token) (pool 4)).
  vm_compute. reflexivity.
Defined.

(** ** The closing bracket without parent links *)

Lemma load_Some tokens i t :
  0 <= i -> tokens !! Z.to_nat i = Some t -> load tokens i = Ok t.
Proof.
  intros Hi Ht. unfold load. destruct (Z.ltb_spec i 0); [lia|].
  rewrite Ht. reflexivity.
Qed.

Lemma find_down_last P tokens n i :
  (n <= length tokens)%nat -> last_below P tokens (Z.of_nat n) i ->
  find_down P tokens n = Ok i.
Proof.
  intros Hn (Hi & (t & Ht & HP) & Habove).
  destruct (find_down_spec P tokens n Hn) as (i' & -> & [[-> Hnone] | (Hi' & (t' & Ht' & HP') & Habove')]).
  - rewrite (Hnone i t) in HP by (exact Hi || exact Ht). discriminate.
  - f_equal. destruct (Z.lt_trichotomy i' i) as [Hlt | [Heq | Hgt]]; [|exact Heq|].
    + rewrite (Habove' i t) in HP by (lia || exact Ht). discriminate.
    + rewrite (Habove i' t') in HP' by (lia || exact Ht'). discriminate.
Qed.

Lemma find_down_cases P tokens n :
  (n <= length tokens)%nat ->
  exists k, find_down P tokens n = Ok k
            /\ ((k = -1 /\ none_below P tokens (Z.of_nat n))
                \/ last_below P tokens (Z.of_nat n) k).
Proof.
  intros Hn. destruct (find_down_spec P tokens n Hn) as (k & Hk & Hcase).
  exists k. split; [exact Hk|]. destruct Hcase as [[-> Hnone] | Hlast].
  - left. split; [reflexivity|exact Hnone].
  - right. exact Hlast.
Qed.

Lemma set_toksuper_twice k p :
  set_toksuper k (set_toksuper (-1) p) = set_toksuper k p.
Proof. reflexivity. Qed.

Section CloseScan.
Variable cfg : config.
Variable js : list Z.
Variable len : Z.
Variable num_tokens : Z.

(** The closing bracket without parent links: when the last token is no
    key, the bracket closes the innermost open token if the two are of
    the same kind, and the superior token becomes the next open token
    below it, or none; if they are of different kinds the pass returns
    UnexpectedCharacter and changes nothing. *)
Theorem close_scan_closes_innermost c s i t tl :
  JSMN_PARENT_LINKS cfg = false ->
  rd js (pos (fst s)) = Ok c -> classify c = CClose ->
  toknext (fst s) <= Z.of_nat (length (snd s)) ->
  snd s !! Z.to_nat (toknext (fst s) - 1) = Some tl -> is_key tl = false ->
  last_below is_open (snd s) (toknext (fst s)) i ->
  snd s !! Z.to_nat i = Some t ->
  (type t <> (if c =? c_rbrace then JSMN_OBJECT else JSMN_ARRAY) ->
   driver_step cfg js len num_tokens s
   = Ok (Return JSMN_ERROR_UNEXPECTED_CHAR s))
  /\ (type t = (if c =? c_rbrace then JSMN_OBJECT else JSMN_ARRAY) ->
      exists k,
        driver_step cfg js len num_tokens s = Ok (Continue (closed_at i k t s))
        /\ ((k = -1 /\ none_below is_open (snd s) i)
            \/ last_below is_open (snd s) i k)).
Proof.
  intros Hlinks Hc Hcl Hn Htl Hkey Hlast Ht.
  pose proof Hlast as (Hi & _ & _).
  assert (Hstep : driver_step cfg js len num_tokens s
                  = let+ s1 :=
                      (if negb (type_eqb (type t)
                                  (if c =? 125 then JSMN_OBJECT else JSMN_ARRAY))
                       then Ok (Return JSMN_ERROR_UNEXPECTED_CHAR s)
                       else
                         let* tokens := modify (snd s) i (set_unclosed false) in
                         let* j := find_down is_open tokens (Z.to_nat (i + 1)) in
                         Ok (Continue
                               (advance 1
                                  (if j =? -1 then set_toksuper (-1) (fst s)
                                   else set_toksuper j (set_toksuper (-1) (fst s))),
                                tokens))) in
                    Ok (Continue (set_last_is_comma (c =? 44) (fst s1), snd s1))).
  { unfold driver_step. rewrite Hc. cbn [obind]. unfold dispatch. rewrite Hcl.
    unfold close_container. rewrite Hlinks. unfold close_container_scan.
    rewrite (load_Some (snd s) (toknext (fst s) - 1) tl ltac:(lia) Htl). cbn [obind]. rewrite Hkey.
    rewrite (find_down_last is_open (snd s) _ i);
      [|lia|rewrite Z2Nat.id by lia; exact Hlast].
    cbn [obind]. destruct (Z.eqb_spec i (-1)) as [E|_]; [lia|].
    rewrite (load_Some (snd s) i t ltac:(lia) Ht). cbn [obind]. reflexivity. }
  rewrite Hstep. clear Hstep.
  assert (Hc44 : (c =? 44) = false).
  { unfold classify in Hcl. destruct (Z.eqb_spec c 44) as [->|]; [|reflexivity].
    discriminate Hcl. }
  split; intros Hty.
  - destruct (type_eqb (type t) _) eqn:E; [|reflexivity].
    apply type_eqb_eq in E. contradiction.
  - apply type_eqb_eq in Hty. rewrite Hty. cbn [negb].
    unfold modify. rewrite (load_Some (snd s) i t ltac:(lia) Ht). cbn [obind].
    set (tokens' := <[Z.to_nat i := set_unclosed false t]> (snd s)).
    assert (Hlen : (Z.to_nat (i + 1) <= length tokens')%nat).
    { subst tokens'. rewrite length_insert. lia. }
    destruct (find_down_cases is_open tokens' _ Hlen) as (k & -> & Hk).
    rewrite Z2Nat.id in Hk by lia.
    assert (Hclosed : is_open (set_unclosed false t) = false).
    { unfold is_open. cbn. apply andb_false_r. }
    assert (Hat : tokens' !! Z.to_nat i = Some (set_unclosed false t)).
    { subst tokens'. apply list_lookup_insert_eq. apply lookup_lt_Some in Ht.
      exact Ht. }
    assert (Hbelow : forall j, 0 <= j < i ->
              tokens' !! Z.to_nat j = snd s !! Z.to_nat j).
    { intros j Hj. subst tokens'. apply list_lookup_insert_ne. lia. }
    exists k. split.
    + unfold fbind. cbn [obind fst snd]. rewrite Hc44. unfold closed_at.
      destruct (Z.eqb_spec k (-1)) as [->|_]; [reflexivity|].
      rewrite set_toksuper_twice. reflexivity.
    + destruct Hk as [[-> Hnone] | (Hk & (tk & Htk & Hopen) & Habove)].
      * left. split; [reflexivity|]. intros j t' Hj Ht'.
        apply (Hnone j t'); [lia|]. rewrite Hbelow by lia. exact Ht'.
      * right. assert (Hki : k <> i).
        { intros ->. rewrite Hat in Htk. injection Htk as <-.
          rewrite Hclosed in Hopen. discriminate. }
        split; [lia|]. split.
        -- exists tk. split; [|exact Hopen]. rewrite <- Hbelow by lia. exact Htk.
        -- intros j t' Hj Ht'. apply (Habove j t'); [lia|].
           rewrite Hbelow by lia. exact Ht'.
Qed.

End CloseScan.

Lemma close_scan_witness :
  exists k,
    driver_step default_build (bytes "{}") 2 1 after_brace
    = Ok (Continue (closed_at 0 k open_object after_brace))
    /\ ((k = -1 /\ none_below is_open (snd after_brace) 0)
        \/ last_below is_open (snd after_brace) 0 k).
Proof.
  refine (proj2 (close_scan_closes_innermost default_build (bytes "{}") 2 1
                   c_rbrace after_brace 0 open_object open_object
                   eq_refl eq_refl eq_refl _ eq_refl eq_refl _ eq_refl)
                eq_refl).
  - discriminate.
  - split; [split; [discriminate|reflexivity]|].
    split; [exists open_object; split; reflexivity|].
    intros j t Hj. change (toknext (fst after_brace)) with 1 in Hj. lia.
Defined.

(** ** The scratch token *)

Section ScratchToken.
Variable cfg : config.
Variable js : list Z.
Variable len : Z.
Variable num_tokens : Z.

Lemma alloc_tokbuf s slot s' :
  jsmn_alloc_token cfg num_tokens s = Ok (slot, s') ->
  tokbuf (fst s') = tokbuf (fst s).
Proof.
  intros H. apply alloc_inv in H as [(_ & -> & _) | (t & _ & _ & _ & ->)];
    reflexivity.
Qed.

Lemma alloc_or_tokbuf_slot s i res s1 :
  alloc_or_tokbuf cfg num_tokens s = Ok (Slot i, res, s1) ->
  tokbuf (fst s1) = tokbuf (fst s).
Proof.
  unfold alloc_or_tokbuf. intros H. apply obind_Ok in H as [[slot s2] [Ea H]].
  apply alloc_tokbuf in Ea. destruct slot; [|discriminate].
  injection H as _ _ <-. exact Ea.
Qed.

Lemma modify_ref_slot i f s s' :
  modify_ref (Slot i) f s = Ok s' -> fst s' = fst s.
Proof.
  simpl. intros H. apply obind_Ok in H as [ts [_ H]]. injection H as <-.
  reflexivity.
Qed.

Lemma jsmn_parse_string_success s s' :
  jsmn_parse_string cfg js len num_tokens s = Ok (JSMN_SUCCESS, s') ->
  tokbuf (fst s') = tokbuf (fst s).
Proof.
  intros H. unfold jsmn_parse_string in H.
  apply obind_Ok in H as [[p|r0] [Esc H]].
  2:{ injection H as Hr _. apply string_scan_failed in Esc.
      destruct Esc; congruence. }
  apply obind_Ok in H as [[[token res] s1] [Ea H]].
  pose proof Ea as Ea'.
  apply alloc_or_tokbuf_inv in Ea' as [(-> & -> & _) | (i & -> & ->)].
  { apply obind_Ok in H as [? [_ H]]. apply obind_Ok in H as [? [_ H]].
    apply obind_Ok in H as [? [_ H]]. apply obind_Ok in H as [? [_ H]].
    discriminate. }
  apply alloc_or_tokbuf_slot in Ea.
  apply obind_Ok in H as [s2 [E2 H]]. apply modify_ref_slot in E2.
  cbn [fst snd] in E2, H.
  apply obind_Ok in H as [s3 [E3 H]].
  assert (H3 : tokbuf (fst s3) = tokbuf (fst s1)).
  { destruct (JSMN_PARENT_LINKS cfg).
    - apply modify_ref_slot in E3. rewrite E3. cbn. rewrite E2. reflexivity.
    - injection E3 as <-. cbn. rewrite E2. reflexivity. }
  apply obind_Ok in H as [t [_ H]]. apply obind_Ok in H as [s4 [E4 H]].
  injection H as <-. rewrite <- Ea, <- H3.
  destruct (type_eqb (type t) JSMN_OBJECT).
  - apply modify_ref_slot in E4. rewrite E4. reflexivity.
  - injection E4 as <-. reflexivity.
Qed.

Lemma jsmn_parse_primitive_success s s' :
  jsmn_parse_primitive cfg js len num_tokens s = Ok (JSMN_SUCCESS, s') ->
  tokbuf (fst s') = tokbuf (fst s).
Proof.
  intros H. unfold jsmn_parse_primitive in H.
  apply obind_Ok in H as [[p|r0] [Esc H]].
  2:{ injection H as Hr _. apply primitive_scan_failed in Esc. congruence. }
  apply obind_Ok in H as [[[token res] s1] [Ea H]].
  pose proof Ea as Ea'.
  apply alloc_or_tokbuf_inv in Ea' as [(-> & -> & _) | (i & -> & ->)].
  { apply obind_Ok in H as [? [_ H]]. apply obind_Ok in H as [? [_ H]].
    discriminate. }
  apply alloc_or_tokbuf_slot in Ea. cbn [fst snd] in Ea.
  apply obind_Ok in H as [s2 [E2 H]]. apply modify_ref_slot in E2.
  apply obind_Ok in H as [s3 [E3 H]]. injection H as <-.
  destruct (JSMN_PARENT_LINKS cfg).
  - apply modify_ref_slot in E3. rewrite E3, E2. exact Ea.
  - injection E3 as <-. rewrite E2. exact Ea.
Qed.

Lemma close_walk_tokbuf fuel ty s i s' :
  close_walk fuel ty s i = Ok (Continue s') ->
  tokbuf (fst s') = tokbuf (fst s).
Proof.
  revert i. induction fuel as [|fuel IH]; intros i H; simpl in H;
    apply obind_Ok in H as [t [_ H]];
    (destruct (is_open t);
     [destruct (negb (type_eqb (type t) ty)); [discriminate|];
      apply obind_Ok in H as [ts [_ H]]; injection H as <-; reflexivity|]);
    (destruct (parent t =? -1);
     [destruct (negb (type_eqb (type t) ty) || (toksuper (fst s) =? -1));
      [discriminate|]; injection H as <-; reflexivity|]);
    [discriminate|].
  eapply IH; eauto.
Qed.

Lemma driver_step_tokbuf s s' :
  driver_step cfg js len num_tokens s = Ok (Continue s') ->
  tokbuf (fst s') = tokbuf (fst s).
Proof.
  intros H. unfold driver_step in H. apply obind_Ok in H as [c [Hc H]].
  apply fbind_Continue in H as [sd [E H]]. injection H as <-.
  cbn [fst snd set_last_is_comma tokbuf].
  unfold dispatch in E. destruct (classify c) eqn:Hclass.
  - unfold open_container in E.
    destruct (negb (JSMN_TESTMODE cfg) && (toknext (fst s) =? 0) && negb (c =? 123));
      [discriminate|].
    apply obind_Ok in E as [[slot s1] [Ea E]].
    destruct slot as [token|]; [|discriminate].
    apply alloc_tokbuf in Ea.
    apply fbind_Continue in E as [s2 [Eb E]].
    apply obind_Ok in E as [tk [_ E]]. injection E as <-.
    assert (Hx : fst s2 = fst s1).
    { destruct (negb (toksuper (fst s1) =? -1)).
      - apply obind_Ok in Eb as [t [_ Eb]].
        destruct (type_eqb (type t) JSMN_OBJECT); [discriminate|].
        apply obind_Ok in Eb as [tk1 [_ Eb]]. apply obind_Ok in Eb as [tk2 [_ Eb]].
        injection Eb as <-. reflexivity.
      - destruct (toknext (fst s1) >? 1); [discriminate|]. injection Eb as <-.
        reflexivity. }
    cbn. rewrite Hx. exact Ea.
  - unfold close_container, close_container_links, close_container_scan in E.
    destruct (JSMN_PARENT_LINKS cfg).
    + destruct (toknext (fst s) <? 1); [discriminate|].
      apply obind_Ok in E as [t [_ E]]. destruct (is_key t); [discriminate|].
      destruct (JSMN_NO_TRAILING_COMMAS cfg && last_is_comma (fst s)); [discriminate|].
      apply fbind_Continue in E as [s1 [Ew E]]. injection E as <-.
      apply close_walk_tokbuf in Ew. cbn. exact Ew.
    + apply obind_Ok in E as [t [_ E]]. destruct (is_key t); [discriminate|].
      apply obind_Ok in E as [i [_ E]]. destruct (i =? -1); [discriminate|].
      apply obind_Ok in E as [ti [_ E]].
      destruct (negb (type_eqb (type ti) _)); [discriminate|].
      apply obind_Ok in E as [tk [_ E]]. apply obind_Ok in E as [j [_ E]].
      injection E as <-. destruct (j =? -1); reflexivity.
  - apply obind_Ok in E as [[r s1] [Es E]].
    pose proof (attach_spec _ _ _ _ _ _ E) as (-> & _ & _).
    apply attach_continue in E as ->.
    apply jsmn_parse_string_success in Es. exact Es.
  - apply obind_Ok in E as [[r parser] [Ew E]].
    destruct (negb (r =? 0)); [discriminate|]. injection E as <-.
    apply ws_loop_fields in Ew as [_ Hb]. exact Hb.
  - unfold colon in E. apply obind_Ok in E as [t [_ E]].
    destruct (negb (is_key t)); [discriminate|]. injection E as <-. reflexivity.
  - unfold comma in E. apply obind_Ok in E as [t [_ E]].
    destruct (is_key t || last_is_comma (fst s)); [discriminate|].
    destruct (JSMN_NO_TRAILING_COMMAS cfg && _); [discriminate|].
    apply obind_Ok in E as [p1 [Ep E]]. injection E as <-. cbn.
    destruct (negb (toksuper (fst s) =? -1)); [|injection Ep as <-; reflexivity].
    apply obind_Ok in Ep as [sup [_ Ep]].
    destruct (type_val (type sup) >? type_val JSMN_ARRAY);
      [|injection Ep as <-; reflexivity].
    destruct (JSMN_PARENT_LINKS cfg); [injection Ep as <-; reflexivity|].
    apply obind_Ok in Ep as [i [_ Ep]]. injection Ep as <-.
    destruct (i =? -1); reflexivity.
  - apply obind_Ok in E as [okp [_ E]]. destruct (negb okp); [discriminate|].
    apply obind_Ok in E as [[r s1] [Es E]].
    pose proof (attach_spec _ _ _ _ _ _ E) as (-> & _ & _).
    apply attach_continue in E as ->.
    apply jsmn_parse_primitive_success in Es. exact Es.
  - discriminate.
Qed.

(** The pass that made the loop return, with the scratch token as the
    loop found it. *)
Lemma driver_loop_last_pass fuel s r s' :
  driver_loop cfg js len num_tokens fuel s = Ok (Return r s') ->
  exists s1, tokbuf (fst s1) = tokbuf (fst s) /\ more_input js len s1
             /\ driver_step cfg js len num_tokens s1 = Ok (Return r s').
Proof.
  revert s. induction fuel as [|fuel IH]; intros s H; simpl in H;
    (destruct (Z.ltb_spec (pos (fst s)) len) as [Hlt|Hge]; [|discriminate]);
    apply obind_Ok in H as [c [Hc H]];
    (destruct (Z.eqb_spec c 0) as [E0|E0]; [discriminate|]); [discriminate|].
  apply fbind_Ok in H as [(r0 & s0 & Hd & Hfl) | (s1 & Hstep & Hk)].
  - injection Hfl as <- <-. exists s. split; [reflexivity|].
    split; [|exact Hd]. split; [exact Hlt|]. exists c. auto.
  - apply IH in Hk as (s2 & Hb & Hm & Hs). exists s2.
    split; [|auto]. rewrite Hb. eapply driver_step_tokbuf; eauto.
Qed.

Lemma resume_continue s s' :
  resume cfg num_tokens s = Ok (Continue s') ->
  type (tokbuf (fst s')) = JSMN_UNDEFINED.
Proof.
  unfold resume. intros H.
  destruct (type_eqb (type (tokbuf (fst s))) JSMN_UNDEFINED) eqn:E; cbn [negb] in H.
  - injection H as <-. apply type_eqb_eq in E. exact E.
  - apply obind_Ok in H as [[slot s1] [_ H]]. destruct slot; [|discriminate].
    apply obind_Ok in H as [ts [_ H]]. injection H as <-.
    destruct (JSMN_NO_TRAILING_COMMAS cfg); reflexivity.
Qed.

(** NoMemory can be asked again: a call that returned NoMemory, repeated
    with the parser and the pool as it left them and the same capacity,
    returns NoMemory once more and changes nothing. *)
Theorem nomem_is_repeatable parser tokens s' :
  jsmn_parse cfg js len num_tokens parser tokens = Ok (JSMN_ERROR_NOMEM, s') ->
  jsmn_parse cfg js len num_tokens (fst s') (snd s')
  = Ok (JSMN_ERROR_NOMEM, s').
Proof.
  intros H0. pose proof H0 as H. unfold jsmn_parse, jsmn_parse_loop in H.
  apply obind_Ok in H as [fl [Hl H]]. destruct fl as [s|r s].
  { apply obind_Ok in H as [r [Hu H]]. injection H as -> _.
    apply unclosed_check_codes in Hu as [?|[?|?]]; discriminate. }
  injection H as -> ->.
  apply fbind_Ok in Hl as [(r0 & s0 & Hres & Hfl) | (s1 & Hres & Hloop)].
  - injection Hfl as <- <-. apply resume_return in Hres as (_ & -> & _).
    exact H0.
  - apply resume_continue in Hres.
    apply driver_loop_last_pass in Hloop as (s2 & Hb & Hm & Hstep).
    pose proof (driver_step_return _ _ _ _ _ _ _ Hstep)
      as [(_ & Hn & Ht & Hcase) | (Hne & _)]; [|contradiction].
    destruct Hcase as [-> | [Hty _]].
    + eapply jsmn_parse_returns; [|apply reaches_here|exact Hm|exact Hstep].
      unfold resume. destruct s2 as [p2 t2]. cbn [fst snd] in *.
      rewrite Hb, Hres. reflexivity.
    + unfold jsmn_parse, jsmn_parse_loop, resume.
      destruct s' as [p' t']. cbn [fst snd] in *.
      assert (E : negb (type_eqb (type (tokbuf p')) JSMN_UNDEFINED) = true).
      { destruct Hty as [-> | ->]; reflexivity. }
      rewrite E. unfold jsmn_alloc_token.
      destruct (Z.geb_spec (toknext p') num_tokens) as [_|Hlt]; [reflexivity|lia].
Qed.

End ScratchToken.

Lemma nomem_is_repeatable_witness :
  jsmn_parse default_build nested_array 13 4 (fst after_nomem) (snd after_nomem)
  = Ok (JSMN_ERROR_NOMEM, after_nomem).
Proof.
  apply (nomem_is_repeatable default_build nested_array 13 4
           (jsmn_init default_build zero_token) (pool 4)).
  vm_compute. reflexivity.
Defined.

(** ** Container sizes under parent links *)

Lemma children_of_app i l1 l2 :
  children_of i (l1 ++ l2) = children_of i l1 + children_of i l2.
Proof. induction l1 as [|t l1 IH]; simpl; [reflexivity|]. rewrite IH. lia. Qed.

Lemma children_of_insert i l j t t' :
  l !! j = Some t ->
  children_of i (<[j := t']> l)
  = children_of i l - (if parent t =? i then 1 else 0)
    + (if parent t' =? i then 1 else 0).
Proof.
  revert j. induction l as [|x l IH]; intros [|j] H; simpl in *; try discriminate.
  - injection H as ->. lia.
  - rewrite (IH j H). lia.
Qed.

Lemma children_of_zero i l :
  (forall m t, l !! m = Some t -> parent t <> i) -> children_of i l = 0.
Proof.
  induction l as [|x l IH]; intros H; simpl; [reflexivity|].
  rewrite IH by (intros m t Hm; apply (H (S m) t Hm)).
  destruct (Z.eqb_spec (parent x) i) as [E|_]; [|reflexivity].
  exfalso. exact (H 0%nat x eq_refl E).
Qed.

Lemma children_insert p tokens j t t' i :
  tokens !! j = Some t -> (j < Z.to_nat (toknext p))%nat ->
  children (p, <[j := t']> tokens) i
  = children (p, tokens) i - (if parent t =? i then 1 else 0)
    + (if parent t' =? i then 1 else 0).
Proof.
  intros Ht Hj. unfold children. cbn [fst snd].
  rewrite take_insert_lt by exact Hj. apply children_of_insert.
  rewrite lookup_take_lt by exact Hj. exact Ht.
Qed.

Lemma children_insert_same p tokens j t t' i :
  tokens !! j = Some t -> parent t' = parent t ->
  children (p, <[j := t']> tokens) i = children (p, tokens) i.
Proof.
  intros Ht Hp. destruct (Nat.lt_ge_cases j (Z.to_nat (toknext p))) as [Hlt|Hge].
  - rewrite (children_insert _ _ _ t) by assumption. rewrite Hp. lia.
  - unfold children. cbn [fst snd]. rewrite take_insert_ge by exact Hge.
    reflexivity.
Qed.

Lemma children_alloc p tokens t t' i :
  0 <= toknext p -> tokens !! Z.to_nat (toknext p) = Some t ->
  children (set_toknext (toknext p + 1) p, <[Z.to_nat (toknext p) := t']> tokens) i
  = children (p, tokens) i + (if parent t' =? i then 1 else 0).
Proof.
  intros Hn Ht. unfold children. cbn [fst snd set_toknext toknext].
  replace (Z.to_nat (toknext p + 1)) with (S (Z.to_nat (toknext p))) by lia.
  rewrite (take_S_r _ _ t').
  - rewrite children_of_app, take_insert_ge by lia. simpl. lia.
  - apply list_lookup_insert_eq. apply lookup_lt_Some in Ht. exact Ht.
Qed.

Lemma children_parser p p' tokens i :
  toknext p' = toknext p -> children (p', tokens) i = children (p, tokens) i.
Proof. intros Hn. unfold children. cbn [fst snd]. rewrite Hn. reflexivity. Qed.

Lemma staged_undefined p i :
  type (tokbuf p) = JSMN_UNDEFINED -> staged_for p i = 0.
Proof. intros H. unfold staged_for. rewrite H. reflexivity. Qed.

Lemma sizes_parser a k p p' tokens :
  sizes_ok a k (p, tokens) -> toknext p' = toknext p -> tokbuf p' = tokbuf p ->
  sizes_ok a k (p', tokens).
Proof.
  intros [Hb Hall] Hn Ht. cbn [fst snd] in *. split; cbn [fst snd].
  - rewrite Ht. exact Hb.
  - intros i t Hi Hl Hc. rewrite (children_parser p p') by exact Hn.
    unfold staged_for. rewrite Ht. apply Hall; [lia|exact Hl|exact Hc].
Qed.

Lemma sizes_settled a k b s :
  sizes_ok a k s ->
  k = 0 \/ a < 0
  \/ (exists t, snd s !! Z.to_nat a = Some t /\ is_container t = false) ->
  sizes_ok b 0 s.
Proof.
  intros [Hb Hall] Hcase. split; [exact Hb|].
  intros i t Hi Hl Hc. rewrite (Hall i t Hi Hl Hc).
  replace (if i =? b then 0 else 0) with 0 by (destruct (i =? b); reflexivity).
  destruct (Z.eqb_spec i a) as [->|_]; [|reflexivity].
  destruct Hcase as [-> | [Hneg | (t' & Ht' & Hc')]]; [reflexivity|lia|].
  rewrite Hl in Ht'. injection Ht' as <-. rewrite Hc in Hc'. discriminate.
Qed.

Lemma sizes_modify a k p tokens j t t' :
  sizes_ok a k (p, tokens) -> tokens !! j = Some t -> parent t' = parent t ->
  (is_container t' = true -> is_container t = true /\ size t' = size t) ->
  sizes_ok a k (p, <[j := t']> tokens).
Proof.
  intros [Hb Hall] Ht Hp Hc. cbn [fst snd] in *. split; [exact Hb|].
  cbn [fst snd]. intros i ti Hi Hl Hci.
  rewrite (children_insert_same _ _ _ t) by assumption.
  destruct (Nat.eq_dec (Z.to_nat i) j) as [E|E].
  - subst j. rewrite list_lookup_insert_eq in Hl
      by (apply lookup_lt_Some in Ht; exact Ht).
    injection Hl as <-. destruct (Hc Hci) as [Hct ->].
    apply Hall; assumption.
  - rewrite list_lookup_insert_ne in Hl by congruence. apply Hall; assumption.
Qed.

Lemma sizes_quiet a k s s' : quiet s s' -> sizes_ok a k s -> sizes_ok a k s'.
Proof.
  destruct s as [p tokens], s' as [p' tokens'].
  intros (Hn & Hb & Htok) Hs. cbn [fst snd] in *.
  destruct Htok as [-> | (j & t & t' & Ht & -> & Hp & Hsz & Hty)].
  - eapply sizes_parser; eauto.
  - eapply sizes_parser; [|exact Hn|exact Hb].
    eapply sizes_modify; [exact Hs|exact Ht|exact Hp|].
    unfold is_container. rewrite Hty. auto.
Qed.

Lemma sizes_incr a k p tokens t :
  sizes_ok a k (p, tokens) -> 0 <= a -> tokens !! Z.to_nat a = Some t ->
  sizes_ok a (k + 1) (p, <[Z.to_nat a := incr_size t]> tokens).
Proof.
  intros [Hb Hall] Ha Ht. cbn [fst snd] in *. split; [exact Hb|].
  cbn [fst snd]. intros i ti Hi Hl Hci.
  rewrite (children_insert_same _ _ _ t) by (exact Ht || reflexivity).
  destruct (Z.eq_dec i a) as [->|E].
  - rewrite list_lookup_insert_eq in Hl
      by (apply lookup_lt_Some in Ht; exact Ht).
    injection Hl as <-. rewrite Z.eqb_refl. cbn [size incr_size set_size].
    rewrite (Hall a t Hi Ht Hci), Z.eqb_refl. lia.
  - rewrite list_lookup_insert_ne in Hl by lia.
    rewrite (Hall i ti Hi Hl Hci).
    destruct (Z.eqb_spec i a); [contradiction|reflexivity].
Qed.

Lemma sizes_reparent b k p tokens j t t' :
  sizes_ok b k (p, tokens) -> 0 <= j < toknext p ->
  tokens !! Z.to_nat j = Some t -> parent t = -1 -> parent t' = b ->
  is_container t' = false ->
  sizes_ok b (k - 1) (p, <[Z.to_nat j := t']> tokens).
Proof.
  intros [Hb Hall] Hj Ht Hp Hp' Hc. cbn [fst snd] in *. split; [exact Hb|].
  cbn [fst snd]. intros i ti Hi Hl Hci.
  rewrite (children_insert _ _ _ t) by (exact Ht || lia).
  rewrite Hp, Hp'.
  destruct (Z.eq_dec i j) as [->|E].
  - rewrite list_lookup_insert_eq in Hl
      by (apply lookup_lt_Some in Ht; exact Ht).
    injection Hl as <-. rewrite Hc in Hci. discriminate.
  - rewrite list_lookup_insert_ne in Hl by lia.
    rewrite (Hall i ti Hi Hl Hci).
    destruct (Z.eqb_spec (-1) i); [lia|].
    rewrite (Z.eqb_sym b i). destruct (i =? b); lia.
Qed.

Lemma sizes_alloc a k p tokens t t' :
  sizes_ok a k (p, tokens) -> 0 <= toknext p ->
  tokens !! Z.to_nat (toknext p) = Some t -> parent t' = -1 ->
  is_container t' = false ->
  sizes_ok a k (set_toknext (toknext p + 1) p,
                <[Z.to_nat (toknext p) := t']> tokens).
Proof.
  intros [Hb Hall] Hn Ht Hp Hc. cbn [fst snd] in *. split; [exact Hb|].
  cbn [fst snd]. intros i ti Hi Hl Hci.
  rewrite (children_alloc _ _ t) by assumption. rewrite Hp.
  cbn [set_toknext toknext] in Hi.
  destruct (Z.eq_dec i (toknext p)) as [->|E].
  - rewrite list_lookup_insert_eq in Hl
      by (apply lookup_lt_Some in Ht; exact Ht).
    injection Hl as <-. rewrite Hc in Hci. discriminate.
  - rewrite list_lookup_insert_ne in Hl by lia.
    change (staged_for (set_toknext (toknext p + 1) p) i) with (staged_for p i).
    rewrite (Hall i ti ltac:(lia) Hl Hci).
    destruct (Z.eqb_spec (-1) i); [lia|]. lia.
Qed.

Lemma sizes_open a k p tokens j t t' :
  sizes_ok a k (p, tokens) -> 0 <= j < toknext p ->
  tokens !! Z.to_nat j = Some t -> parent t' = parent t -> size t' = 0 ->
  children (p, <[Z.to_nat j := t']> tokens) j = 0 -> staged_for p j = 0 ->
  j <> a \/ k = 0 ->
  sizes_ok a k (p, <[Z.to_nat j := t']> tokens).
Proof.
  intros [Hb Hall] Hj Ht Hp Hsz Hch Hst Hak. cbn [fst snd] in *.
  split; [exact Hb|]. cbn [fst snd]. intros i ti Hi Hl Hci.
  destruct (Z.eq_dec i j) as [->|E].
  - rewrite list_lookup_insert_eq in Hl
      by (apply lookup_lt_Some in Ht; exact Ht).
    injection Hl as <-. rewrite Hsz, Hch, Hst.
    destruct (Z.eqb_spec j a); [|reflexivity]. destruct Hak; [contradiction|lia].
  - rewrite list_lookup_insert_ne in Hl by lia.
    rewrite (children_insert_same _ _ _ t) by assumption.
    apply Hall; assumption.
Qed.

Lemma sizes_place a k p p' tokens t0 :
  sizes_ok a k (p, tokens) -> 0 <= toknext p ->
  tokens !! Z.to_nat (toknext p) = Some t0 ->
  type (tokbuf p) <> JSMN_UNDEFINED ->
  toknext p' = toknext p + 1 -> type (tokbuf p') = JSMN_UNDEFINED ->
  sizes_ok a k (p', <[Z.to_nat (toknext p) := tokbuf p]> tokens).
Proof.
  intros [Hb Hall] Hn Ht Hty Hn' Hty'. cbn [fst snd] in *. split.
  { cbn [fst]. unfold is_container. rewrite Hty'. reflexivity. }
  cbn [fst snd]. intros i ti Hi Hl Hci.
  rewrite (children_parser (set_toknext (toknext p + 1) p) p')
    by (rewrite Hn'; reflexivity).
  rewrite (children_alloc _ _ t0) by assumption.
  rewrite (staged_undefined p') by exact Hty'.
  destruct (Z.eq_dec i (toknext p)) as [->|E].
  - rewrite list_lookup_insert_eq in Hl
      by (apply lookup_lt_Some in Ht; exact Ht).
    injection Hl as <-. rewrite Hb in Hci. discriminate.
  - rewrite list_lookup_insert_ne in Hl by lia.
    rewrite (Hall i ti ltac:(lia) Hl Hci). unfold staged_for.
    destruct (type_eqb (type (tokbuf p)) JSMN_UNDEFINED) eqn:E'.
    + apply type_eqb_eq in E'. contradiction.
    + cbn [negb andb]. lia.
Qed.

Lemma sizes_unstage a k p p' tokens :
  sizes_ok a k (p, tokens) -> toknext p' = toknext p ->
  type (tokbuf p') = JSMN_UNDEFINED ->
  type (tokbuf p) = JSMN_UNDEFINED
  \/ (exists t, tokens !! Z.to_nat (parent (tokbuf p)) = Some t
                /\ is_container t = false)
  \/ parent (tokbuf p) < 0 ->
  sizes_ok a k (p', tokens).
Proof.
  intros [Hb Hall] Hn Hty' Hcase. cbn [fst snd] in *. split.
  { cbn [fst]. unfold is_container. rewrite Hty'. reflexivity. }
  cbn [fst snd]. intros i ti Hi Hl Hci.
  rewrite (children_parser p p') by exact Hn.
  rewrite (staged_undefined p') by exact Hty'.
  rewrite (Hall i ti ltac:(lia) Hl Hci).
  assert (Hst : staged_for p i = 0); [|lia].
  unfold staged_for. destruct Hcase as [E | [(t & Ht & Hc) | Hneg]].
  - rewrite E. reflexivity.
  - destruct (Z.eqb_spec (parent (tokbuf p)) i) as [E|_];
      [|rewrite andb_false_r; reflexivity].
    rewrite E, Hl in Ht. injection Ht as <-. rewrite Hci in Hc. discriminate.
  - destruct (Z.eqb_spec (parent (tokbuf p)) i) as [E|_];
      [lia|rewrite andb_false_r; reflexivity].
Qed.

Lemma sizes_stage b k p p' tokens :
  sizes_ok b k (p, tokens) -> type (tokbuf p) = JSMN_UNDEFINED ->
  toknext p' = toknext p -> is_container (tokbuf p') = false ->
  type (tokbuf p') <> JSMN_UNDEFINED -> parent (tokbuf p') = b ->
  sizes_ok b (k - 1) (p', tokens).
Proof.
  intros [Hb Hall] Hty Hn Hc Hty' Hp. cbn [fst snd] in *. split; [exact Hc|].
  cbn [fst snd]. intros i ti Hi Hl Hci.
  rewrite (children_parser p p') by exact Hn.
  rewrite (Hall i ti ltac:(lia) Hl Hci), (staged_undefined p) by exact Hty.
  unfold staged_for. rewrite Hp.
  destruct (type_eqb (type (tokbuf p')) JSMN_UNDEFINED) eqn:E'.
  { apply type_eqb_eq in E'. contradiction. }
  cbn [negb andb]. rewrite (Z.eqb_sym b i). destruct (i =? b); lia.
Qed.

Lemma sizes_grow a k p tokens more :
  toknext p <= Z.of_nat (length tokens) ->
  sizes_ok a k (p, tokens) -> sizes_ok a k (p, tokens ++ more).
Proof.
  intros Hn [Hb Hall]. cbn [fst snd] in *. split; [exact Hb|].
  cbn [fst snd]. intros i t Hi Hl Hc.
  rewrite lookup_app_l in Hl by lia.
  unfold children. cbn [fst snd]. rewrite take_app_le by lia.
  apply Hall; assumption.
Qed.

Lemma children_zero cfg s j :
  links_ok cfg s -> JSMN_PARENT_LINKS cfg = true ->
  toknext (fst s) - 1 <= j -> children s j = 0.
Proof.
  intros (_ & _ & Hn & Hl) Hlinks Hj. destruct (Hl Hlinks) as [_ Hall].
  unfold children. apply children_of_zero. intros m t Hm.
  pose proof (lookup_lt_Some _ _ _ Hm) as Hlen. rewrite length_take in Hlen.
  rewrite lookup_take_lt in Hm by lia.
  assert (Hr : 0 <= Z.of_nat m < toknext (fst s)) by lia.
  specialize (Hall (Z.of_nat m) t Hr). rewrite Nat2Z.id in Hall.
  specialize (Hall Hm). lia.
Qed.

Lemma modify_Some tokens i t f :
  0 <= i -> tokens !! Z.to_nat i = Some t ->
  modify tokens i f = Ok (<[Z.to_nat i := f t]> tokens).
Proof.
  intros Hi Ht. unfold modify. rewrite (load_Some _ _ _ Hi Ht). reflexivity.
Qed.

Lemma modify_inserted tokens i t x f :
  0 <= i -> tokens !! Z.to_nat i = Some t ->
  modify (<[Z.to_nat i := x]> tokens) i f = Ok (<[Z.to_nat i := f x]> tokens).
Proof.
  intros Hi Ht. rewrite (modify_Some _ _ x) by
    (exact Hi || (apply list_lookup_insert_eq; apply lookup_lt_Some in Ht; exact Ht)).
  rewrite list_insert_insert_eq. reflexivity.
Qed.

Lemma sizes_new_child b p p' tokens t0 t' :
  sizes_ok (-1) 0 (p, tokens) -> 0 <= toknext p ->
  tokens !! Z.to_nat (toknext p) = Some t0 ->
  parent t' = b -> is_container t' = false ->
  toknext p' = toknext p + 1 -> tokbuf p' = tokbuf p ->
  sizes_ok b (-1) (p', <[Z.to_nat (toknext p) := t']> tokens).
Proof.
  intros Hs Hn Ht Hp Hc Hn' Hb.
  apply (sizes_settled _ _ b) in Hs; [|left; reflexivity].
  apply (sizes_alloc _ _ _ _ t0 (mkTok JSMN_UNDEFINED (-1) 0 false false false (-1)))
    in Hs; [|exact Hn|exact Ht|reflexivity|reflexivity].
  eapply (sizes_reparent _ _ _ _ (toknext p) _ t') in Hs;
    [|cbn; lia
     |apply list_lookup_insert_eq; apply lookup_lt_Some in Ht; exact Ht
     |reflexivity|exact Hp|exact Hc].
  rewrite list_insert_insert_eq in Hs.
  eapply sizes_parser; [exact Hs|cbn; exact Hn'|cbn; exact Hb].
Qed.

Section Sizes.
Variable cfg : config.
Variable js : list Z.
Variable len : Z.
Variable num_tokens : Z.
Hypothesis Hlinks : JSMN_PARENT_LINKS cfg = true.

Lemma init_token_fields t :
  parent (jsmn_init_token cfg t) = -1 /\ size (jsmn_init_token cfg t) = 0
  /\ type (jsmn_init_token cfg t) = JSMN_UNDEFINED.
Proof. unfold jsmn_init_token. rewrite Hlinks. auto. Qed.

Lemma jsmn_parse_string_sizes s r s' :
  links_ok cfg s -> sizes_ok (-1) 0 s ->
  type (tokbuf (fst s)) = JSMN_UNDEFINED ->
  jsmn_parse_string cfg js len num_tokens s = Ok (r, s') ->
  (r <> JSMN_SUCCESS /\ r <> JSMN_ERROR_NOMEM /\ s' = s)
  \/ ((r = JSMN_SUCCESS \/ r = JSMN_ERROR_NOMEM) /\ scanned s s').
Proof.
  intros Hl Hs Hty H. destruct Hl as (_ & Hsup & Hn & _).
  destruct s as [p tokens]. cbn [fst snd] in *.
  unfold jsmn_parse_string in H. rewrite Hlinks in H. cbn [fst snd] in H.
  apply obind_Ok in H as [[q|r0] [Esc H]].
  2:{ injection H as <- <-. apply string_scan_failed in Esc. left.
      destruct Esc as [-> | ->]; repeat split; discriminate. }
  right. unfold alloc_or_tokbuf in H.
  apply obind_Ok in H as [[[token res] s1] [Ea H]].
  apply obind_Ok in Ea as [[slot s2] [Ea Eb]].
  apply alloc_inv in Ea as [(-> & -> & Hfull) | (t0 & -> & Hslot & Ht0 & ->)];
    injection Eb as <- <- <-; cbn [fst snd] in *.
  - cbn [modify_ref obind fst snd] in H.
    apply obind_Ok in H as [t [_ H]].
    apply (sizes_settled _ _ (toksuper p)) in Hs; [|left; reflexivity].
    destruct (type_eqb (type t) JSMN_OBJECT); cbn [modify_ref obind] in H;
      injection H as <- <-; (split; [right; reflexivity|]);
      (split; [reflexivity|split; [|right; reflexivity]]);
      (eapply (sizes_stage (toksuper p) 0); [exact Hs|exact Hty|reflexivity|reflexivity
                           |discriminate|reflexivity]).
  - cbn [modify_ref obind fst snd set_pos pos toknext toksuper set_toknext] in H.
    rewrite (modify_inserted _ _ t0) in H by (lia || exact Ht0).
    cbn [obind fst snd set_pos set_col pos toknext toksuper] in H.
    rewrite (modify_inserted _ _ t0) in H by (lia || exact Ht0).
    cbn [obind fst snd] in H.
    apply obind_Ok in H as [t [_ H]].
    destruct (type_eqb (type t) JSMN_OBJECT); cbn [modify_ref obind fst snd] in H;
      [rewrite (modify_inserted _ _ t0) in H by (lia || exact Ht0);
       cbn [obind] in H|];
      injection H as <- <-; (split; [left; reflexivity|]);
      (split; [reflexivity|split; [|left; exact Hty]]);
      (eapply sizes_new_child;
       [exact Hs|lia|exact Ht0|reflexivity|reflexivity|reflexivity|reflexivity]).
Qed.

Lemma jsmn_parse_primitive_sizes s r s' :
  links_ok cfg s -> sizes_ok (-1) 0 s ->
  type (tokbuf (fst s)) = JSMN_UNDEFINED ->
  jsmn_parse_primitive cfg js len num_tokens s = Ok (r, s') ->
  (r <> JSMN_SUCCESS /\ r <> JSMN_ERROR_NOMEM /\ s' = s)
  \/ ((r = JSMN_SUCCESS \/ r = JSMN_ERROR_NOMEM) /\ scanned s s').
Proof.
  intros Hl Hs Hty H. destruct Hl as (_ & Hsup & Hn & _).
  destruct s as [p tokens]. cbn [fst snd] in *.
  unfold jsmn_parse_primitive in H. rewrite Hlinks in H. cbn [fst snd] in H.
  apply obind_Ok in H as [[q|r0] [Esc H]].
  2:{ injection H as <- <-. apply primitive_scan_failed in Esc. left.
      subst r0. rewrite set_pos_same. repeat split; discriminate. }
  right. unfold alloc_or_tokbuf in H.
  apply obind_Ok in H as [[[token res] s1] [Ea H]].
  apply obind_Ok in Ea as [[slot s2] [Ea Eb]].
  apply alloc_inv in Ea as [(-> & -> & Hfull) | (t0 & -> & Hslot & Ht0 & ->)];
    injection Eb as <- <- <-; cbn [fst snd] in *.
  - cbn [modify_ref obind fst snd] in H. injection H as <- <-.
    split; [right; reflexivity|].
    apply (sizes_settled _ _ (toksuper p)) in Hs; [|left; reflexivity].
    split; [reflexivity|split; [|right; reflexivity]].
    eapply (sizes_stage (toksuper p) 0); [exact Hs|exact Hty|reflexivity|reflexivity
                        |discriminate|reflexivity].
  - cbn [modify_ref obind fst snd set_pos set_col pos toknext toksuper
           set_toknext] in H, Ht0.
    rewrite (modify_inserted _ _ t0) in H by (lia || exact Ht0).
    cbn [obind fst snd set_pos set_col pos toknext toksuper set_toknext] in H.
    rewrite (modify_inserted _ _ t0) in H by (lia || exact Ht0).
    cbn [obind] in H. injection H as <- <-.
    split; [left; reflexivity|].
    split; [reflexivity|split; [|left; exact Hty]].
    eapply sizes_new_child;
      [exact Hs|lia|exact Ht0|reflexivity|reflexivity|reflexivity|reflexivity].
Qed.

End Sizes.

Lemma quiet_refl s : quiet s s.
Proof. unfold quiet. auto. Qed.

Lemma quiet_parser p p' tokens :
  toknext p' = toknext p -> tokbuf p' = tokbuf p ->
  quiet (p, tokens) (p', tokens).
Proof. unfold quiet. cbn. auto. Qed.

Lemma is_container_type t :
  is_container t = true <-> type t = JSMN_OBJECT \/ type t = JSMN_ARRAY.
Proof.
  unfold is_container. rewrite orb_true_iff, !type_eqb_eq. reflexivity.
Qed.

Lemma attach_inner_cases (s1 : state) (rew fl : flow) :
  (if negb (toksuper (fst s1) =? -1) then
     let* t := load (snd s1) (toksuper (fst s1)) in
     match type t with
     | JSMN_OBJECT | JSMN_ARRAY =>
         let* tokens := modify (snd s1) (toksuper (fst s1)) incr_size in
         Ok (Continue (fst s1, tokens))
     | JSMN_STRING =>
         if is_key t && negb (associated t) then
           let* tokens := modify (snd s1) (toksuper (fst s1))
                            (set_associated true) in
           Ok (Continue (fst s1, tokens))
         else Ok rew
     | _ => Ok rew
     end
   else Ok (Continue s1)) = Ok fl ->
  (fl = Continue s1 /\ toksuper (fst s1) = -1)
  \/ exists t, 0 <= toksuper (fst s1)
       /\ snd s1 !! Z.to_nat (toksuper (fst s1)) = Some t
       /\ ((is_container t = true
            /\ fl = Continue (fst s1, <[Z.to_nat (toksuper (fst s1))
                                        := incr_size t]> (snd s1)))
           \/ (is_container t = false
               /\ (fl = rew
                   \/ fl = Continue (fst s1, <[Z.to_nat (toksuper (fst s1))
                                               := set_associated true t]>
                                               (snd s1))))).
Proof.
  intros H. destruct (Z.eqb_spec (toksuper (fst s1)) (-1)) as [E|E]; cbn [negb] in H.
  { injection H as <-. left. auto. }
  right. apply obind_Ok in H as [t [Hl H]]. apply load_Ok in Hl as [H0 Ht].
  exists t. split; [exact H0|]. split; [exact Ht|].
  unfold is_container, type_eqb. destruct (type t); cbn.
  - right. injection H as <-. auto.
  - left. rewrite (modify_Some _ _ t) in H by assumption. injection H as <-. auto.
  - left. rewrite (modify_Some _ _ t) in H by assumption. injection H as <-. auto.
  - right. destruct (is_key t && negb (associated t)).
    + rewrite (modify_Some _ _ t) in H by assumption. injection H as <-. auto.
    + injection H as <-. auto.
  - right. injection H as <-. auto.
Qed.

Section SizesOfHandlers.
Variable cfg : config.
Variable js : list Z.
Variable len : Z.
Variable num_tokens : Z.
Hypothesis Hlinks : JSMN_PARENT_LINKS cfg = true.

Lemma attach_inner_sizes (s1 : state) (rew fl : flow) line0 col0 start0 :
  rew = Return JSMN_ERROR_UNEXPECTED_CHAR
          (set_tokbuf
             (set_type JSMN_UNDEFINED
                (tokbuf (set_pos start0 (set_col col0 (set_line line0 (fst s1))))))
             (set_pos start0 (set_col col0 (set_line line0 (fst s1)))),
           snd s1) ->
  scanned s1 s1 ->
  (fl = Continue s1 /\ toksuper (fst s1) = -1)
  \/ (exists t, 0 <= toksuper (fst s1)
       /\ snd s1 !! Z.to_nat (toksuper (fst s1)) = Some t
       /\ ((is_container t = true
            /\ fl = Continue (fst s1, <[Z.to_nat (toksuper (fst s1))
                                        := incr_size t]> (snd s1)))
           \/ (is_container t = false
               /\ (fl = rew
                   \/ fl = Continue (fst s1, <[Z.to_nat (toksuper (fst s1))
                                               := set_associated true t]>
                                               (snd s1)))))) ->
  sizes_ok (-1) 0 (flow_state fl).
Proof.
  intros Hrew (_ & Hs & Hbuf) Hcase. destruct s1 as [p tokens].
  cbn [fst snd] in *.
  destruct Hcase as [[-> Hm] | (t & H0 & Ht & [[Hc ->] | [Hc [-> | ->]]])];
    cbn [flow_state].
  - eapply sizes_settled; [exact Hs|]. right. left. cbn. lia.
  - apply (sizes_incr _ _ _ _ t) in Hs; [|exact H0|exact Ht].
    eapply sizes_settled; [exact Hs|]. left. reflexivity.
  - subst rew. cbn [flow_state].
    eapply (sizes_settled (toksuper p) (-1)).
    + eapply sizes_unstage; [exact Hs|reflexivity|reflexivity|].
      destruct Hbuf as [E | E]; [left; exact E|].
      right. left. exists t. rewrite E. auto.
    + right. right. exists t. auto.
  - eapply (sizes_settled (toksuper p) (-1)).
    + eapply (sizes_modify _ _ _ _ _ t); [exact Hs|exact Ht|reflexivity|].
      intros Hc'. cbn in Hc'. unfold is_container in Hc, Hc'. cbn in Hc'.
      rewrite Hc in Hc'. discriminate.
    + right. right. exists (set_associated true t). split; [|exact Hc].
      apply list_lookup_insert_eq. apply lookup_lt_Some in Ht. exact Ht.
Qed.

Lemma attach_sizes line0 col0 start0 r s1 fl :
  attach line0 col0 start0 r s1 = Ok fl ->
  ((r = JSMN_SUCCESS \/ r = JSMN_ERROR_NOMEM) /\ scanned s1 s1)
  \/ (r <> JSMN_SUCCESS /\ r <> JSMN_ERROR_NOMEM /\ sizes_ok (-1) 0 s1) ->
  sizes_ok (-1) 0 (flow_state fl).
Proof.
  unfold attach. cbv zeta. intros H Hcase.
  destruct r;
    try (injection H as <-;
         destruct Hcase as [[[E|E] _] | (_ & _ & Hs)];
         [discriminate E|discriminate E|exact Hs]);
    (destruct Hcase as [[_ Hsc] | (E & E' & _)]; [|contradiction]);
    (apply fbind_Ok in H as [(r0 & s0 & Hin & Hfl) | (s2 & Hin & Hk)];
     [subst fl|injection Hk as <-]);
    apply attach_inner_cases in Hin;
    exact (attach_inner_sizes _ _ _ _ _ _ eq_refl Hsc Hin).
Qed.

Lemma close_walk_quiet fuel ty s i fl :
  close_walk fuel ty s i = Ok fl -> quiet s (flow_state fl).
Proof.
  revert i. induction fuel as [|fuel IH]; intros i H; simpl in H;
    apply obind_Ok in H as [t [Hl H]]; apply load_Ok in Hl as [H0 Ht];
    (destruct (is_open t);
     [destruct (negb (type_eqb (type t) ty));
      [injection H as <-; apply quiet_refl|];
      rewrite (modify_Some _ _ t) in H by assumption; injection H as <-;
      split; [reflexivity|split; [reflexivity|]];
      right; exists (Z.to_nat i), t, (set_unclosed false t); auto|]);
    (destruct (parent t =? -1);
     [destruct (negb (type_eqb (type t) ty) || (toksuper (fst s) =? -1));
      injection H as <-; apply quiet_refl|]);
    [discriminate|].
  eapply IH; eauto.
Qed.

Lemma quiet_advance s s' n :
  quiet s s' -> quiet s (advance n (fst s'), snd s').
Proof. intros (Hn & Hb & Ht). split; [exact Hn|]. split; [exact Hb|exact Ht]. Qed.

Lemma close_container_quiet c s fl :
  close_container cfg c s = Ok fl -> quiet s (flow_state fl).
Proof.
  unfold close_container. rewrite Hlinks. unfold close_container_links.
  intros H.
  destruct (toknext (fst s) <? 1); [injection H as <-; apply quiet_refl|].
  apply obind_Ok in H as [t [_ H]].
  destruct (is_key t); [injection H as <-; apply quiet_refl|].
  destruct (JSMN_NO_TRAILING_COMMAS cfg && last_is_comma (fst s));
    [injection H as <-; apply quiet_refl|].
  apply fbind_Ok in H as [(r0 & s0 & Hw & ->) | (s1 & Hw & Hk)];
    apply close_walk_quiet in Hw; [exact Hw|].
  injection Hk as <-. cbn [flow_state] in *. apply quiet_advance. exact Hw.
Qed.

Lemma colon_quiet s fl : colon s = Ok fl -> quiet s (flow_state fl).
Proof.
  unfold colon. intros H. apply obind_Ok in H as [t [_ H]].
  destruct (negb (is_key t)); injection H as <-; [apply quiet_refl|].
  destruct s. apply quiet_parser; reflexivity.
Qed.

Lemma comma_quiet s fl : comma cfg s = Ok fl -> quiet s (flow_state fl).
Proof.
  unfold comma. rewrite Hlinks. intros H. apply obind_Ok in H as [t [_ H]].
  destruct (is_key t || last_is_comma (fst s));
    [injection H as <-; apply quiet_refl|].
  destruct (JSMN_NO_TRAILING_COMMAS cfg && _);
    [injection H as <-; apply quiet_refl|].
  apply obind_Ok in H as [p1 [Ep H]]. injection H as <-.
  destruct s as [p tokens]. cbn [fst snd flow_state] in *.
  apply quiet_parser; cbn;
    (destruct (negb (toksuper p =? -1)); [|injection Ep as <-; reflexivity]);
    apply obind_Ok in Ep as [sup [_ Ep]];
    (destruct (type_val (type sup) >? type_val JSMN_ARRAY);
     injection Ep as <-; reflexivity).
Qed.

Lemma open_container_sizes c s fl :
  links_ok cfg s -> sizes_ok (-1) 0 s ->
  type (tokbuf (fst s)) = JSMN_UNDEFINED ->
  open_container cfg num_tokens c s = Ok fl ->
  sizes_ok (-1) 0 (flow_state fl).
Proof.
  intros Hl Hs Hty H.
  assert (Hfin : links_ok cfg (flow_state fl)).
  { pose proof (open_container_within cfg js len num_tokens (length (snd s)) c s
                  (conj Hl eq_refl)) as Hw.
    rewrite H in Hw. exact (proj1 Hw). }
  destruct Hl as (_ & Hsup & Hn & _).
  destruct s as [p tokens]. cbn [fst snd] in *.
  unfold open_container in H. rewrite Hlinks in H. cbn [fst snd] in H.
  destruct (negb (JSMN_TESTMODE cfg) && (toknext p =? 0) && negb (c =? 123));
    [injection H as <-; exact Hs|].
  apply obind_Ok in H as [[slot s1] [Ea H]].
  apply alloc_inv in Ea as [(-> & -> & Hfull) | (t0 & -> & Hslot & Ht0 & ->)];
    [injection H as <-; exact Hs|].
  cbn [fst snd set_toknext pos toknext toksuper] in *.
  destruct (init_token_fields cfg Hlinks t0) as (Hip & Hisz & Hity).
  set (tinit := jsmn_init_token cfg t0) in *.
  assert (Hic : is_container tinit = false).
  { unfold is_container. rewrite Hity. reflexivity. }
  set (p1 := set_toknext (toknext p + 1) p) in *.
  set (n := Z.to_nat (toknext p)) in *.
  assert (Hs1 : sizes_ok (-1) 0 (p1, <[n := tinit]> tokens)).
  { apply (sizes_alloc _ _ _ _ t0); [exact Hs|lia|exact Ht0|exact Hip|exact Hic]. }
  assert (Hat1 : <[n := tinit]> tokens !! n = Some tinit).
  { apply list_lookup_insert_eq. apply lookup_lt_Some in Ht0. exact Ht0. }
  apply fbind_Ok in H as [(r0 & s0 & Hin & ->) | (s2 & Hin & Hk)].
  { cbn [flow_state].
    destruct (negb (toksuper p =? -1)).
    - apply obind_Ok in Hin as [t [_ Hin]].
      destruct (type_eqb (type t) JSMN_OBJECT).
      + injection Hin as <- <-. exact Hs1.
      + apply obind_Ok in Hin as [ts [_ Hin]].
        apply obind_Ok in Hin as [ts' [_ Hin]]. discriminate.
    - destruct (toknext p + 1 >? 1); [|discriminate].
      injection Hin as <- <-. exact Hs1. }
  (* the inner block went through: the new slot holds [tnew], of size 0 *)
  assert (Hmid : exists tnew,
             fst s2 = p1 /\ snd s2 !! n = Some tnew
             /\ size tnew = 0 /\ sizes_ok (-1) 0 s2).
  { destruct (Z.eqb_spec (toksuper p) (-1)) as [E|E]; cbn [negb] in Hin.
    - destruct (toknext p + 1 >? 1); [discriminate|]. injection Hin as <-.
      exists tinit. cbn [fst snd]. auto.
    - apply obind_Ok in Hin as [t [Hlt Hin]]. apply load_Ok in Hlt as [H0 Ht].
      destruct (type_eqb (type t) JSMN_OBJECT) eqn:Eobj; [discriminate|].
      assert (Hne : Z.to_nat (toksuper p) <> n) by (subst n; lia).
      apply (sizes_settled _ _ (toksuper p)) in Hs1; [|left; reflexivity].
      destruct (type_eqb (type t) JSMN_ARRAY) eqn:Earr.
      + rewrite (modify_Some _ _ t) in Hin by assumption. cbn [obind] in Hin.
        assert (Hat2 : <[Z.to_nat (toksuper p) := incr_size t]>
                         (<[n := tinit]> tokens) !! Z.to_nat (toknext p)
                       = Some tinit).
        { rewrite list_lookup_insert_ne by exact Hne. exact Hat1. }
        rewrite (modify_Some _ _ tinit) in Hin by (lia || exact Hat2).
        cbn [obind] in Hin. injection Hin as <-.
        exists (set_parent (toksuper p) tinit). cbn [fst snd].
        split; [reflexivity|]. split.
        { apply list_lookup_insert_eq. apply lookup_lt_Some in Hat2. exact Hat2. }
        split; [exact Hisz|].
        apply (sizes_incr _ _ _ _ t) in Hs1; [|exact H0|exact Ht].
        apply (sizes_reparent _ _ _ _ (toknext p) tinit
                 (set_parent (toksuper p) tinit)) in Hs1;
          [|subst p1; cbn; lia|exact Hat2|exact Hip|reflexivity|exact Hic].
        eapply sizes_settled; [exact Hs1|left; reflexivity].
      + cbn [obind] in Hin.
        rewrite (modify_Some _ _ tinit) in Hin by (lia || exact Hat1).
        cbn [obind] in Hin. injection Hin as <-.
        exists (set_parent (toksuper p) tinit). cbn [fst snd].
        split; [reflexivity|]. split.
        { apply list_lookup_insert_eq. apply lookup_lt_Some in Hat1. exact Hat1. }
        split; [exact Hisz|].
        apply (sizes_reparent _ _ _ _ (toknext p) tinit
                 (set_parent (toksuper p) tinit)) in Hs1;
          [|subst p1; cbn; lia|exact Hat1|exact Hip|reflexivity|exact Hic].
        eapply sizes_settled; [exact Hs1|]. right. right.
        exists t. split.
        * cbn [snd]. rewrite list_lookup_insert_ne by (subst n; lia).
          exact Ht.
        * unfold is_container. rewrite Eobj, Earr. reflexivity. }
  destruct Hmid as (tnew & Hfst & Hnew & Hsz & Hs2).
  destruct s2 as [p2 tokens2]. cbn [fst snd] in *. subst p2.
  rewrite (modify_Some _ _ tnew) in Hk by (lia || exact Hnew).
  cbn [obind] in Hk. injection Hk as <-. cbn [flow_state] in *.
  eapply sizes_parser with (p := p1); [|reflexivity|reflexivity].
  apply (sizes_open _ _ _ _ (toknext p) tnew);
    [exact Hs2|subst p1; cbn; lia|exact Hnew|reflexivity|exact Hsz| |
    |left; lia].
  - erewrite <- children_parser; [apply (children_zero cfg _ _ Hfin Hlinks)|].
    + cbn. lia.
    + reflexivity.
  - apply staged_undefined. exact Hty.
Qed.

End SizesOfHandlers.

Section SizesOfCalls.
Variable cfg : config.
Variable js : list Z.
Variable len : Z.
Variable num_tokens : Z.
Hypothesis Hlinks : JSMN_PARENT_LINKS cfg = true.

Lemma scanned_self s s1 : scanned s s1 -> scanned s1 s1.
Proof.
  intros (Hsup & Hs & Hb). unfold scanned. rewrite Hsup. auto.
Qed.

Lemma after_scanner_sizes line0 col0 start0 s r s1 fl :
  sizes_ok (-1) 0 s ->
  (r <> JSMN_SUCCESS /\ r <> JSMN_ERROR_NOMEM /\ s1 = s)
  \/ ((r = JSMN_SUCCESS \/ r = JSMN_ERROR_NOMEM) /\ scanned s s1) ->
  attach line0 col0 start0 r s1 = Ok fl ->
  sizes_ok (-1) 0 (flow_state fl).
Proof.
  intros Hs Hcase H. eapply attach_sizes; [exact H|].
  destruct Hcase as [(E & E' & ->) | [Hr Hsc]].
  - right. auto.
  - left. split; [exact Hr|]. eapply scanned_self; eauto.
Qed.

Lemma dispatch_sizes c s fl :
  links_ok cfg s -> sizes_ok (-1) 0 s ->
  type (tokbuf (fst s)) = JSMN_UNDEFINED ->
  dispatch cfg js len num_tokens c s = Ok fl ->
  sizes_ok (-1) 0 (flow_state fl).
Proof.
  intros Hl Hs Hty H. unfold dispatch in H. destruct (classify c).
  - eapply open_container_sizes; eauto.
  - eapply sizes_quiet; [|exact Hs]. eapply close_container_quiet; eauto.
  - apply obind_Ok in H as [[r s1] [Es H]].
    eapply after_scanner_sizes; [exact Hs| |exact H].
    eapply jsmn_parse_string_sizes; eauto.
  - apply obind_Ok in H as [[r parser] [Ew H]].
    apply ws_loop_fields in Ew as [Hn Hb].
    eapply sizes_quiet; [|exact Hs]. destruct s as [p tokens].
    destruct (negb (r =? 0)); injection H as <-;
      apply quiet_parser; assumption.
  - eapply sizes_quiet; [|exact Hs]. eapply colon_quiet; eauto.
  - eapply sizes_quiet; [|exact Hs]. eapply comma_quiet; eauto.
  - apply obind_Ok in H as [okp [_ H]].
    destruct (negb okp); [injection H as <-; exact Hs|].
    apply obind_Ok in H as [[r s1] [Es H]].
    eapply after_scanner_sizes; [exact Hs| |exact H].
    eapply jsmn_parse_primitive_sizes; eauto.
  - injection H as <-. exact Hs.
Qed.

Lemma driver_step_sizes s fl :
  links_ok cfg s -> sizes_ok (-1) 0 s ->
  type (tokbuf (fst s)) = JSMN_UNDEFINED ->
  driver_step cfg js len num_tokens s = Ok fl ->
  sizes_ok (-1) 0 (flow_state fl).
Proof.
  intros Hl Hs Hty H. unfold driver_step in H.
  apply obind_Ok in H as [c [_ H]].
  apply fbind_Ok in H as [(r0 & s0 & Hd & ->) | (s1 & Hd & Hk)].
  - eapply (dispatch_sizes c s (Return r0 s0)); eauto.
  - injection Hk as <-. cbn [flow_state].
    pose proof (dispatch_sizes c s (Continue s1) Hl Hs Hty Hd) as Hs1.
    destruct s1 as [p1 t1]. cbn [flow_state fst snd] in *.
    eapply sizes_parser; [exact Hs1|reflexivity|reflexivity].
Qed.

Lemma driver_loop_sizes fuel s fl :
  links_ok cfg s -> sizes_ok (-1) 0 s ->
  type (tokbuf (fst s)) = JSMN_UNDEFINED ->
  driver_loop cfg js len num_tokens fuel s = Ok fl ->
  sizes_ok (-1) 0 (flow_state fl).
Proof.
  revert s. induction fuel as [|fuel IH]; intros s Hl Hs Hty H; simpl in H;
    (destruct (Z.ltb_spec (pos (fst s)) len) as [Hlt|Hge];
     [|injection H as <-; exact Hs]);
    apply obind_Ok in H as [c [_ H]];
    (destruct (c =? 0); [injection H as <-; exact Hs|]); [discriminate|].
  apply fbind_Ok in H as [(r0 & s0 & Hd & ->) | (s1 & Hd & Hk)].
  - eapply (driver_step_sizes s (Return r0 s0)); eauto.
  - apply (IH s1); [| | |exact Hk].
    + pose proof (driver_step_within cfg js len num_tokens (length (snd s)) s
                    (conj Hl eq_refl) Hlt) as Hw.
      rewrite Hd in Hw. exact (proj1 Hw).
    + exact (driver_step_sizes s (Continue s1) Hl Hs Hty Hd).
    + rewrite (driver_step_tokbuf _ _ _ _ _ _ Hd). exact Hty.
Qed.

Lemma resume_sizes s fl :
  links_ok cfg s -> sizes_ok (-1) 0 s ->
  resume cfg num_tokens s = Ok fl ->
  sizes_ok (-1) 0 (flow_state fl).
Proof.
  intros Hl Hs H. destruct Hl as (_ & Hsup & Hn & _).
  destruct s as [p tokens]. cbn [fst snd] in *. unfold resume in H.
  cbn [fst snd] in H.
  destruct (type_eqb (type (tokbuf p)) JSMN_UNDEFINED) eqn:Ety; cbn [negb] in H;
    [injection H as <-; exact Hs|].
  apply obind_Ok in H as [[slot s1] [Ea H]].
  apply alloc_inv in Ea as [(-> & -> & Hfull) | (t0 & -> & Hslot & Ht0 & ->)];
    [injection H as <-; exact Hs|].
  cbn [fst snd set_toknext tokbuf] in *.
  rewrite (modify_inserted _ _ t0) in H by (lia || exact Ht0).
  cbn [obind] in H. injection H as <-. cbn [flow_state].
  apply (sizes_place _ _ p _ _ t0); [exact Hs|lia|exact Ht0| | |].
  - intros E. rewrite E in Ety. discriminate.
  - destruct (JSMN_NO_TRAILING_COMMAS cfg); reflexivity.
  - destruct (JSMN_NO_TRAILING_COMMAS cfg); reflexivity.
Qed.

Lemma jsmn_parse_sizes parser tokens r s' :
  links_ok cfg (parser, tokens) -> sizes_ok (-1) 0 (parser, tokens) ->
  jsmn_parse cfg js len num_tokens parser tokens = Ok (r, s') ->
  sizes_ok (-1) 0 s'.
Proof.
  intros Hl Hs H. unfold jsmn_parse, jsmn_parse_loop in H.
  apply obind_Ok in H as [fl [Hloop H]].
  assert (Hfl : sizes_ok (-1) 0 (flow_state fl)).
  { apply fbind_Ok in Hloop as [(r0 & s0 & Hres & ->) | (s1 & Hres & Hloop)].
    - exact (resume_sizes _ _ Hl Hs Hres).
    - eapply driver_loop_sizes; [| | |exact Hloop].
      + pose proof (resume_within cfg js len num_tokens (length tokens)
                      (parser, tokens) (conj Hl eq_refl)) as Hw.
        rewrite Hres in Hw. exact (proj1 Hw).
      + exact (resume_sizes _ _ Hl Hs Hres).
      + eapply resume_continue; eauto. }
  destruct fl as [s|r0 s]; cbn [flow_state] in Hfl.
  - apply obind_Ok in H as [r1 [_ H]]. injection H as _ <-. exact Hfl.
  - injection H as _ <-. exact Hfl.
Qed.

End SizesOfCalls.

Lemma in_session_sizes cfg js len s :
  JSMN_PARENT_LINKS cfg = true -> in_session cfg js len s ->
  sizes_ok (-1) 0 s.
Proof.
  intros Hlinks.
  induction 1 as [tokbuf0 tokens|parser tokens more num_tokens r s' Hin IH Hcall].
  - split; [reflexivity|]. cbn. intros i t Hi. lia.
  - pose proof (in_session_links _ _ _ _ Hin) as Hl.
    eapply (jsmn_parse_sizes cfg js len num_tokens Hlinks);
      [apply links_ok_grow; exact Hl| |exact Hcall].
    apply sizes_grow; [|exact IH]. destruct Hl as (_ & _ & Hn & _). exact Hn.
Qed.

(** Under parent links the [size] of a container is the number of its
    children: throughout a scan, the [size] of every allocated Object or
    Array equals the number of allocated tokens whose parent link points
    at it, plus one while a child of it waits in the scratch slot after a
    NoMemory return. *)
Theorem container_size_counts_children cfg js len s i t :
  in_session cfg js len s -> JSMN_PARENT_LINKS cfg = true ->
  0 <= i < toknext (fst s) -> snd s !! Z.to_nat i = Some t ->
  type t = JSMN_OBJECT \/ type t = JSMN_ARRAY ->
  size t = children s i + staged_for (fst s) i.
Proof.
  intros Hin Hlinks Hi Ht Hty.
  destruct (in_session_sizes _ _ _ _ Hlinks Hin) as [_ Hall].
  rewrite (Hall i t Hi Ht) by (apply is_container_type; exact Hty).
  destruct (Z.eqb_spec i (-1)); lia.
Qed.

Lemma after_nested_in_session :
  in_session linked_build nested_array 13 after_nested.
Proof.
  eapply (session_call linked_build nested_array 13
            (jsmn_init linked_build zero_token) (pool 7) [] 7).
  - apply session_init.
  - vm_compute. reflexivity.
Qed.

Lemma container_size_witness :
  size (mkTok JSMN_ARRAY 5 3 false false false 1)
  = children after_nested 2 + staged_for (fst after_nested) 2.
Proof.
  refine (container_size_counts_children linked_build nested_array 13
            after_nested 2 _ after_nested_in_session eq_refl _ _ _).
  - split; [discriminate|reflexivity].
  - reflexivity.
  - right. reflexivity.
Defined.

(** ** Document order *)













Section Shapes.
Variable cfg : config.
Variable js : list Z.
Variable len : Z.
Variable num_tokens : Z.



End Shapes.

Section StepShapes.
Variable cfg : config.
Variable js : list Z.
Variable len : Z.
Variable num_tokens : Z.











End StepShapes.

